(** * uvrpc: the RPC DSL code generators

    A shallow embedding of [tools/rpc_dsl_generator.py] (the plain generator)
    and [tools/rpc_dsl_generator_with_flatcc.py] (the generator that can use a
    bundled FlatCC), with the properties of the schema parser, the type
    mapping, the generation mode and the orchestration order.

    Text is a list of characters.  The embedding covers 7-bit schema text:
    character classes and case mapping follow Python on code points below 128,
    and a code point above 127 is kept as it is, as neither a word character
    nor white space. *)

From Stdlib Require Import Ascii String DecimalString List Bool Arith Lia ZArith.
Import ListNotations.

Set Implicit Arguments.

(** ** Python strings *)

Definition str := list ascii.

Notation "$ s" := (list_ascii_of_string s%string)
  (at level 1, s at level 0, format "$ s").

Definition ascii_eqb (a b : ascii) : bool := Ascii.eqb a b.

Fixpoint str_eqb (a b : str) : bool :=
  match a, b with
  | [], [] => true
  | x :: a', y :: b' => ascii_eqb x y && str_eqb a' b'
  | _, _ => false
  end.

Definition in_range (lo hi : nat) (c : ascii) : bool :=
  (lo <=? nat_of_ascii c) && (nat_of_ascii c <=? hi).

(** [str.isspace] and the regular expression class [\s]: tab, line feed,
    vertical tab, form feed, carriage return, the four separators 28..31 and
    the space. *)
Definition isspace (c : ascii) : bool := in_range 9 13 c || in_range 28 32 c.

Definition isupper (c : ascii) : bool := in_range 65 90 c.
Definition islower (c : ascii) : bool := in_range 97 122 c.
Definition isdigit (c : ascii) : bool := in_range 48 57 c.

(** The regular expression class [\w]: letters, digits and the underscore. *)
Definition isword (c : ascii) : bool :=
  isupper c || islower c || isdigit c || ascii_eqb c "_".

Definition lower_char (c : ascii) : ascii :=
  if isupper c then ascii_of_nat (nat_of_ascii c + 32) else c.

Definition upper_char (c : ascii) : ascii :=
  if islower c then ascii_of_nat (nat_of_ascii c - 32) else c.

(** [s.lower()] and [s.upper()] *)
Definition lower (s : str) : str := map lower_char s.
Definition upper (s : str) : str := map upper_char s.

(** [s.startswith(prefix)] *)
Fixpoint startswith (prefix s : str) : bool :=
  match prefix, s with
  | [], _ => true
  | p :: prefix', c :: s' => ascii_eqb p c && startswith prefix' s'
  | _ :: _, [] => false
  end.

(** [s.endswith(suffix)] *)
Definition endswith (suffix s : str) : bool :=
  startswith (rev suffix) (rev s).

(** [sub in s] *)
Fixpoint str_in (sub s : str) : bool :=
  startswith sub s ||
  match s with
  | [] => false
  | _ :: s' => str_in sub s'
  end.

Fixpoint dropwhile (p : ascii -> bool) (s : str) : str :=
  match s with
  | [] => []
  | c :: s' => if p c then dropwhile p s' else s
  end.

(** [s.lstrip()], [s.rstrip()], [s.strip()] *)
Definition lstrip (s : str) : str := dropwhile isspace s.
Definition rstrip (s : str) : str := rev (dropwhile isspace (rev s)).
Definition strip (s : str) : str := rstrip (lstrip s).

(** [s.rstrip(chars)] for a one-character [chars] *)
Definition rstrip_char (ch : ascii) (s : str) : str :=
  rev (dropwhile (ascii_eqb ch) (rev s)).

(** [s.split(sep)] for a one-character separator: never empty, one more piece
    than there are separators. *)
Fixpoint split (sep : ascii) (s : str) : list str :=
  match s with
  | [] => [[]]
  | c :: s' =>
      if ascii_eqb c sep then [] :: split sep s'
      else match split sep s' with
           | piece :: pieces => (c :: piece) :: pieces
           | [] => [[c]]
           end
  end.

(** [s[1:-1]] *)
Definition slice_1_m1 (s : str) : str := removelast (tl s).

(** ** Failures and effects *)

Class Monad (M : Type -> Type) : Type := {
  ret : forall A, A -> M A;
  bind : forall A B, M A -> (A -> M B) -> M B
}.
Arguments ret {M _ A} _.
Arguments bind {M _ A B} _ _.

Notation "x <- c ;; k" := (bind c (fun x => k))
  (at level 61, c at next level, right associativity).
Notation "' pat <- c ;; k" :=
  (bind c (fun x => match x with pat => k end))
  (at level 61, pat pattern, c at next level, right associativity).
Notation "c ;; k" := (bind c (fun _ => k))
  (at level 61, right associativity).

#[export] Instance option_monad : Monad option := {
  ret := fun A a => Some a;
  bind := fun A B o k => match o with Some a => k a | None => None end
}.

Inductive exn : Type :=
| IndexError
| FileNotFoundError (path : str)
| TemplateError (template : str).

(** What a call does: it returns, raises, or leaves through [sys.exit]. *)
Inductive outcome (A : Type) : Type :=
| Returned (a : A)
| Raised (e : exn)
| Exited (code : Z).
Arguments Returned {A} a.
Arguments Raised {A} e.
Arguments Exited {A} code.

#[export] Instance outcome_monad : Monad outcome := {
  ret := fun A a => Returned a;
  bind := fun A B o k =>
    match o with
    | Returned a => k a
    | Raised e => Raised e
    | Exited c => Exited c
    end
}.

(** [xs[i]] *)
Definition index {A} (xs : list A) (i : nat) : outcome A :=
  match nth_error xs i with
  | Some x => Returned x
  | None => Raised IndexError
  end.

(** A [for] loop whose body updates an accumulator: it stops at the first
    iteration that does not return. *)
Fixpoint for_acc {M} `{Monad M} {A St} (body : St -> A -> M St) (xs : list A)
  (acc : St) : M St :=
  match xs with
  | [] => ret acc
  | x :: xs' => acc' <- body acc x ;; for_acc body xs' acc'
  end.

(** ** Regular expressions

    The patterns of the parser are sequences of literals and of greedy
    repetitions of a character class; every repetition is followed by a
    character outside its class (or ends the pattern), so the first greedy
    attempt of [re] is the only one that can succeed.  A pattern is a function
    that, tried at the start of a text, gives its groups and the text after
    the match. *)

Fixpoint span (p : ascii -> bool) (s : str) : str * str :=
  match s with
  | c :: s' =>
      if p c then let (taken, rest) := span p s' in (c :: taken, rest)
      else ([], s)
  | [] => ([], [])
  end.

(** a literal text *)
Fixpoint lit (l s : str) : option str :=
  match l, s with
  | [], _ => Some s
  | x :: l', c :: s' => if ascii_eqb x c then lit l' s' else None
  | _ :: _, [] => None
  end.

(** [cls+] *)
Definition plus (p : ascii -> bool) (s : str) : option (str * str) :=
  match span p s with
  | ([], _) => None
  | (taken, rest) => Some (taken, rest)
  end.

(** [cls*] *)
Definition star (p : ascii -> bool) (s : str) : option str :=
  Some (snd (span p s)).

Definition not_char (ch : ascii) (c : ascii) : bool := negb (ascii_eqb c ch).

Definition pattern (G : Type) : Type := str -> option (G * str).

(** [re.match(pattern, s)] *)
Definition re_match {G} (pat : pattern G) (s : str) : option G :=
  option_map fst (pat s).

(** [re.search(pattern, s)]: the match at the leftmost position that has one *)
Fixpoint re_search {G} (pat : pattern G) (s : str) : option G :=
  match pat s with
  | Some (g, _) => Some g
  | None =>
      match s with
      | [] => None
      | _ :: s' => re_search pat s'
      end
  end.

(** [re.finditer(pattern, s)]: the matches from left to right, the search
    resuming where the previous match ended; [skip] counts the characters of
    the previous match still to pass. *)
Fixpoint finditer_from {G} (pat : pattern G) (skip : nat) (s : str) : list G :=
  match skip with
  | S skip' =>
      match s with
      | [] => []
      | _ :: s' => finditer_from pat skip' s'
      end
  | O =>
      match pat s with
      | Some (g, rest) =>
          g :: match s with
               | [] => []
               | _ :: s' =>
                   finditer_from pat (length s - length rest - 1) s'
               end
      | None =>
          match s with
          | [] => []
          | _ :: s' => finditer_from pat 0 s'
          end
      end
  end.

Definition re_finditer {G} (pat : pattern G) (s : str) : list G :=
  finditer_from pat 0 s.

(** ** Python dictionaries, in insertion order *)

Definition dict (V : Type) : Type := list (str * V).

(** [d[k] = v] *)
Fixpoint dict_set {V} (d : dict V) (k : str) (v : V) : dict V :=
  match d with
  | [] => [(k, v)]
  | (k', v') :: d' =>
      if str_eqb k' k then (k', v) :: d' else (k', v') :: dict_set d' k v
  end.

(** [d.get(k, default)] *)
Fixpoint dict_get {V} (d : dict V) (k : str) (default : V) : V :=
  match d with
  | [] => default
  | (k', v') :: d' => if str_eqb k' k then v' else dict_get d' k default
  end.

(** ** The parsed schema *)

Record Field : Type := {
  f_name : str;
  f_type : str;
  f_original_type : str;
  f_is_array : bool
}.

Record Method : Type := {
  m_name : str;
  m_return : str;
  m_request : str;
  m_response : str;
  m_request_fields : list Field
}.

Record Service : Type := {
  s_name : str;
  s_methods : list Method
}.

(** The dictionary [parse] returns. *)
Record RpcData : Type := {
  namespace : str;
  schema_basename : str;
  services : list Service;
  tables : dict (list Field)
}.

(** The attributes of an [RPCParser]. *)
Record RPCParser : Type := {
  p_schema_file : str;
  p_namespace : str;
  p_services : list Service;
  p_tables : dict (list Field);
  p_schema_basename : str
}.

Definition set_namespace (self : RPCParser) (v : str) : RPCParser :=
  {| p_schema_file := p_schema_file self; p_namespace := v;
     p_services := p_services self; p_tables := p_tables self;
     p_schema_basename := p_schema_basename self |}.

Definition set_tables (self : RPCParser) (v : dict (list Field)) : RPCParser :=
  {| p_schema_file := p_schema_file self; p_namespace := p_namespace self;
     p_services := p_services self; p_tables := v;
     p_schema_basename := p_schema_basename self |}.

Definition set_services (self : RPCParser) (v : list Service) : RPCParser :=
  {| p_schema_file := p_schema_file self; p_namespace := p_namespace self;
     p_services := v; p_tables := p_tables self;
     p_schema_basename := p_schema_basename self |}.

Definition nl : ascii := "010"%char.

(** [str(n)] *)
Definition str_of_nat (n : nat) : str :=
  list_ascii_of_string (NilZero.string_of_uint (Nat.to_uint n)).

(** ** The generator's surroundings

    What a template is rendered with (the [service_data] of every
    [generate_*] method). *)
Record RenderContext : Type := {
  c_namespace : str;
  c_schema_basename : str;
  c_service : Service;
  c_service_name_lower : str;
  c_service_name_upper : str
}.

(** The file system, the template engine and the processes a run meets. *)
Record World : Type := {
  (** [open(path, 'r').read()]; [None] when it raises *)
  w_read : str -> option str;
  (** [Path(path).stem] *)
  w_stem : str -> str;
  (** [str(Path(dir) / filename)] *)
  w_path : str -> str -> str;
  (** [subprocess.run(argv, capture_output=True, text=True)]: the return code
      and the captured standard error; [None] when the program cannot be
      started and [run] raises *)
  w_run : list str -> option (Z * str);
  (** [env.get_template(name).render] on the context with the loader on the
      template directory; [None] when the template is missing or fails *)
  w_render : str -> str -> RenderContext -> option str;
  (** [sys._MEIPASS] when [sys.frozen] is set and the attribute exists *)
  w_meipass : option str;
  (** [os.path.exists(path) and os.access(path, os.X_OK)] *)
  w_executable : str -> bool;
  (** [shutil.which(name)] *)
  w_which : str -> option str
}.

(** What a run does to its surroundings, in order.  [EvMkdir] is the call
    [Path(dir).mkdir(parents=True, exist_ok=True)]; [EvArtifact] is one
    [template.render] whose result [write_text] puts in the output directory
    under [filename]. *)
Inductive event : Type :=
| EvMkdir (dir : str)
| EvPrint (line : str)
| EvRead (path : str)
| EvRun (argv : list str)
| EvArtifact (template : str) (ctx : RenderContext) (dir filename : str)
    (output : str).

Definition prog (A : Type) : Type := (list event * outcome A)%type.

#[export] Instance prog_monad : Monad prog := {
  ret := fun A a => ([], Returned a);
  bind := fun A B m k =>
    match m with
    | (t, Returned a) => let (t', r) := k a in (t ++ t', r)
    | (t, Raised e) => (t, Raised e)
    | (t, Exited c) => (t, Exited c)
    end
}.

Definition emit (e : event) : prog unit := ([e], Returned tt).
Definition print (line : str) : prog unit := emit (EvPrint line).
Definition raise {A} (e : exn) : prog A := ([], Raised e).
Definition sys_exit {A} (code : Z) : prog A := ([], Exited code).
Definition lift {A} (o : outcome A) : prog A := ([], o).

(** A [for] loop over [xs]; an iteration that raises or exits ends it. *)
Fixpoint for_each {A} (xs : list A) (body : A -> prog unit) : prog unit :=
  match xs with
  | [] => ret tt
  | x :: xs' => body x ;; for_each xs' body
  end.

(** The events of a run and the status the process ends with under
    [sys.exit(main())]: the value [main] returns, the code of a [sys.exit], 1
    after an exception nobody catches. *)
Definition trace {A} (p : prog A) : list event := fst p.

Definition exit_status (p : prog Z) : Z :=
  match snd p with
  | Returned code => code
  | Raised _ => 1%Z
  | Exited code => code
  end.

Definition is_artifact (e : event) : bool :=
  match e with
  | EvArtifact _ _ _ _ _ => true
  | _ => false
  end.

Definition is_run (e : event) : bool :=
  match e with
  | EvRun _ => true
  | _ => false
  end.

Definition is_read (e : event) : bool :=
  match e with
  | EvRead _ => true
  | _ => false
  end.

(** [with open(path, 'r') as f: content = f.read()] *)
Definition open_read (w : World) (path : str) : prog str :=
  emit (EvRead path) ;;
  match w_read w path with
  | Some content => ret content
  | None => raise (FileNotFoundError path)
  end.

(** [subprocess.run(argv, capture_output=True, text=True)] *)
Definition subprocess_run (w : World) (argv : list str) : prog (Z * str) :=
  emit (EvRun argv) ;;
  match argv, w_run w argv with
  | _, Some result => ret result
  | program :: _, None => raise (FileNotFoundError program)
  | [], None => raise IndexError
  end.

(** The attributes of an [RPCGenerator]; its [env] is the template engine of
    the world, loading from [g_template_dir]. *)
Record RPCGenerator : Type := {
  g_output_dir : str;
  g_template_dir : str
}.

(** The body every [generate_*] method repeats for each service: build the
    context, render [template], write the result as
    [{namespace.lower()}_{name.lower()}{suffix}] and print the path. *)
Definition generate_one (w : World) (self : RPCGenerator) (rpc_data : RpcData)
  (template suffix : str) (service : Service) : prog unit :=
  let service_data :=
    {| c_namespace := namespace rpc_data;
       c_schema_basename := schema_basename rpc_data;
       c_service := service;
       c_service_name_lower := lower (s_name service);
       c_service_name_upper := upper (s_name service) |} in
  match w_render w (g_template_dir self) template service_data with
  | None => raise (TemplateError template)
  | Some output =>
      let filename :=
        lower (namespace rpc_data) ++ $"_" ++ lower (s_name service) ++ suffix in
      emit (EvArtifact template service_data (g_output_dir self) filename
              output) ;;
      print ($"Generated: " ++ w_path w (g_output_dir self) filename)
  end.

Definition generate_all (w : World) (self : RPCGenerator) (rpc_data : RpcData)
  (template suffix : str) : prog unit :=
  for_each (services rpc_data) (generate_one w self rpc_data template suffix).

(** ** tools/rpc_dsl_generator.py *)

Module Plain.

(** [namespace\s+(\w+);] *)
Definition namespace_pattern : pattern str := fun s =>
  s <- lit $"namespace" s ;;
  '(_, s) <- plus isspace s ;;
  '(g1, s) <- plus isword s ;;
  s <- lit $";" s ;;
  ret (g1, s).

(** [table\s+(\w+)\s*\{([^}]+)\}] *)
Definition table_pattern : pattern (str * str) := fun s =>
  s <- lit $"table" s ;;
  '(_, s) <- plus isspace s ;;
  '(g1, s) <- plus isword s ;;
  s <- star isspace s ;;
  s <- lit $"{" s ;;
  '(g2, s) <- plus (not_char "}") s ;;
  s <- lit $"}" s ;;
  ret ((g1, g2), s).

(** [rpc_service\s+(\w+)\s*\{([^}]+)\}] *)
Definition service_pattern : pattern (str * str) := fun s =>
  s <- lit $"rpc_service" s ;;
  '(_, s) <- plus isspace s ;;
  '(g1, s) <- plus isword s ;;
  s <- star isspace s ;;
  s <- lit $"{" s ;;
  '(g2, s) <- plus (not_char "}") s ;;
  s <- lit $"}" s ;;
  ret ((g1, g2), s).

(** [(\w+)\s*\(\s*(\w+)\s*\)\s*:\s*(\w+)] *)
Definition method_pattern : pattern (str * str * str) := fun s =>
  '(g1, s) <- plus isword s ;;
  s <- star isspace s ;;
  s <- lit $"(" s ;;
  s <- star isspace s ;;
  '(g2, s) <- plus isword s ;;
  s <- star isspace s ;;
  s <- lit $")" s ;;
  s <- star isspace s ;;
  s <- lit $":" s ;;
  s <- star isspace s ;;
  '(g3, s) <- plus isword s ;;
  ret ((g1, g2, g3), s).

(** [RPCParser.__init__] *)
Definition RPCParser_init (w : World) (schema_file : str) : RPCParser :=
  {| p_schema_file := schema_file;
     p_namespace := [];
     p_services := [];
     p_tables := [];
     p_schema_basename := w_stem w schema_file |}.

Definition type_mapping : dict str :=
  [ ($"int32", $"int32_t");
    ($"int64", $"int64_t");
    ($"uint32", $"uint32_t");
    ($"uint64", $"uint64_t");
    ($"float", $"float");
    ($"double", $"double");
    ($"bool", $"bool");
    ($"string", $"const char*");
    ($"ubyte", $"uint8_t");
    ($"byte", $"int8_t") ].

(** The type mapping of [_parse_fields], from [is_array = False] to the end
    of its [if]: the C type and the array flag of a declared type. *)
Definition map_type (field_type : str) : str * bool :=
  let is_array := false in
  let c_type := field_type in
  if startswith $"[" field_type && endswith $"]" field_type then
    let is_array := true in
    let base_type := slice_1_m1 field_type in
    let c_type := dict_get type_mapping base_type base_type in
    (c_type, is_array)
  else
    let c_type := dict_get type_mapping field_type field_type in
    (c_type, is_array).

(** One turn of the loop of [_parse_fields]. *)
Definition _parse_fields_line (fields : list Field) (line : str)
  : outcome (list Field) :=
  let line := strip line in
  if str_eqb line [] || startswith $"//" line then ret fields
  else
    let parts := split ":" line in
    if length parts =? 2 then
      part0 <- index parts 0 ;;
      part1 <- index parts 1 ;;
      let field_name := strip part0 in
      let field_type := rstrip_char ";" (strip part1) in
      let '(c_type, is_array) := map_type field_type in
      ret (fields ++ [ {| f_name := field_name;
                          f_type := c_type;
                          f_original_type := field_type;
                          f_is_array := is_array |} ])
    else ret fields.

Definition _parse_fields (fields_str : str) : outcome (list Field) :=
  for_acc _parse_fields_line (split nl fields_str) [].

(** One turn of the loop of [_parse_methods]. *)
Definition _parse_methods_line (self : RPCParser) (methods : list Method)
  (line : str) : outcome (list Method) :=
  let line := strip line in
  if str_eqb line [] || startswith $"//" line then ret methods
  else
    match re_match method_pattern line with
    | Some (method_name, request_type, return_type) =>
        let request_fields := dict_get (p_tables self) request_type [] in
        ret (methods ++ [ {| m_name := method_name;
                             m_return := return_type;
                             m_request := request_type;
                             m_response := return_type;
                             m_request_fields := request_fields |} ])
    | None => ret methods
    end.

Definition _parse_methods (self : RPCParser) (methods_str : str)
  : outcome (list Method) :=
  for_acc (_parse_methods_line self) (split nl methods_str) [].

(** [parse] once the file is read. *)
Definition parse_content (self : RPCParser) (content : str) : outcome RpcData :=
  let ns_match := re_search namespace_pattern content in
  let self :=
    match ns_match with
    | Some group1 => set_namespace self group1
    | None => self
    end in
  self <- for_acc
    (fun self '(table_name, fields_str) =>
       fields <- _parse_fields fields_str ;;
       ret (set_tables self (dict_set (p_tables self) table_name fields)))
    (re_finditer table_pattern content) self ;;
  self <- for_acc
    (fun self '(service_name, methods_str) =>
       methods <- _parse_methods self methods_str ;;
       ret (set_services self
              (p_services self ++
               [ {| s_name := service_name; s_methods := methods |} ])))
    (re_finditer service_pattern content) self ;;
  ret {| namespace := p_namespace self;
         schema_basename := p_schema_basename self;
         services := p_services self;
         tables := p_tables self |}.

Definition parse (w : World) (self : RPCParser) : prog RpcData :=
  content <- open_read w (p_schema_file self) ;;
  lift (parse_content self content).

(** [RPCGenerator.__init__] *)
Definition RPCGenerator_init (output_dir template_dir : str) : RPCGenerator :=
  {| g_output_dir := output_dir; g_template_dir := template_dir |}.

Definition generate_server_stub w self rpc_data : prog unit :=
  generate_all w self rpc_data $"server_stub.c.j2" $"_server_stub.c".

Definition generate_client_code w self rpc_data : prog unit :=
  generate_all w self rpc_data $"client.c.j2" $"_client.c".

Definition generate_header w self rpc_data : prog unit :=
  generate_all w self rpc_data $"api.h.j2" $"_api.h".

Definition generate_common_header w self rpc_data : prog unit :=
  generate_all w self rpc_data $"rpc_common.h.j2" $"_rpc_common.h".

Definition generate_common_code w self rpc_data : prog unit :=
  generate_all w self rpc_data $"rpc_common.c.j2" $"_rpc_common.c".

(** The command line, as [argparse] hands it over; [--flatcc] is required. *)
Record Args : Type := {
  flatcc : str;
  output : str;
  templates : str;
  schema : str
}.

Definition main (w : World) (args : Args) : prog Z :=
  emit (EvMkdir (output args)) ;;
  print ($"Parsing schema: " ++ schema args) ;;
  let rpc_parser := RPCParser_init w (schema args) in
  rpc_data <- parse w rpc_parser ;;
  print ($"Found " ++ str_of_nat (length (services rpc_data))
         ++ $" services:") ;;
  for_each (services rpc_data) (fun service =>
    print ($"  - " ++ s_name service ++ $": "
           ++ str_of_nat (length (s_methods service)) ++ $" methods")) ;;
  print (nl :: $"Generating FlatBuffers code with flatcc...") ;;
  '(returncode, stderr) <- subprocess_run w
    [flatcc args; $"-c"; $"-w"; $"-o"; output args; schema args] ;;
  if negb (returncode =? 0)%Z then
    print ($"FlatCC error: " ++ stderr) ;;
    ret 1%Z
  else
    print (nl :: $"Generating RPC code with Jinja2...") ;;
    let generator := RPCGenerator_init (output args) (templates args) in
    generate_header w generator rpc_data ;;
    generate_server_stub w generator rpc_data ;;
    generate_client_code w generator rpc_data ;;
    print (nl :: $"Code generation complete!") ;;
    ret 0%Z.

End Plain.

(** ** tools/rpc_dsl_generator_with_flatcc.py *)

Module Bundled.

(** [os.path.join(a, b)] *)
Definition path_join (a b : str) : str :=
  if startswith $"/" b then b
  else if str_eqb a [] || endswith $"/" a then a ++ b
  else a ++ $"/" ++ b.

(** Truth of a value that is [None] or a string. *)
Definition truthy (v : option str) : bool :=
  match v with
  | Some (_ :: _) => true
  | _ => false
  end.

(** [find_bundled_flatcc]: the first of the three places in the bundle
    directory that holds an executable (what it returns is also what it
    leaves in the global [BUNDLED_FLATCC], which nothing reads). *)
Definition find_bundled_flatcc (w : World) : option str :=
  match w_meipass w with
  | Some bundle_dir =>
      let flatcc_paths :=
        [ path_join bundle_dir $"flatcc";
          path_join (path_join bundle_dir $"bin") $"flatcc";
          path_join (path_join bundle_dir $"flatcc") $"flatcc" ] in
      find (w_executable w) flatcc_paths
  | None => None
  end.

(** [namespace\s+(\w+);] *)
Definition namespace_pattern : pattern str := fun s =>
  s <- lit $"namespace" s ;;
  '(_, s) <- plus isspace s ;;
  '(g1, s) <- plus isword s ;;
  s <- lit $";" s ;;
  ret (g1, s).

(** [table\s+(\w+)\s*\{([^}]+)\}] *)
Definition table_pattern : pattern (str * str) := fun s =>
  s <- lit $"table" s ;;
  '(_, s) <- plus isspace s ;;
  '(g1, s) <- plus isword s ;;
  s <- star isspace s ;;
  s <- lit $"{" s ;;
  '(g2, s) <- plus (not_char "}") s ;;
  s <- lit $"}" s ;;
  ret ((g1, g2), s).

(** [rpc_service\s+(\w+)\s*\{([^}]+)\}] *)
Definition service_pattern : pattern (str * str) := fun s =>
  s <- lit $"rpc_service" s ;;
  '(_, s) <- plus isspace s ;;
  '(g1, s) <- plus isword s ;;
  s <- star isspace s ;;
  s <- lit $"{" s ;;
  '(g2, s) <- plus (not_char "}") s ;;
  s <- lit $"}" s ;;
  ret ((g1, g2), s).

(** [(\w+)\s*\(\s*(\w+)\s*\)\s*:\s*(\w+)] *)
Definition method_pattern : pattern (str * str * str) := fun s =>
  '(g1, s) <- plus isword s ;;
  s <- star isspace s ;;
  s <- lit $"(" s ;;
  s <- star isspace s ;;
  '(g2, s) <- plus isword s ;;
  s <- star isspace s ;;
  s <- lit $")" s ;;
  s <- star isspace s ;;
  s <- lit $":" s ;;
  s <- star isspace s ;;
  '(g3, s) <- plus isword s ;;
  ret ((g1, g2, g3), s).

(** [RPCParser.__init__] *)
Definition RPCParser_init (w : World) (schema_file : str) : RPCParser :=
  {| p_schema_file := schema_file;
     p_namespace := [];
     p_services := [];
     p_tables := [];
     p_schema_basename := w_stem w schema_file |}.

Definition type_mapping : dict str :=
  [ ($"int32", $"int32_t");
    ($"int64", $"int64_t");
    ($"uint32", $"uint32_t");
    ($"uint64", $"uint64_t");
    ($"float", $"float");
    ($"double", $"double");
    ($"bool", $"bool");
    ($"string", $"const char*");
    ($"ubyte", $"uint8_t");
    ($"byte", $"int8_t") ].

(** The type mapping of [_parse_fields], from [is_array = False] to the end
    of its [if]. *)
Definition map_type (field_type : str) : str * bool :=
  let is_array := false in
  let c_type := field_type in
  if startswith $"[" field_type && endswith $"]" field_type then
    let is_array := true in
    let base_type := slice_1_m1 field_type in
    let c_type := dict_get type_mapping base_type base_type in
    (c_type, is_array)
  else
    let c_type := dict_get type_mapping field_type field_type in
    (c_type, is_array).

(** One turn of the loop of [_parse_fields]. *)
Definition _parse_fields_line (fields : list Field) (line : str)
  : outcome (list Field) :=
  let line := strip line in
  if str_eqb line [] || startswith $"//" line then ret fields
  else
    let parts := split ":" line in
    if length parts =? 2 then
      part0 <- index parts 0 ;;
      part1 <- index parts 1 ;;
      let field_name := strip part0 in
      let field_type := rstrip_char ";" (strip part1) in
      let '(c_type, is_array) := map_type field_type in
      ret (fields ++ [ {| f_name := field_name;
                          f_type := c_type;
                          f_original_type := field_type;
                          f_is_array := is_array |} ])
    else ret fields.

Definition _parse_fields (fields_str : str) : outcome (list Field) :=
  for_acc _parse_fields_line (split nl fields_str) [].

(** One turn of the loop of [_parse_methods]. *)
Definition _parse_methods_line (self : RPCParser) (methods : list Method)
  (line : str) : outcome (list Method) :=
  let line := strip line in
  if str_eqb line [] || startswith $"//" line then ret methods
  else
    match re_match method_pattern line with
    | Some (method_name, request_type, return_type) =>
        let request_fields := dict_get (p_tables self) request_type [] in
        ret (methods ++ [ {| m_name := method_name;
                             m_return := return_type;
                             m_request := request_type;
                             m_response := return_type;
                             m_request_fields := request_fields |} ])
    | None => ret methods
    end.

Definition _parse_methods (self : RPCParser) (methods_str : str)
  : outcome (list Method) :=
  for_acc (_parse_methods_line self) (split nl methods_str) [].

(** [parse] once the file is read. *)
Definition parse_content (self : RPCParser) (content : str) : outcome RpcData :=
  let ns_match := re_search namespace_pattern content in
  let self :=
    match ns_match with
    | Some group1 => set_namespace self group1
    | None => self
    end in
  self <- for_acc
    (fun self '(table_name, fields_str) =>
       fields <- _parse_fields fields_str ;;
       ret (set_tables self (dict_set (p_tables self) table_name fields)))
    (re_finditer table_pattern content) self ;;
  self <- for_acc
    (fun self '(service_name, methods_str) =>
       methods <- _parse_methods self methods_str ;;
       ret (set_services self
              (p_services self ++
               [ {| s_name := service_name; s_methods := methods |} ])))
    (re_finditer service_pattern content) self ;;
  ret {| namespace := p_namespace self;
         schema_basename := p_schema_basename self;
         services := p_services self;
         tables := p_tables self |}.

Definition parse (w : World) (self : RPCParser) : prog RpcData :=
  content <- open_read w (p_schema_file self) ;;
  lift (parse_content self content).

(** [RPCGenerator.__init__] *)
Definition RPCGenerator_init (output_dir template_dir : str) : RPCGenerator :=
  {| g_output_dir := output_dir; g_template_dir := template_dir |}.

Definition generate_server_stub w self rpc_data : prog unit :=
  generate_all w self rpc_data $"server_stub.c.j2" $"_server_stub.c".

Definition generate_client_code w self rpc_data : prog unit :=
  generate_all w self rpc_data $"client.c.j2" $"_client.c".

Definition generate_header w self rpc_data : prog unit :=
  generate_all w self rpc_data $"api.h.j2" $"_api.h".

Definition generate_common_header w self rpc_data : prog unit :=
  generate_all w self rpc_data $"rpc_common.h.j2" $"_rpc_common.h".

Definition generate_common_code w self rpc_data : prog unit :=
  generate_all w self rpc_data $"rpc_common.c.j2" $"_rpc_common.c".

Definition generate_broadcast_api w self rpc_data : prog unit :=
  generate_all w self rpc_data $"broadcast_api.h.j2" $"_api.h".

Definition generate_broadcast_publisher w self rpc_data : prog unit :=
  generate_all w self rpc_data $"broadcast_publisher.c.j2"
    $"_broadcast_publisher.c".

Definition generate_broadcast_subscriber w self rpc_data : prog unit :=
  generate_all w self rpc_data $"broadcast_subscriber.c.j2"
    $"_broadcast_subscriber.c".

(** The command line, as [argparse] hands it over; [--flatcc] may be left
    out. *)
Record Args : Type := {
  flatcc : option str;
  output : str;
  templates : str;
  schema : str
}.

(** The part of [main] that settles which FlatCC to run. *)
Definition resolve_flatcc (w : World) (args : Args) : prog str :=
  let flatcc_path := flatcc args in
  let bundled_flatcc := find_bundled_flatcc w in
  flatcc_path <-
    (if truthy bundled_flatcc then
       print (nl :: $"Using bundled FlatCC: "
              ++ match bundled_flatcc with Some p => p | None => [] end) ;;
       ret bundled_flatcc
     else ret flatcc_path) ;;
  flatcc_path <-
    (if negb (truthy flatcc_path) then
       let flatcc_path := w_which w $"flatcc" in
       (if truthy flatcc_path then
          print (nl :: $"Using system FlatCC: "
                 ++ match flatcc_path with Some p => p | None => [] end)
        else ret tt) ;;
       ret flatcc_path
     else ret flatcc_path) ;;
  match flatcc_path with
  | Some (c :: p) => ret (c :: p)
  | _ =>
      print (nl :: $"Error: FlatCC not found") ;;
      print $"Please specify --flatcc or ensure FlatCC is in PATH" ;;
      print $"For bundled version, ensure flatcc was packaged correctly" ;;
      sys_exit 1%Z
  end.

(** The condition of the [if] in the loop of [main]. *)
Definition is_broadcast (service : Service) : bool :=
  str_in $"Broadcast" (s_name service).

Definition main (w : World) (args : Args) : prog Z :=
  emit (EvMkdir (output args)) ;;
  print ($"Parsing schema: " ++ schema args) ;;
  let rpc_parser := RPCParser_init w (schema args) in
  rpc_data <- parse w rpc_parser ;;
  print ($"Found " ++ str_of_nat (length (services rpc_data))
         ++ $" services:") ;;
  for_each (services rpc_data) (fun service =>
    print ($"  - " ++ s_name service ++ $": "
           ++ str_of_nat (length (s_methods service)) ++ $" methods")) ;;
  flatcc_path <- resolve_flatcc w args ;;
  print (nl :: $"Generating FlatBuffers code with flatcc...") ;;
  '(returncode, stderr) <- subprocess_run w
    [flatcc_path; $"-c"; $"-w"; $"-o"; output args; schema args] ;;
  if negb (returncode =? 0)%Z then
    print ($"FlatCC error: " ++ stderr) ;;
    ret 1%Z
  else
    print (nl :: $"Generating RPC code with Jinja2...") ;;
    let generator := RPCGenerator_init (output args) (templates args) in
    for_each (services rpc_data) (fun service =>
      if is_broadcast service then
        generate_broadcast_api w generator rpc_data ;;
        generate_broadcast_publisher w generator rpc_data ;;
        generate_broadcast_subscriber w generator rpc_data
      else
        generate_header w generator rpc_data ;;
        generate_common_header w generator rpc_data ;;
        generate_server_stub w generator rpc_data ;;
        generate_client_code w generator rpc_data ;;
        generate_common_code w generator rpc_data) ;;
    print (nl :: $"Code generation complete!") ;;
    ret 0%Z.

End Bundled.

(** ** Vocabulary of the properties *)

(** Every character of [s] is in the class [p]. *)
Definition all (p : ascii -> bool) (s : str) : Prop := forallb p s = true.

(** A greedy repetition of [p] stops in front of [s]. *)
Definition stops (p : ascii -> bool) (s : str) : Prop :=
  match s with
  | [] => True
  | c :: _ => p c = false
  end.

(** [text] begins with [namespace], white space, the identifier [id] and a
    semicolon; [rest] follows. *)
Definition namespace_statement (text id rest : str) : Prop :=
  exists ws,
    text = $"namespace" ++ ws ++ id ++ $";" ++ rest /\
    ws <> [] /\ all isspace ws /\ id <> [] /\ all isword id.

(** A namespace statement naming [id] starts at offset [i] of [content]. *)
Definition namespace_statement_at (content : str) (i : nat) (id : str) : Prop :=
  exists rest, namespace_statement (skipn i content) id rest.

(** [text] begins with [keyword], white space, the identifier [name],
    optional white space and a non-empty [body] between braces that holds no
    closing brace; [rest] follows. *)
Definition block (keyword text name body rest : str) : Prop :=
  exists ws1 ws2,
    text = keyword ++ ws1 ++ name ++ ws2 ++ $"{" ++ body ++ $"}" ++ rest /\
    ws1 <> [] /\ all isspace ws1 /\ name <> [] /\ all isword name /\
    all isspace ws2 /\ body <> [] /\ all (not_char "}") body.

(** A [keyword] block starts at offset [i] of [content]. *)
Definition block_at (keyword content : str) (i : nat) : Prop :=
  exists name body rest, block keyword (skipn i content) name body rest.

(** The number of colons of a line, the text before its first colon and the
    text after it. *)
Definition colons (s : str) : nat := count_occ ascii_dec s ":"%char.

Definition before_first (ch : ascii) (s : str) : str :=
  fst (span (not_char ch) s).

Definition after_first (ch : ascii) (s : str) : str :=
  tl (snd (span (not_char ch) s)).

(** A line that is blank or a [//] comment once trimmed. *)
Definition skipped (line : str) : bool :=
  str_eqb (strip line) [] || startswith $"//" (strip line).

(** The field a name and a declared type make. *)
Definition make_field (name declared : str) : Field :=
  {| f_name := name;
     f_type := fst (Plain.map_type declared);
     f_original_type := declared;
     f_is_array := snd (Plain.map_type declared) |}.

(** What a line of a table body contributes: nothing when it is skipped or
    does not hold exactly one colon, else the field whose name stands before
    the colon and whose type stands after it. *)
Definition line_fields (line : str) : list Field :=
  if skipped line then []
  else if colons (strip line) =? 1 then
    [ make_field (strip (before_first ":" (strip line)))
        (rstrip_char ";" (strip (after_first ":" (strip line)))) ]
  else [].

Definition body_fields (body : str) : list Field :=
  flat_map line_fields (split nl body).

(** What a line of a service body contributes, given the table map. *)
Definition line_methods (tables : dict (list Field)) (line : str)
  : list Method :=
  if skipped line then []
  else
    match Plain.method_pattern (strip line) with
    | Some ((name, request, response), _) =>
        [ {| m_name := name;
             m_return := response;
             m_request := request;
             m_response := response;
             m_request_fields := dict_get tables request [] |} ]
    | None => []
    end.

Definition body_methods (tables : dict (list Field)) (body : str)
  : list Method :=
  flat_map (line_methods tables) (split nl body).

(** The table map after the table blocks, in the order of the file, are put
    into [d]; the services the service blocks make. *)
Definition collect_tables (blocks : list (str * str)) (d : dict (list Field))
  : dict (list Field) :=
  fold_left (fun d b => dict_set d (fst b) (body_fields (snd b))) blocks d.

Definition collect_services (tables : dict (list Field))
  (blocks : list (str * str)) : list Service :=
  map (fun b => {| s_name := fst b;
                   s_methods := body_methods tables (snd b) |}) blocks.


(** The schema the parser assembles from [content], as a function. *)
Definition parsed_schema (self : RPCParser) (content : str) : RpcData :=
  let all_tables :=
    collect_tables (re_finditer Plain.table_pattern content) (p_tables self) in
  {| namespace :=
       match re_search Plain.namespace_pattern content with
       | Some id => id
       | None => p_namespace self
       end;
     schema_basename := p_schema_basename self;
     services :=
       p_services self ++
       collect_services all_tables
         (re_finditer Plain.service_pattern content);
     tables := all_tables |}.

(** The reading of a table line that splits it at its first colon whatever
    follows: the text before the first colon is the name, all the text after
    it the type. *)
Definition line_fields_first_colon (line : str) : list Field :=
  if skipped line then []
  else if colons (strip line) =? 0 then []
  else
    [ make_field (strip (before_first ":" (strip line)))
        (rstrip_char ";" (strip (after_first ":" (strip line)))) ].

(** A token between brackets. *)
Definition enclosed (token : str) : bool :=
  startswith $"[" token && endswith $"]" token.

(** The type mapper that recurses on the inner token of an array type:
    [fuel] bounds the depth of the brackets. *)
Fixpoint type_mapper_rec (fuel : nat) (token : str) : str * bool :=
  match fuel with
  | O => (dict_get Plain.type_mapping token token, false)
  | S fuel' =>
      if enclosed token then
        (fst (type_mapper_rec fuel' (slice_1_m1 token)), true)
      else (dict_get Plain.type_mapping token token, false)
  end.

Definition type_mapper_recursive (token : str) : str * bool :=
  type_mapper_rec (length token) token.

(** The names of the lookup table. *)
Definition primitive_types : list str :=
  [ $"int32"; $"int64"; $"uint32"; $"uint64"; $"float"; $"double"; $"bool";
    $"string"; $"ubyte"; $"byte" ].

(** [line] begins with [name ( request ) : response], white space allowed
    around the brackets and the colon; [rest], whatever it is, follows. *)
Definition method_signature (line name request response rest : str) : Prop :=
  exists ws1 ws2 ws3 ws4 ws5,
    line = name ++ ws1 ++ $"(" ++ ws2 ++ request ++ ws3 ++ $")" ++ ws4
           ++ $":" ++ ws5 ++ response ++ rest /\
    all isspace ws1 /\ all isspace ws2 /\ all isspace ws3 /\
    all isspace ws4 /\ all isspace ws5 /\
    name <> [] /\ all isword name /\
    request <> [] /\ all isword request /\
    response <> [] /\ all isword response.

(** The events that mark the phases of a run: the parser reading the schema
    file, the call of the schema compiler, the artifacts. *)
Definition is_phase (e : event) : bool := is_read e || is_run e || is_artifact e.

Definition phases (t : list event) : list event := filter is_phase t.



(** A world for the examples: the schema file holds [content], FlatCC ends
    with [returncode] and every template renders to the empty text. *)
Definition example_world (content : str) (returncode : Z) : World :=
  {| w_read := fun _ => Some content;
     w_stem := fun path => path;
     w_path := fun dir filename => dir ++ $"/" ++ filename;
     w_run := fun _ => Some (returncode, []);
     w_render := fun _ _ _ => Some [];
     w_meipass := None;
     w_executable := fun _ => false;
     w_which := fun _ => None |}.

Definition plain_args : Plain.Args :=
  {| Plain.flatcc := $"flatcc"; Plain.output := $"generated";
     Plain.templates := $"tools/templates"; Plain.schema := $"calc.fbs" |}.

Definition bundled_args : Bundled.Args :=
  {| Bundled.flatcc := Some $"flatcc"; Bundled.output := $"generated";
     Bundled.templates := $"tools/templates"; Bundled.schema := $"calc.fbs" |}.

Definition calculator_schema : str :=
  $"namespace Demo;" ++ [nl] ++
  $"table AddRequest { a: int32; }" ++ [nl] ++
  $"rpc_service Calculator {" ++ [nl] ++
  $"  Add(AddRequest):AddResponse;" ++ [nl] ++
  $"}" ++ [nl].

(** A program that, of the phases, only renders artifacts. *)
Definition renders_only {A} (p : prog A) : Prop :=
  forallb is_artifact (phases (trace p)) = true.

(** The command line of the schema compiler. *)
Definition flatcc_argv (flatcc_path output schema : str) : list str :=
  [flatcc_path; $"-c"; $"-w"; $"-o"; output; schema].

(** The phases of a run of either generator, by what its world answers: the
    schema is read; then, if the run gets that far, the compiler is called
    with [argv]; artifacts follow only when the compiler ended with 0, and a
    compiler that ended otherwise makes [main] return 1. *)
Definition run_shape (w : World) (p : prog Z) : Prop :=
  exists path,
    phases (trace p) = [EvRead path] \/
    exists argv,
      match w_run w argv with
      | None => phases (trace p) = [EvRead path; EvRun argv]
      | Some (returncode, _) =>
          if (returncode =? 0)%Z then
            exists artifacts,
              phases (trace p) = EvRead path :: EvRun argv :: artifacts /\
              forallb is_artifact artifacts = true
          else
            phases (trace p) = [EvRead path; EvRun argv] /\
            snd p = Returned 1%Z
      end.

(** The rendering block of each [main]: what runs between the line
    [Generating RPC code with Jinja2...] and the line
    [Code generation complete!]. *)
Definition plain_rendering (w : World) (args : Plain.Args) (rpc_data : RpcData)
  : prog unit :=
  let generator :=
    Plain.RPCGenerator_init (Plain.output args) (Plain.templates args) in
  Plain.generate_header w generator rpc_data ;;
  Plain.generate_server_stub w generator rpc_data ;;
  Plain.generate_client_code w generator rpc_data.

Definition bundled_rendering (w : World) (args : Bundled.Args)
  (rpc_data : RpcData) : prog unit :=
  let generator :=
    Bundled.RPCGenerator_init (Bundled.output args) (Bundled.templates args) in
  for_each (services rpc_data) (fun service =>
    if Bundled.is_broadcast service then
      Bundled.generate_broadcast_api w generator rpc_data ;;
      Bundled.generate_broadcast_publisher w generator rpc_data ;;
      Bundled.generate_broadcast_subscriber w generator rpc_data
    else
      Bundled.generate_header w generator rpc_data ;;
      Bundled.generate_common_header w generator rpc_data ;;
      Bundled.generate_server_stub w generator rpc_data ;;
      Bundled.generate_client_code w generator rpc_data ;;
      Bundled.generate_common_code w generator rpc_data).

(** What [main] returns after a rendering block. *)
Definition after_rendering (r : outcome unit) : outcome Z :=
  match r with
  | Returned _ => Returned 0%Z
  | Raised e => Raised e
  | Exited code => Exited code
  end.

(** [t] holds an artifact rendered from [template] for [service] and written
    under [filename]. *)
Definition written_for (t : list event) (service : Service)
  (template filename : str) : Prop :=
  exists ctx dir output_text,
    In (EvArtifact template ctx dir filename output_text) t /\
    c_service ctx = service.

(** [{ns}_{svc}{suffix}], with the namespace and the service name in lower
    case. *)
Definition artifact_name (ns svc suffix : str) : str :=
  lower ns ++ $"_" ++ lower svc ++ suffix.

(** The templates of each mode, with the ending of the file each is written
    to. *)
Definition request_response_templates : list (str * str) :=
  [ ($"api.h.j2", $"_api.h");
    ($"rpc_common.h.j2", $"_rpc_common.h");
    ($"rpc_common.c.j2", $"_rpc_common.c");
    ($"server_stub.c.j2", $"_server_stub.c");
    ($"client.c.j2", $"_client.c") ].

Definition broadcast_templates : list (str * str) :=
  [ ($"broadcast_api.h.j2", $"_api.h");
    ($"broadcast_publisher.c.j2", $"_broadcast_publisher.c");
    ($"broadcast_subscriber.c.j2", $"_broadcast_subscriber.c") ].

(** The templates the plain generator renders. *)
Definition plain_templates : list (str * str) :=
  [ ($"api.h.j2", $"_api.h");
    ($"server_stub.c.j2", $"_server_stub.c");
    ($"client.c.j2", $"_client.c") ].

(** The artifacts of a service: each template with the name of its file. *)
Definition artifacts_of (templates : list (str * str)) (ns svc : str)
  : list (str * str) :=
  map (fun ts => (fst ts, artifact_name ns svc (snd ts))) templates.

(** Every service of the schema has the mode of [service]. *)
Definition same_mode (rpc_data : RpcData) (service : Service) : Prop :=
  forall other,
    In other (services rpc_data) ->
    Bundled.is_broadcast other = Bundled.is_broadcast service.

(** A program that, when it returns, has written for each service of the
    schema the artifacts of [templates] and no other. *)
Definition writes (p : prog unit) (rpc_data : RpcData)
  (templates : list (str * str)) : Prop :=
  snd p = Returned tt ->
  forall service template filename,
    written_for (trace p) service template filename
    <-> In service (services rpc_data) /\
        In (template, filename)
          (artifacts_of templates (namespace rpc_data) (s_name service)).

Definition chat_schema : str :=
  $"namespace Demo;" ++ [nl] ++
  $"rpc_service ChatBroadcast {" ++ [nl] ++
  $"  Post(Message):Ack;" ++ [nl] ++
  $"}" ++ [nl].

Definition mixed_schema : str := chat_schema ++ calculator_schema.

(** The services of the example schemas, as the parser builds them. *)
Definition calculator_service : Service :=
  {| s_name := $"Calculator";
     s_methods :=
       [ {| m_name := $"Add";
            m_return := $"AddResponse";
            m_request := $"AddRequest";
            m_response := $"AddResponse";
            m_request_fields :=
              [ {| f_name := $"a"; f_type := $"int32_t";
                   f_original_type := $"int32"; f_is_array := false |} ] |} ] |}.

Definition chat_service : Service :=
  {| s_name := $"ChatBroadcast";
     s_methods :=
       [ {| m_name := $"Post";
            m_return := $"Ack";
            m_request := $"Message";
            m_response := $"Ack";
            m_request_fields := [] |} ] |}.

(** What the parser of a run on [content] returns. *)
Definition example_data (content : str) : RpcData :=
  parsed_schema (Plain.RPCParser_init (example_world content 0) $"calc.fbs")
    content.

(** Texts for the examples: two namespace statements after a comment; a
    service ahead of two tables of the same name; a text with none of the
    constructs. *)
Definition two_namespaces : str :=
  $"// v" ++ [nl] ++ $"namespace Foo;" ++ [nl] ++ $"namespace Bar;".


Definition no_construct : str := $"}{ table { rpc_service namespace ;".

(** The three places [find_bundled_flatcc] looks at, in its order. *)
Definition bundled_places (bundle_dir : str) : list str :=
  [ Bundled.path_join bundle_dir $"flatcc";
    Bundled.path_join (Bundled.path_join bundle_dir $"bin") $"flatcc";
    Bundled.path_join (Bundled.path_join bundle_dir $"flatcc") $"flatcc" ].

(** A program that never leaves through [sys.exit]. *)
Definition never_exits {A} (p : prog A) : Prop :=
  forall code, snd p <> Exited code.

(** The context [generate_one] renders a template with. *)
Definition render_context (rpc_data : RpcData) (service : Service)
  : RenderContext :=
  {| c_namespace := namespace rpc_data;
     c_schema_basename := schema_basename rpc_data;
     c_service := service;
     c_service_name_lower := lower (s_name service);
     c_service_name_upper := upper (s_name service) |}.

(** Every template of [templates] renders for [service]. *)
Definition renders (w : World) (template_dir : str) (rpc_data : RpcData)
  (templates : list (str * str)) (service : Service) : Prop :=
  forall template suffix,
    In (template, suffix) templates ->
    w_render w template_dir template (render_context rpc_data service) <> None.

(** The templates of the mode of a service. *)
Definition mode_templates (service : Service) : list (str * str) :=
  if Bundled.is_broadcast service then broadcast_templates
  else request_response_templates.

(** A world with no file, no compiler and no template. *)
Definition bare_world : World :=
  {| w_read := fun _ => None; w_stem := fun path => path;
     w_path := fun dir filename => dir ++ $"/" ++ filename;
     w_run := fun _ => None; w_render := fun _ _ _ => None;
     w_meipass := None; w_executable := fun _ => false;
     w_which := fun _ => None |}.

(** A program that returns exactly when every template of [templates]
    renders for every service of the schema. *)
Definition returns_when (w : World) (template_dir : str) (p : prog unit)
  (rpc_data : RpcData) (templates : list (str * str)) : Prop :=
  snd p = Returned tt
  <-> forall service,
        In service (services rpc_data) ->
        renders w template_dir rpc_data templates service.

(** Every artifact of the program satisfies [P]. *)
Definition artifacts_satisfy {A} (P : event -> Prop) (p : prog A) : Prop :=
  forall e, In e (trace p) -> is_artifact e = true -> P e.

(** [e] is the artifact of a service of the schema and of a template of
    [templates]: rendered with the context of the service, written in
    [output_dir] under the name the service and the template give. *)
Definition artifact_from (w : World) (template_dir output_dir : str)
  (rpc_data : RpcData) (templates : list (str * str)) (e : event) : Prop :=
  exists service template suffix output_text,
    In service (services rpc_data) /\
    In (template, suffix) templates /\
    w_render w template_dir template (render_context rpc_data service)
    = Some output_text /\
    e = EvArtifact template (render_context rpc_data service) output_dir
          (artifact_name (namespace rpc_data) (s_name service) suffix)
          output_text.

(** The names of the files a trace writes, in order. *)
Definition written_files (t : list event) : list str :=
  flat_map (fun e => match e with
                     | EvArtifact _ _ _ filename _ => [filename]
                     | _ => []
                     end) t.

(** None of the capital letters [A] to [Z]. *)
Definition lower_case (s : str) : Prop := forallb (fun c => negb (isupper c)) s = true.

(** A schema of three services, and a world in which no template renders for
    the service [B]. *)
Definition three_services : RpcData :=
  {| namespace := $"Demo"; schema_basename := $"demo";
     services := [ {| s_name := $"A"; s_methods := [] |};
                   {| s_name := $"B"; s_methods := [] |};
                   {| s_name := $"C"; s_methods := [] |} ];
     tables := [] |}.

Definition world_failing_for_b : World :=
  {| w_read := fun _ => None; w_stem := fun path => path;
     w_path := fun dir filename => dir ++ $"/" ++ filename;
     w_run := fun _ => None;
     w_render := fun _ _ ctx =>
       if str_eqb (s_name (c_service ctx)) $"B" then None else Some [];
     w_meipass := None; w_executable := fun _ => false;
     w_which := fun _ => None |}.

(** The example world without the server template. *)
Definition world_without_server_template (content : str) : World :=
  {| w_read := fun _ => Some content;
     w_stem := fun path => path;
     w_path := fun dir filename => dir ++ $"/" ++ filename;
     w_run := fun _ => Some (0%Z, []);
     w_render := fun _ template _ =>
       if str_eqb template $"server_stub.c.j2" then None else Some [];
     w_meipass := None;
     w_executable := fun _ => false;
     w_which := fun _ => None |}.

(** A non-empty text of letters, digits and underscores. *)
Definition identifier (s : str) : Prop := s <> [] /\ all isword s.

(** The blocks the parser finds in a text. *)
Definition table_blocks (content : str) : list (str * str) :=
  re_finditer Plain.table_pattern content.

Definition service_blocks (content : str) : list (str * str) :=
  re_finditer Plain.service_pattern content.

(** A field as a table line leaves it: trimming its name again changes
    nothing, its declared type starts with no white space and ends with no
    semicolon, neither holds a colon or a line feed, and its C type and array
    flag are those of the declared type. *)
Definition tidy_field (f : Field) : Prop :=
  strip (f_name f) = f_name f /\
  lstrip (f_original_type f) = f_original_type f /\
  endswith $";" (f_original_type f) = false /\
  (forall c, In c (f_name f) \/ In c (f_original_type f) ->
     c <> ":"%char /\ c <> nl) /\
  (f_type f, f_is_array f) = Plain.map_type (f_original_type f).

(** A lower-case letter, a digit, an underscore or a dot. *)
Definition name_char (c : ascii) : bool :=
  islower c || isdigit c || ascii_eqb c "_" || ascii_eqb c ".".

(** The lines that report the services of a schema. *)
Definition service_report (rpc_data : RpcData) : list event :=
  EvPrint ($"Found " ++ str_of_nat (length (services rpc_data))
           ++ $" services:")
  :: map (fun service =>
            EvPrint ($"  - " ++ s_name service ++ $": "
                     ++ str_of_nat (length (s_methods service))
                     ++ $" methods"))
       (services rpc_data).

(** The last line of a run that went through. *)
Definition done_line : str := nl :: $"Code generation complete!".

(** What a run leaves once the compiler was called: nothing when it could
    not be started, the line of its error when it ended with another status
    than 0, else the rendering between its two lines, the second of which
    needs the rendering to return. *)
Definition after_compiler (result : option (Z * str)) (rendering : prog unit)
  : list event :=
  match result with
  | None => []
  | Some (returncode, stderr) =>
      if (returncode =? 0)%Z then
        EvPrint (nl :: $"Generating RPC code with Jinja2...")
        :: trace rendering
           ++ match snd rendering with
              | Returned _ => [EvPrint done_line]
              | _ => []
              end
      else [EvPrint ($"FlatCC error: " ++ stderr)]
  end.

(** The call of the compiler and what follows it. *)
Definition compile_and_render (w : World) (flatcc_path output schema : str)
  (rendering : prog unit) : list event :=
  EvPrint (nl :: $"Generating FlatBuffers code with flatcc...")
  :: EvRun (flatcc_argv flatcc_path output schema)
  :: after_compiler (w_run w (flatcc_argv flatcc_path output schema)) rendering.

(** The two lines that close a run: the last line of a run that went
    through, and the line that reports the error of the compiler. *)
Definition closing_line (line : str) : bool :=
  str_eqb line done_line || startswith $"FlatCC error: " line.

(** An event of the body of a run: any but the creation of a directory and
    a closing line. *)
Definition body_event (e : event) : bool :=
  match e with
  | EvMkdir _ => false
  | EvPrint line => negb (closing_line line)
  | _ => true
  end.

Definition body_only {A} (p : prog A) : Prop :=
  forallb body_event (trace p) = true.

(** How the end of the trace goes with the outcome: the last line after the
    value 0, the error of the compiler after the value 1, nothing after an
    exception or an exit. *)
Definition ending_of (o : outcome Z) (ending : list event) : Prop :=
  (o = Returned 0%Z /\ ending = [EvPrint done_line]) \/
  (o = Returned 1%Z /\
   exists stderr, ending = [EvPrint ($"FlatCC error: " ++ stderr)]) \/
  (((exists e, o = Raised e) \/ o = Exited 1%Z) /\ ending = []).

(** The writes of a trace, in order: the template and the name of the file
    of each artifact. *)
Definition writes_of (t : list event) : list (str * str) :=
  flat_map (fun e => match e with
                     | EvArtifact template _ _ filename _ =>
                         [(template, filename)]
                     | _ => []
                     end) t.

(** One generating method: its template written for each service in turn. *)
Definition writes_for (rpc_data : RpcData) (ts : str * str)
  : list (str * str) :=
  map (fun service =>
         (fst ts,
          artifact_name (namespace rpc_data) (s_name service) (snd ts)))
    (services rpc_data).

(** The generating methods of [templates], one after the other. *)
Definition pass (rpc_data : RpcData) (templates : list (str * str))
  : list (str * str) :=
  flat_map (writes_for rpc_data) templates.

(** The templates of each branch of the loop of [main], in the order of its
    calls. *)
Definition request_response_order : list (str * str) :=
  [ ($"api.h.j2", $"_api.h");
    ($"rpc_common.h.j2", $"_rpc_common.h");
    ($"server_stub.c.j2", $"_server_stub.c");
    ($"client.c.j2", $"_client.c");
    ($"rpc_common.c.j2", $"_rpc_common.c") ].

Definition mode_order (service : Service) : list (str * str) :=
  if Bundled.is_broadcast service then broadcast_templates
  else request_response_order.

(** A program that, when it returns, has made the writes [l]. *)
Definition writes_when_done (p : prog unit) (l : list (str * str)) : Prop :=
  snd p = Returned tt -> writes_of (trace p) = l.

(** The template the file [filename] was last written from. *)
Definition last_writer (writes : list (str * str)) (filename : str)
  : option str :=
  option_map fst (find (fun tf => str_eqb (snd tf) filename) (rev writes)).

(** The reading of a method line by the words of the specification: the
    trimmed line is the signature, optionally followed by a semicolon, and
    nothing else. *)
Definition ends_statement (rest : str) : bool :=
  str_eqb (strip rest) [] || str_eqb (strip rest) $";".

Definition line_methods_whole_line (tables : dict (list Field)) (line : str)
  : list Method :=
  if skipped line then []
  else
    match Plain.method_pattern (strip line) with
    | Some ((name, request, response), rest) =>
        if ends_statement rest then
          [ {| m_name := name;
               m_return := response;
               m_request := request;
               m_response := response;
               m_request_fields := dict_get tables request [] |} ]
        else []
    | None => []
    end.

(** A service body for the examples: a method, a comment that holds one, a
    blank line and a line that is no method. *)
Definition method_lines_example : str :=
  $"  Add( Req ) : Resp;" ++ [nl] ++
  $"  // Sub(Req):Resp;" ++ [nl] ++
  $"   " ++ [nl] ++
  $"  Mul Req Resp".

(** The characters that separate the steps of a path: the slash and the
    backslash. *)
Definition path_separator (c : ascii) : bool :=
  ascii_eqb c "/" || ascii_eqb c (ascii_of_nat 92).

(** * Properties *)

(** ** Text *)

Lemma ascii_eqb_true (a b : ascii) : ascii_eqb a b = true <-> a = b.
Proof. apply Ascii.eqb_eq. Qed.

Lemma ascii_eqb_refl (a : ascii) : ascii_eqb a a = true.
Proof. now apply ascii_eqb_true. Qed.

Lemma ascii_eqb_false (a b : ascii) : ascii_eqb a b = false <-> a <> b.
Proof. apply Ascii.eqb_neq. Qed.

Lemma str_eqb_true (a b : str) : str_eqb a b = true <-> a = b.
Proof.
  revert b; induction a as [|x a IH]; intros [|y b]; simpl;
    try (split; [discriminate|discriminate]); try tauto.
  rewrite andb_true_iff, ascii_eqb_true, IH.
  split; [intros [-> ->]; reflexivity | intros [= -> ->]; auto].
Qed.

Lemma str_eqb_refl (a : str) : str_eqb a a = true.
Proof. now apply str_eqb_true. Qed.

Lemma str_eqb_false (a b : str) : str_eqb a b = false <-> a <> b.
Proof.
  rewrite <- str_eqb_true. destruct (str_eqb a b); split; congruence.
Qed.

Lemma space_not_word (c : ascii) : isspace c = true -> isword c = false.
Proof.
  destruct c as [[] [] [] [] [] [] [] []]; vm_compute; congruence.
Qed.

Lemma word_not_space (c : ascii) : isword c = true -> isspace c = false.
Proof.
  destruct c as [[] [] [] [] [] [] [] []]; vm_compute; congruence.
Qed.

Lemma all_nil (p : ascii -> bool) : all p [].
Proof. reflexivity. Qed.

Lemma all_cons (p : ascii -> bool) c s : all p (c :: s) <-> p c = true /\ all p s.
Proof. unfold all; simpl. apply andb_true_iff. Qed.

Lemma all_app (p : ascii -> bool) a b : all p (a ++ b) <-> all p a /\ all p b.
Proof. unfold all. rewrite forallb_app. apply andb_true_iff. Qed.

Lemma stops_after (p q : ascii -> bool) (a r : str) :
  (forall c, q c = true -> p c = false) ->
  a <> [] -> all q a -> stops p (a ++ r).
Proof.
  intros Hpq Ha Hq. destruct a as [|c a]; [congruence|].
  simpl. apply Hpq. now apply all_cons in Hq.
Qed.

(** ** The pieces of a pattern *)

Lemma lit_Some (l s r : str) : lit l s = Some r <-> s = l ++ r.
Proof.
  revert s; induction l as [|x l IH]; intros s; simpl.
  - split; [intros [= ->]; reflexivity | intros ->; reflexivity].
  - destruct s as [|c s]; [split; discriminate|].
    destruct (ascii_eqb x c) eqn:E.
    + apply ascii_eqb_true in E; subst c. rewrite IH.
      split; [intros ->; reflexivity | intros [= ->]; reflexivity].
    + apply ascii_eqb_false in E. split; [discriminate|].
      intros [= -> _]. congruence.
Qed.

Lemma span_spec (p : ascii -> bool) (s a r : str) :
  span p s = (a, r) <-> s = a ++ r /\ all p a /\ stops p r.
Proof.
  revert a r; induction s as [|c s IH]; intros a r; simpl.
  - split.
    + intros [= <- <-]. repeat split.
    + intros (H & _ & _). symmetry in H. apply app_eq_nil in H.
      destruct H as [-> ->]. reflexivity.
  - destruct (p c) eqn:Hc.
    + destruct (span p s) as [a' r'] eqn:E.
      specialize (IH a' r'). destruct IH as [IH1 IH2].
      destruct (IH1 eq_refl) as (-> & Ha' & Hr').
      split.
      * intros [= <- <-]. repeat split; auto. apply all_cons. auto.
      * intros (H & Ha & Hr). destruct a as [|x a].
        { simpl in H. subst r. simpl in Hr. congruence. }
        simpl in H. injection H as <- H. apply all_cons in Ha.
        destruct Ha as [_ Ha].
        assert (E' : span p (a' ++ r') = (a, r)).
        { rewrite H. clear -Ha Hr. induction a as [|y a IHa]; simpl.
          - destruct r as [|z r]; simpl in *; [reflexivity|].
            now rewrite Hr.
          - apply all_cons in Ha. destruct Ha as [Hy Ha].
            rewrite Hy, (IHa Ha). reflexivity. }
        rewrite E in E'. injection E' as -> ->. reflexivity.
    + split.
      * intros [= <- <-]. repeat split. simpl. exact Hc.
      * intros (H & Ha & Hr). destruct a as [|x a].
        { simpl in H. subst r. reflexivity. }
        simpl in H. injection H as <- _. apply all_cons in Ha.
        destruct Ha as [Ha _]. congruence.
Qed.

Lemma plus_Some (p : ascii -> bool) (s a r : str) :
  plus p s = Some (a, r) <-> s = a ++ r /\ a <> [] /\ all p a /\ stops p r.
Proof.
  unfold plus. destruct (span p s) as [a' r'] eqn:E.
  apply span_spec in E. destruct E as (-> & Ha' & Hr').
  split.
  - destruct a' as [|c a']; [discriminate|].
    intros [= <- <-]. repeat split; auto. discriminate.
  - intros (H & Hne & Ha & Hr).
    assert (E : span p (a' ++ r') = (a, r))
      by (apply span_spec; repeat split; auto).
    assert (E' : span p (a' ++ r') = (a', r'))
      by (apply span_spec; repeat split; auto).
    rewrite E in E'. injection E' as <- <-.
    destruct a; [congruence | reflexivity].
Qed.

Lemma star_Some (p : ascii -> bool) (s r : str) :
  star p s = Some r <-> exists a, s = a ++ r /\ all p a /\ stops p r.
Proof.
  unfold star. destruct (span p s) as [a' r'] eqn:E. simpl.
  split.
  - intros [= <-]. exists a'. now apply span_spec.
  - intros (a & H). apply span_spec in H. rewrite E in H.
    injection H as _ ->. reflexivity.
Qed.

Lemma lit_app (l r : str) : lit l (l ++ r) = Some r.
Proof. now apply lit_Some. Qed.

Lemma plus_app (p : ascii -> bool) (a r : str) :
  a <> [] -> all p a -> stops p r -> plus p (a ++ r) = Some (a, r).
Proof. intros. apply plus_Some. auto. Qed.

Lemma star_app (p : ascii -> bool) (a r : str) :
  all p a -> stops p r -> star p (a ++ r) = Some r.
Proof. intros. apply star_Some. exists a. auto. Qed.

Lemma stops_space_word (a r : str) :
  a <> [] -> all isword a -> stops isspace (a ++ r).
Proof. apply stops_after. apply word_not_space. Qed.

Ltac side :=
  solve [ assumption | reflexivity | apply stops_space_word; assumption ].

Ltac open_pattern :=
  repeat match goal with
  | |- context [lit ?l ?s] =>
      let E := fresh "E" in
      destruct (lit l s) as [?s|] eqn:E;
      [apply lit_Some in E; subst s | discriminate]
  | |- context [plus ?p ?s] =>
      let E := fresh "E" in
      destruct (plus p s) as [[?g ?s]|] eqn:E;
      [apply plus_Some in E; destruct E as (-> & ? & ? & ?) | discriminate]
  | |- context [star ?p ?s] =>
      let E := fresh "E" in
      destruct (star p s) as [?s|] eqn:E;
      [apply star_Some in E; destruct E as (?ws & -> & ? & ?) | discriminate]
  end.

(** ** The patterns of the parser *)

Lemma namespace_pattern_spec (s id rest : str) :
  Plain.namespace_pattern s = Some (id, rest) <-> namespace_statement s id rest.
Proof.
  unfold Plain.namespace_pattern, namespace_statement.
  cbn [bind ret option_monad]. split.
  - open_pattern. intros [= <- <-]. eexists. split; [reflexivity|]. auto.
  - intros (ws & -> & Hws & Hs & Hid & Hw).
    rewrite lit_app, plus_app by side.
    rewrite plus_app by side.
    rewrite lit_app. reflexivity.
Qed.

Lemma stops_space_brace (r : str) : stops isspace ($"{" ++ r).
Proof. reflexivity. Qed.

Lemma block_shape (keyword s : str) (g : str * str) (rest : str) :
  (s1 <- lit keyword s ;;
   '(_, s2) <- plus isspace s1 ;;
   '(g1, s3) <- plus isword s2 ;;
   s4 <- star isspace s3 ;;
   s5 <- lit $"{" s4 ;;
   '(g2, s6) <- plus (not_char "}") s5 ;;
   s7 <- lit $"}" s6 ;;
   ret ((g1, g2), s7)) = Some (g, rest)
  <-> block keyword s (fst g) (snd g) rest.
Proof.
  unfold block. cbn [bind ret option_monad]. split.
  - open_pattern. intros [= <- <-]. cbn [fst snd].
    do 2 eexists. split; [reflexivity|]. repeat split; auto.
  - destruct g as [name body]. cbn [fst snd].
    intros (ws1 & ws2 & -> & H1 & H2 & H3 & H4 & H5 & H6 & H7).
    rewrite lit_app, plus_app by side.
    assert (Hstop : stops isword (ws2 ++ $"{" ++ body ++ $"}" ++ rest)).
    { destruct ws2 as [|c ws2]; [reflexivity|].
      simpl. apply space_not_word. now apply all_cons in H5. }
    rewrite plus_app by side.
    rewrite star_app by side.
    rewrite lit_app, plus_app by side.
    rewrite lit_app. reflexivity.
Qed.

Lemma table_pattern_spec (s name body rest : str) :
  Plain.table_pattern s = Some ((name, body), rest)
  <-> block $"table" s name body rest.
Proof. apply (block_shape $"table" s (name, body) rest). Qed.

Lemma service_pattern_spec (s name body rest : str) :
  Plain.service_pattern s = Some ((name, body), rest)
  <-> block $"rpc_service" s name body rest.
Proof. apply (block_shape $"rpc_service" s (name, body) rest). Qed.

(** ** Searching *)

Lemma re_search_first {G} (pat : pattern G) (s : str) (i : nat) g rest :
  pat (skipn i s) = Some (g, rest) ->
  (forall j, j < i -> pat (skipn j s) = None) ->
  re_search pat s = Some g.
Proof.
  revert s; induction i as [|i IH]; intros s Hi Hbefore.
  - simpl in Hi. destruct s; simpl; now rewrite Hi.
  - assert (H0 : pat s = None) by (apply (Hbefore 0); lia).
    destruct s as [|c s].
    + simpl in Hi. congruence.
    + simpl. rewrite H0. apply IH; [exact Hi|].
      intros j Hj. apply (Hbefore (S j)). lia.
Qed.

Lemma re_search_None {G} (pat : pattern G) (s : str) :
  re_search pat s = None <-> forall i, pat (skipn i s) = None.
Proof.
  induction s as [|c s IH]; simpl.
  - destruct (pat []) as [[g r]|] eqn:E.
    + split; [discriminate|]. intros H. specialize (H 0). simpl in H.
      congruence.
    + split; [|reflexivity]. intros _ [|i]; exact E.
  - destruct (pat (c :: s)) as [[g r]|] eqn:E.
    + split; [discriminate|]. intros H. specialize (H 0). simpl in H.
      congruence.
    + rewrite IH. split.
      * intros H [|i]; [exact E | apply H].
      * intros H i. apply (H (S i)).
Qed.

Lemma finditer_nil {G} (pat : pattern G) (s : str) :
  re_finditer pat s = [] <-> forall i, pat (skipn i s) = None.
Proof.
  unfold re_finditer. induction s as [|c s IH]; simpl.
  - destruct (pat []) as [[g r]|] eqn:E.
    + split; [discriminate|]. intros H. specialize (H 0). simpl in H.
      congruence.
    + split; [|reflexivity]. intros _ [|i]; exact E.
  - destruct (pat (c :: s)) as [[g r]|] eqn:E.
    + split; [discriminate|]. intros H. specialize (H 0). simpl in H.
      congruence.
    + rewrite IH. split.
      * intros H [|i]; [exact E | apply H].
      * intros H i. apply (H (S i)).
Qed.

(** ** Loops *)

Lemma for_acc_pure {A St} (body : St -> A -> outcome St) (f : St -> A -> St) :
  (forall acc x, body acc x = Returned (f acc x)) ->
  forall xs acc, for_acc body xs acc = Returned (fold_left f xs acc).
Proof.
  intros Hbody xs. induction xs as [|x xs IH]; intros acc; simpl.
  - reflexivity.
  - rewrite Hbody. apply IH.
Qed.

Lemma fold_left_append {A B} (g : A -> list B) (xs : list A) (acc : list B) :
  fold_left (fun acc x => acc ++ g x) xs acc = acc ++ flat_map g xs.
Proof.
  revert acc; induction xs as [|x xs IH]; intros acc; simpl.
  - now rewrite app_nil_r.
  - rewrite IH. now rewrite app_assoc.
Qed.

(** ** Splitting a line at its colons *)

Lemma split_length (ch : ascii) (s : str) :
  length (split ch s) = S (count_occ ascii_dec s ch).
Proof.
  induction s as [|c s IH]; simpl; [reflexivity|].
  destruct (ascii_eqb c ch) eqn:E.
  - apply ascii_eqb_true in E. subst c.
    destruct (ascii_dec ch ch); [|congruence]. simpl. now rewrite IH.
  - apply ascii_eqb_false in E.
    destruct (ascii_dec c ch); [congruence|].
    destruct (split ch s); simpl in *; [discriminate | exact IH].
Qed.

Lemma split_none (ch : ascii) (s : str) :
  count_occ ascii_dec s ch = 0 -> split ch s = [s].
Proof.
  induction s as [|c s IH]; simpl; [reflexivity|].
  destruct (ascii_dec c ch) as [->|N]; [discriminate|].
  apply ascii_eqb_false in N. rewrite N. intros H. now rewrite (IH H).
Qed.

Lemma split_once (ch : ascii) (s : str) :
  count_occ ascii_dec s ch = 1 ->
  split ch s = [before_first ch s; after_first ch s].
Proof.
  unfold before_first, after_first.
  induction s as [|c s IH]; simpl; [discriminate|].
  unfold not_char at 1 3.
  destruct (ascii_dec c ch) as [->|N].
  - intros [= H]. rewrite ascii_eqb_refl. simpl.
    now rewrite (split_none _ _ H).
  - intros H. apply ascii_eqb_false in N. rewrite N. simpl.
    rewrite (IH H). destruct (span (not_char ch) s). reflexivity.
Qed.

(** ** The loops of the parser *)

Lemma parse_fields_line_eq (fields : list Field) (line : str) :
  Plain._parse_fields_line fields line = Returned (fields ++ line_fields line).
Proof.
  unfold Plain._parse_fields_line, line_fields, skipped.
  destruct (str_eqb (strip line) [] || startswith $"//" (strip line)).
  - now rewrite app_nil_r.
  - rewrite split_length. fold (colons (strip line)).
    change (S (colons (strip line)) =? 2) with (colons (strip line) =? 1).
    destruct (colons (strip line) =? 1) eqn:E.
    + apply Nat.eqb_eq in E. unfold colons in E.
      rewrite (split_once _ _ E). unfold index. simpl.
      unfold make_field.
      destruct (Plain.map_type _) as [c_type is_array]. reflexivity.
    + now rewrite app_nil_r.
Qed.

Lemma parse_fields_eq (fields_str : str) :
  Plain._parse_fields fields_str = Returned (body_fields fields_str).
Proof.
  unfold Plain._parse_fields, body_fields.
  rewrite (for_acc_pure _ (fun acc x => acc ++ line_fields x)).
  - now rewrite fold_left_append.
  - apply parse_fields_line_eq.
Qed.

Lemma parse_methods_line_eq (self : RPCParser) (methods : list Method)
  (line : str) :
  Plain._parse_methods_line self methods line
  = Returned (methods ++ line_methods (p_tables self) line).
Proof.
  unfold Plain._parse_methods_line, line_methods, skipped, re_match.
  destruct (str_eqb (strip line) [] || startswith $"//" (strip line)).
  - now rewrite app_nil_r.
  - destruct (Plain.method_pattern (strip line)) as [[[[n rq] rt] rest]|];
      simpl; [reflexivity | now rewrite app_nil_r].
Qed.

Lemma parse_methods_eq (self : RPCParser) (methods_str : str) :
  Plain._parse_methods self methods_str
  = Returned (body_methods (p_tables self) methods_str).
Proof.
  unfold Plain._parse_methods, body_methods.
  rewrite (for_acc_pure _ (fun acc x => acc ++ line_methods (p_tables self) x)).
  - now rewrite fold_left_append.
  - apply parse_methods_line_eq.
Qed.

Lemma bind_returned {A B} (a : A) (k : A -> outcome B) :
  bind (Returned a) k = k a.
Proof. reflexivity. Qed.

Lemma set_tables_same (self : RPCParser) : set_tables self (p_tables self) = self.
Proof. now destruct self. Qed.

Lemma tables_loop (blocks : list (str * str)) (self : RPCParser) :
  for_acc
    (fun self '(table_name, fields_str) =>
       fields <- Plain._parse_fields fields_str ;;
       ret (set_tables self (dict_set (p_tables self) table_name fields)))
    blocks self
  = Returned (set_tables self (collect_tables blocks (p_tables self))).
Proof.
  revert self; induction blocks as [|[name body] blocks IH]; intros self.
  - simpl. now rewrite set_tables_same.
  - cbn [for_acc bind outcome_monad ret]. rewrite parse_fields_eq.
    cbn [bind outcome_monad ret]. apply IH.
Qed.

Lemma services_loop (blocks : list (str * str)) (self : RPCParser) :
  for_acc
    (fun self '(service_name, methods_str) =>
       methods <- Plain._parse_methods self methods_str ;;
       ret (set_services self
              (p_services self ++
               [ {| s_name := service_name; s_methods := methods |} ])))
    blocks self
  = Returned (set_services self
                (p_services self ++ collect_services (p_tables self) blocks)).
Proof.
  revert self; induction blocks as [|[name body] blocks IH]; intros self.
  - simpl. rewrite app_nil_r. now destruct self.
  - cbn [for_acc bind outcome_monad ret]. rewrite parse_methods_eq.
    cbn [bind outcome_monad ret]. etransitivity; [apply IH|].
    simpl. now rewrite <- app_assoc.
Qed.

(** [parse] returns for every text, and what it returns is [parsed_schema]. *)
Lemma parse_content_eq (self : RPCParser) (content : str) :
  Plain.parse_content self content = Returned (parsed_schema self content).
Proof.
  unfold Plain.parse_content, parsed_schema.
  rewrite tables_loop, bind_returned, services_loop, bind_returned.
  destruct (re_search Plain.namespace_pattern content); reflexivity.
Qed.

(** ** The namespace *)

Lemma namespace_found (content : str) (i : nat) (id : str) :
  namespace_statement_at content i id ->
  (forall j id', j < i -> ~ namespace_statement_at content j id') ->
  re_search Plain.namespace_pattern content = Some id.
Proof.
  intros [rest Hi] Hfirst.
  apply namespace_pattern_spec in Hi.
  apply re_search_first with (i := i) (rest := rest); [exact Hi|].
  intros j Hj.
  destruct (Plain.namespace_pattern (skipn j content)) as [[id' rest']|] eqn:E;
    [|reflexivity].
  exfalso. apply (Hfirst j id' Hj). exists rest'.
  now apply namespace_pattern_spec.
Qed.

Lemma namespace_absent (content : str) :
  (forall i id, ~ namespace_statement_at content i id) ->
  re_search Plain.namespace_pattern content = None.
Proof.
  intros Hnone. apply re_search_None. intros i.
  destruct (Plain.namespace_pattern (skipn i content)) as [[id rest]|] eqn:E;
    [|reflexivity].
  exfalso. apply (Hnone i id). exists rest. now apply namespace_pattern_spec.
Qed.

(** C7: for every schema text the parser returns, and the namespace it
    returns is the identifier of the leftmost [namespace <identifier>;]
    statement of the text (later statements are ignored), or the empty string
    when the text holds no such statement. *)
Theorem namespace_first_match_wins (w : World) (schema_file content : str) :
  exists data,
    Plain.parse_content (Plain.RPCParser_init w schema_file) content
    = Returned data /\
    (forall i id,
       namespace_statement_at content i id ->
       (forall j id', j < i -> ~ namespace_statement_at content j id') ->
       namespace data = id) /\
    ((forall i id, ~ namespace_statement_at content i id) ->
     namespace data = []).
Proof.
  eexists. split; [apply parse_content_eq|]. simpl. split.
  - intros i id Hi Hfirst. now rewrite (namespace_found Hi Hfirst).
  - intros Hnone. now rewrite (namespace_absent Hnone).
Qed.

(** ** Totality *)

Lemma blocks_absent (keyword content : str) (pat : pattern (str * str)) :
  (forall s name body rest,
     pat s = Some ((name, body), rest) -> block keyword s name body rest) ->
  (forall i, ~ block_at keyword content i) ->
  re_finditer pat content = [].
Proof.
  intros Hpat Hnone. apply finditer_nil. intros i.
  destruct (pat (skipn i content)) as [[[name body] rest]|] eqn:E;
    [|reflexivity].
  exfalso. apply (Hnone i). exists name, body, rest. now apply Hpat.
Qed.

(** C9: the parser returns a schema for every text, whatever it holds; a
    text without a namespace statement gives the empty namespace, a text
    without a table block the empty table map, a text without a service block
    the empty service list. *)
Theorem parse_never_raises (w : World) (schema_file content : str) :
  exists data,
    Plain.parse_content (Plain.RPCParser_init w schema_file) content
    = Returned data /\
    ((forall i id, ~ namespace_statement_at content i id) ->
     namespace data = []) /\
    ((forall i, ~ block_at $"table" content i) -> tables data = []) /\
    ((forall i, ~ block_at $"rpc_service" content i) -> services data = []).
Proof.
  eexists. split; [apply parse_content_eq|]. simpl. repeat split.
  - intros Hnone. now rewrite (namespace_absent Hnone).
  - intros Hnone.
    rewrite (@blocks_absent $"table" content Plain.table_pattern); auto.
    intros s name body rest. apply table_pattern_spec.
  - intros Hnone.
    rewrite (@blocks_absent $"rpc_service" content Plain.service_pattern);
      auto.
    intros s name body rest. apply service_pattern_spec.
Qed.

(** ** Tables and request fields *)


Lemma find_append {A} (f : A -> bool) (xs ys : list A) :
  find f (xs ++ ys)
  = match find f xs with Some x => Some x | None => find f ys end.
Proof.
  induction xs as [|x xs IH]; simpl; [reflexivity|].
  destruct (f x); [reflexivity | exact IH].
Qed.


Lemma line_methods_fields (tables : dict (list Field)) (line : str)
  (method : Method) :
  In method (line_methods tables line) ->
  m_request_fields method = dict_get tables (m_request method) [] /\
  m_response method = m_return method.
Proof.
  unfold line_methods. destruct (skipped line); [contradiction|].
  destruct (Plain.method_pattern _) as [[[[n rq] rt] rest]|]; [|contradiction].
  intros [<-|[]]. split; reflexivity.
Qed.


(** ** Table lines *)

Lemma colons_none (s : str) : colons s = 0 -> all (not_char ":") s.
Proof.
  unfold colons. induction s as [|c s IH]; simpl; [reflexivity|].
  destruct (ascii_dec c ":") as [->|N]; [discriminate|].
  intros H. apply all_cons. split; [|now apply IH].
  unfold not_char. apply ascii_eqb_false in N. now rewrite N.
Qed.

Lemma colons_app (a b : str) : colons (a ++ b) = colons a + colons b.
Proof. apply count_occ_app. Qed.

Lemma one_colon_line (line name declared : str) :
  skipped line = false ->
  strip line = name ++ $":" ++ declared ->
  colons name = 0 -> colons declared = 0 ->
  line_fields line
  = [ make_field (strip name) (rstrip_char ";" (strip declared)) ].
Proof.
  intros Hskip Hline Hname Hdecl. unfold line_fields.
  rewrite Hskip, Hline.
  assert (Hspan : span (not_char ":") (name ++ $":" ++ declared)
                  = (name, $":" ++ declared)).
  { apply span_spec. repeat split. now apply colons_none. }
  unfold before_first, after_first. rewrite Hspan.
  rewrite colons_app, Hname. simpl.
  fold (colons declared). now rewrite Hdecl.
Qed.

(** C5, as the code has it: the fields of a table body are what its lines
    contribute, in the order of the lines.  A line that, once trimmed, is
    empty or starts with [//] contributes nothing; so does a line that does
    not hold exactly one colon (none, or more than one).  A line [name:type]
    with its one colon contributes one field: the trimmed name, and the
    trimmed type without its trailing semicolons, run through the type
    mapping. *)
Theorem fields_of_one_colon_lines (body : str) :
  Plain._parse_fields body = Returned (flat_map line_fields (split nl body)) /\
  (forall line, skipped line = true -> line_fields line = []) /\
  (forall line, colons (strip line) <> 1 -> line_fields line = []) /\
  (forall line name declared,
     skipped line = false ->
     strip line = name ++ $":" ++ declared ->
     colons name = 0 -> colons declared = 0 ->
     line_fields line
     = [ {| f_name := strip name;
            f_type := fst (Plain.map_type (rstrip_char ";" (strip declared)));
            f_original_type := rstrip_char ";" (strip declared);
            f_is_array :=
              snd (Plain.map_type (rstrip_char ";" (strip declared))) |} ]).
Proof.
  split; [apply parse_fields_eq|]. split; [|split].
  - intros line H. unfold line_fields. now rewrite H.
  - intros line H. unfold line_fields. destruct (skipped line); [reflexivity|].
    apply Nat.eqb_neq in H. now rewrite H.
  - intros line name declared. apply one_colon_line.
Qed.

(** C5, as it is stated, fails: the line [x: int32 (id: 0);] is not blank,
    is no comment and holds a colon, so splitting it at its first colon gives
    the field [x] of type [int32 (id: 0)]; the code, which wants exactly one
    colon, drops the line. *)
Lemma second_colon_drops_the_field :
  skipped $"x: int32 (id: 0);" = false /\
  colons (strip $"x: int32 (id: 0);") = 2 /\
  flat_map line_fields_first_colon (split nl $"x: int32 (id: 0);")
  = [ make_field $"x" $"int32 (id: 0)" ] /\
  Plain._parse_fields $"x: int32 (id: 0);" = Returned [].
Proof. repeat split. Qed.

(** ** The type mapping *)

Lemma startswith_one (x : ascii) (s : str) :
  startswith [x] s = true <-> exists s', s = x :: s'.
Proof.
  destruct s as [|c s]; simpl.
  - split; [discriminate | intros [s' H]; discriminate].
  - rewrite andb_true_r. change (Ascii.eqb x c) with (ascii_eqb x c).
    rewrite ascii_eqb_true. split.
    + intros ->. now exists s.
    + intros [s' [= -> _]]. reflexivity.
Qed.

Lemma enclosed_spec (token : str) :
  enclosed token = true <-> exists inner, token = $"[" ++ inner ++ $"]".
Proof.
  unfold enclosed, endswith.
  change $"[" with ["["%char]. change $"]" with ["]"%char]. split.
  - intros H. apply andb_true_iff in H. destruct H as [H1 H2].
    change (rev ["]"%char]) with ["]"%char] in H2.
    apply startswith_one in H1, H2.
    destruct H1 as [t ->]. destruct H2 as [r E].
    apply (f_equal (@rev ascii)) in E. rewrite rev_involutive in E.
    simpl in E. destruct (rev r) as [|x inner] eqn:Er.
    + discriminate.
    + simpl in E. injection E as <- ->. exists inner. reflexivity.
  - intros [inner ->]. apply andb_true_iff. split.
    + apply startswith_one. eexists. reflexivity.
    + change (rev ["]"%char]) with ["]"%char]. apply startswith_one.
      simpl. rewrite rev_app_distr. simpl. eexists. reflexivity.
Qed.

Lemma slice_enclosed (inner : str) : slice_1_m1 ($"[" ++ inner ++ $"]") = inner.
Proof. unfold slice_1_m1. simpl. apply removelast_last. Qed.

Lemma dict_get_absent {V} (d : dict V) (k : str) (default : V) :
  ~ In k (map fst d) -> dict_get d k default = default.
Proof.
  induction d as [|[k' v'] d IH]; simpl; [reflexivity|].
  intros H. destruct (str_eqb k' k) eqn:E.
  - apply str_eqb_true in E. tauto.
  - apply IH. tauto.
Qed.

Lemma map_type_eq (token : str) :
  Plain.map_type token
  = if enclosed token
    then (dict_get Plain.type_mapping (slice_1_m1 token) (slice_1_m1 token),
          true)
    else (dict_get Plain.type_mapping token token, false).
Proof. reflexivity. Qed.

Lemma rec_not_enclosed (fuel : nat) (token : str) :
  enclosed token = false ->
  type_mapper_rec fuel token = (dict_get Plain.type_mapping token token, false).
Proof.
  intros H. destruct fuel; cbn [type_mapper_rec]; [reflexivity|].
  now rewrite H.
Qed.

(** C4, as the code has it: the type mapping is a function of the declared
    type.  For a token between brackets the array flag is set and the
    resolved type is the image of the inner token in the lookup table, looked
    up once, brackets of the inner token being left alone; for any other
    token the flag is not set and the resolved type is the image of the token.
    The table maps the ten primitive names as listed, and a token outside it
    is its own image.  This is the recursive mapper whenever the inner token
    is not itself between brackets. *)
Theorem type_mapping_looks_up_once (token : str) :
  (forall inner, token = $"[" ++ inner ++ $"]" ->
     Plain.map_type token = (dict_get Plain.type_mapping inner inner, true)) /\
  ((forall inner, token <> $"[" ++ inner ++ $"]") ->
     Plain.map_type token = (dict_get Plain.type_mapping token token, false)) /\
  map (fun k => dict_get Plain.type_mapping k k) primitive_types
  = [ $"int32_t"; $"int64_t"; $"uint32_t"; $"uint64_t"; $"float"; $"double";
      $"bool"; $"const char*"; $"uint8_t"; $"int8_t" ] /\
  (~ In token primitive_types ->
     dict_get Plain.type_mapping token token = token) /\
  (forall inner, token = $"[" ++ inner ++ $"]" -> enclosed inner = false ->
     Plain.map_type token = type_mapper_recursive token) /\
  (enclosed token = false ->
     Plain.map_type token = type_mapper_recursive token).
Proof.
  split; [|split; [|split; [|split; [|split]]]].
  - intros inner ->. rewrite map_type_eq, slice_enclosed.
    now rewrite (proj2 (enclosed_spec _) (ex_intro _ inner eq_refl)).
  - intros H. rewrite map_type_eq.
    destruct (enclosed token) eqn:E; [|reflexivity].
    apply enclosed_spec in E. destruct E as [inner E]. now apply H in E.
  - reflexivity.
  - intros H. apply dict_get_absent. exact H.
  - intros inner -> Hinner. unfold type_mapper_recursive.
    change (length ($"[" ++ inner ++ $"]"))
      with (S (length (inner ++ $"]"))).
    cbn [type_mapper_rec]. rewrite map_type_eq, slice_enclosed.
    rewrite (proj2 (enclosed_spec _) (ex_intro _ inner eq_refl)).
    now rewrite (rec_not_enclosed _ _ Hinner).
  - intros H. unfold type_mapper_recursive.
    rewrite map_type_eq, (rec_not_enclosed _ _ H). now rewrite H.
Qed.

(** C4, as it is stated, fails: recursing on the inner token of [[[ubyte]]]
    resolves it to [uint8_t]; the code looks the inner token [[ubyte]] up
    once, does not find it and passes it through. *)
Lemma nested_array_is_not_resolved :
  Plain.map_type $"[[ubyte]]" = ($"[ubyte]", true) /\
  type_mapper_recursive $"[[ubyte]]" = ($"uint8_t", true) /\
  Plain.map_type $"[[ubyte]]" <> type_mapper_recursive $"[[ubyte]]".
Proof. repeat split. discriminate. Qed.

(** ** Method lines *)

Lemma stops_word_space (ws r : str) (c : ascii) :
  isword c = false -> all isspace ws -> stops isword (ws ++ c :: r).
Proof.
  intros Hc Hws. destruct ws as [|x ws]; simpl; [exact Hc|].
  apply space_not_word. now apply all_cons in Hws.
Qed.

Lemma method_pattern_spec (s name request response rest : str) :
  Plain.method_pattern s = Some ((name, request, response), rest)
  <-> method_signature s name request response rest /\ stops isword rest.
Proof.
  unfold Plain.method_pattern, method_signature.
  cbn [bind ret option_monad]. split.
  - open_pattern. intros [= <- <- <- <-]. split; [|assumption].
    do 5 eexists. split; [reflexivity|]. repeat split; auto.
  - intros ((ws1 & ws2 & ws3 & ws4 & ws5 & -> & H1 & H2 & H3 & H4 & H5
             & Hn & Hnw & Hq & Hqw & Hr & Hrw) & Hstop).
    rewrite plus_app; [|assumption|assumption|now apply stops_word_space].
    rewrite star_app by side. rewrite lit_app.
    rewrite star_app by side.
    rewrite plus_app; [|assumption|assumption|now apply stops_word_space].
    rewrite star_app by side. rewrite lit_app.
    rewrite star_app by side. rewrite lit_app.
    rewrite star_app by side.
    rewrite plus_app by side. reflexivity.
Qed.

Lemma signature_extends (s name request response rest : str) :
  method_signature s name request response rest ->
  exists response' rest',
    method_signature s name request response' rest' /\ stops isword rest'.
Proof.
  intros (ws1 & ws2 & ws3 & ws4 & ws5 & -> & H).
  destruct (span isword rest) as [more rest'] eqn:E.
  apply span_spec in E. destruct E as (-> & Hmore & Hstop).
  exists (response ++ more), rest'. split; [|exact Hstop].
  exists ws1, ws2, ws3, ws4, ws5. rewrite <- (app_assoc response).
  split; [reflexivity|].
  destruct H as (? & ? & ? & ? & ? & ? & ? & ? & ? & Hr & Hrw).
  repeat split; auto.
  - intros E. apply app_eq_nil in E. tauto.
  - apply all_app. auto.
Qed.

(** C6, as the code has it: the methods of a service body are what its
    lines contribute, in the order of the lines, each line through one turn
    of the loop.  A line that is blank or a [//] comment contributes nothing.
    Any other line contributes one method exactly when, once trimmed, it
    begins with [identifier ( identifier ) : identifier] (white space allowed
    around the brackets and the colon): the match is anchored at the start of
    the line only, so a semicolon may follow or not, and nothing after the
    last identifier is looked at.  The method has that name, request type and
    return type, with the fields of the request table.  A line that does not
    begin so contributes nothing, and nothing is raised.  Every method a
    service body gives has its response type equal to its return type. *)
Theorem method_lines_match_or_skip (self : RPCParser) (body : str) :
  Plain._parse_methods self body
  = Returned (flat_map (line_methods (p_tables self)) (split nl body)) /\
  (forall methods line,
     Plain._parse_methods_line self methods line
     = Returned (methods ++ line_methods (p_tables self) line)) /\
  (forall line,
     skipped line = true -> line_methods (p_tables self) line = []) /\
  (forall line name request response rest,
     skipped line = false ->
     method_signature (strip line) name request response rest ->
     stops isword rest ->
     line_methods (p_tables self) line
     = [ {| m_name := name; m_return := response; m_request := request;
            m_response := response;
            m_request_fields := dict_get (p_tables self) request [] |} ]) /\
  (forall line,
     skipped line = false ->
     ((exists name request response rest,
         method_signature (strip line) name request response rest)
      <-> exists method, line_methods (p_tables self) line = [method])) /\
  (forall line,
     (~ exists name request response rest,
          method_signature (strip line) name request response rest) ->
     line_methods (p_tables self) line = []) /\
  (forall method,
     In method (flat_map (line_methods (p_tables self)) (split nl body)) ->
     m_response method = m_return method).
Proof.
  split; [apply parse_methods_eq|].
  split; [apply parse_methods_line_eq|].
  split; [|split; [|split; [|split]]].
  - intros line Hskip. unfold line_methods. now rewrite Hskip.
  - intros line name request response rest Hskip Hsig Hstop.
    unfold line_methods. rewrite Hskip.
    now rewrite (proj2 (method_pattern_spec _ _ _ _ _) (conj Hsig Hstop)).
  - intros line Hskip. unfold line_methods. rewrite Hskip. split.
    + intros (name & request & response & rest & Hsig).
      apply signature_extends in Hsig.
      destruct Hsig as (response' & rest' & Hsig & Hstop).
      rewrite (proj2 (method_pattern_spec _ _ _ _ _) (conj Hsig Hstop)).
      eexists. reflexivity.
    + intros [method Hbuilt].
      destruct (Plain.method_pattern (strip line))
        as [[[[name request] response] rest]|] eqn:E; [|discriminate].
      apply method_pattern_spec in E. destruct E as [Hsig _].
      now exists name, request, response, rest.
  - intros line Hnone. unfold line_methods.
    destruct (skipped line); [reflexivity|].
    destruct (Plain.method_pattern (strip line))
      as [[[[name request] response] rest]|] eqn:E; [|reflexivity].
    exfalso. apply Hnone. apply method_pattern_spec in E.
    destruct E as [Hsig _]. now exists name, request, response, rest.
  - intros method Hin. apply in_flat_map in Hin.
    destruct Hin as (l & _ & Hin). now apply line_methods_fields in Hin.
Qed.

(** Of the four lines of the example body the first alone is a method: the
    second is a comment, the third is blank and the fourth is no
    signature. *)
Lemma method_lines_match_or_skip_witness :
  Plain._parse_methods (Plain.RPCParser_init bare_world $"s.fbs")
    method_lines_example
  = Returned
      [ {| m_name := $"Add"; m_return := $"Resp"; m_request := $"Req";
           m_response := $"Resp"; m_request_fields := [] |} ] /\
  line_methods [] $"  Add( Req ) : Resp;"
  = [ {| m_name := $"Add"; m_return := $"Resp"; m_request := $"Req";
         m_response := $"Resp"; m_request_fields := [] |} ].
Proof.
  destruct (method_lines_match_or_skip
              (Plain.RPCParser_init bare_world $"s.fbs") method_lines_example)
    as (Hbody & _ & _ & Hsig & _).
  split.
  - rewrite Hbody. reflexivity.
  - apply (Hsig $"  Add( Req ) : Resp;" $"Add" $"Req" $"Resp" $";" eq_refl);
      [|reflexivity].
    exists [], $" ", $" ", $" ", $" ". repeat split; discriminate.
Defined.

(** C6, as it is stated, fails: the lines [Abs(Req):Resp:Extra] and
    [Sub (Req) : Resp junk()] are neither blank nor comments, and neither is
    the pattern followed by nothing or by a semicolon, so by the claim no
    method is built; the code, which matches at the start of the line only,
    builds the methods [Abs] and [Sub]. *)
Lemma trailing_text_still_builds_a_method :
  skipped $"Abs(Req):Resp:Extra" = false /\
  skipped $"Sub (Req) : Resp junk()" = false /\
  line_methods_whole_line [] $"Abs(Req):Resp:Extra" = [] /\
  line_methods_whole_line [] $"Sub (Req) : Resp junk()" = [] /\
  Plain._parse_methods (Plain.RPCParser_init bare_world $"s.fbs")
    ($"Abs(Req):Resp:Extra" ++ [nl] ++ $"Sub (Req) : Resp junk()")
  = Returned
      [ {| m_name := $"Abs"; m_return := $"Resp"; m_request := $"Req";
           m_response := $"Resp"; m_request_fields := [] |};
        {| m_name := $"Sub"; m_return := $"Resp"; m_request := $"Req";
           m_response := $"Resp"; m_request_fields := [] |} ].
Proof. repeat split. Qed.

(** ** Methods and their request tables *)


(** ** The two parsers *)

(** C10: the parser of the plain generator and the parser of the generator
    with the bundled compiler return the same for every parser state and
    every schema text: the same namespace, table map and service list, or
    the same failure; so do their type mappings and their [parse] on every
    world. *)
Theorem parsers_agree (w : World) (self : RPCParser) (content schema_file : str) :
  Plain.parse_content self content = Bundled.parse_content self content /\
  Plain.parse w self = Bundled.parse w self /\
  Plain.RPCParser_init w schema_file = Bundled.RPCParser_init w schema_file /\
  (forall fields_str,
     Plain._parse_fields fields_str = Bundled._parse_fields fields_str) /\
  (forall methods_str,
     Plain._parse_methods self methods_str
     = Bundled._parse_methods self methods_str).
Proof. repeat split. Qed.

(** ** Runs *)

Lemma trace_bind {A B} (m : prog A) (k : A -> prog B) :
  trace (bind m k)
  = trace m ++ match snd m with Returned a => trace (k a) | _ => [] end.
Proof.
  destruct m as [t [a|e|c]]; simpl; try now rewrite app_nil_r.
  now destruct (k a).
Qed.

Lemma outcome_bind {A B} (m : prog A) (k : A -> prog B) :
  snd (bind m k)
  = match snd m with
    | Returned a => snd (k a)
    | Raised e => Raised e
    | Exited c => Exited c
    end.
Proof.
  destruct m as [t [a|e|c]]; simpl; try reflexivity. now destruct (k a).
Qed.

Lemma for_each_prints {A} (xs : list A) (line : A -> str) :
  for_each xs (fun x => print (line x))
  = (map (fun x => EvPrint (line x)) xs, Returned tt).
Proof.
  induction xs as [|x xs IH]; simpl; [reflexivity|].
  rewrite IH. reflexivity.
Qed.

Lemma phases_app (t1 t2 : list event) : phases (t1 ++ t2) = phases t1 ++ phases t2.
Proof. apply filter_app. Qed.

Lemma phases_prints {A} (xs : list A) (line : A -> str) :
  phases (map (fun x => EvPrint (line x)) xs) = [].
Proof. induction xs; simpl; auto. Qed.

Lemma plain_parse_eq (w : World) (self : RPCParser) :
  Plain.parse w self
  = ([EvRead (p_schema_file self)],
     match w_read w (p_schema_file self) with
     | Some content => Returned (parsed_schema self content)
     | None => Raised (FileNotFoundError (p_schema_file self))
     end).
Proof.
  unfold Plain.parse, open_read.
  destruct (w_read w (p_schema_file self)) as [content|]; simpl.
  - now rewrite parse_content_eq.
  - reflexivity.
Qed.

(** What [generate_one] leaves: nothing when the template fails, else one
    artifact and the line that reports it. *)
Lemma generate_one_eq (w : World) (self : RPCGenerator) (rpc_data : RpcData)
  (template suffix : str) (service : Service) :
  generate_one w self rpc_data template suffix service
  = let ctx :=
      {| c_namespace := namespace rpc_data;
         c_schema_basename := schema_basename rpc_data;
         c_service := service;
         c_service_name_lower := lower (s_name service);
         c_service_name_upper := upper (s_name service) |} in
    let filename :=
      lower (namespace rpc_data) ++ $"_" ++ lower (s_name service) ++ suffix in
    match w_render w (g_template_dir self) template ctx with
    | None => ([], Raised (TemplateError template))
    | Some output_text =>
        ([ EvArtifact template ctx (g_output_dir self) filename output_text;
           EvPrint ($"Generated: " ++ w_path w (g_output_dir self) filename) ],
         Returned tt)
    end.
Proof.
  unfold generate_one. simpl.
  destruct (w_render _ _ _ _); reflexivity.
Qed.

Lemma phases_generate_all (w : World) (self : RPCGenerator) (rpc_data : RpcData)
  (template suffix : str) :
  phases (trace (generate_all w self rpc_data template suffix))
  = filter is_artifact (trace (generate_all w self rpc_data template suffix)) /\
  forallb is_artifact
    (phases (trace (generate_all w self rpc_data template suffix))) = true.
Proof.
  unfold generate_all.
  induction (services rpc_data) as [|s ss IH]; [split; reflexivity|].
  cbn [for_each]. rewrite trace_bind, phases_app, filter_app, forallb_app.
  rewrite generate_one_eq. cbv zeta.
  destruct (w_render _ _ _ _); simpl; [|split; reflexivity].
  destruct IH as [IH1 IH2]. now rewrite IH1 in *.
Qed.

Lemma renders_only_bind {A B} (m : prog A) (k : A -> prog B) :
  renders_only m -> (forall a, renders_only (k a)) -> renders_only (bind m k).
Proof.
  unfold renders_only. intros Hm Hk.
  rewrite trace_bind, phases_app, forallb_app, Hm.
  destruct (snd m); simpl; auto.
Qed.

Lemma renders_only_for_each {A} (xs : list A) (body : A -> prog unit) :
  (forall x, renders_only (body x)) -> renders_only (for_each xs body).
Proof.
  intros Hbody. induction xs as [|x xs IH]; [reflexivity|].
  cbn [for_each]. apply renders_only_bind; auto.
Qed.

Lemma renders_only_generate_all (w : World) (self : RPCGenerator)
  (rpc_data : RpcData) (template suffix : str) :
  renders_only (generate_all w self rpc_data template suffix).
Proof. apply phases_generate_all. Qed.

Lemma renders_only_print {A} (line : str) (k : prog A) :
  renders_only k -> renders_only (print line ;; k).
Proof. intros. apply renders_only_bind; [reflexivity | auto]. Qed.

Lemma subprocess_run_eq (w : World) (program : str) (arguments : list str) :
  subprocess_run w (program :: arguments)
  = ([EvRun (program :: arguments)],
     match w_run w (program :: arguments) with
     | Some result => Returned result
     | None => Raised (FileNotFoundError program)
     end).
Proof.
  unfold subprocess_run. simpl.
  destruct (w_run w (program :: arguments)); reflexivity.
Qed.

Ltac run_steps :=
  repeat first
    [ rewrite trace_bind
    | rewrite outcome_bind
    | progress cbn [emit print snd trace fst ret prog_monad] ].

Lemma three_steps {A} (line : str) (a b c : prog unit) (k : prog A) :
  (print line ;; a ;; b ;; c ;; k) = (print line ;; (a ;; b ;; c) ;; k).
Proof.
  destruct a as [ta [[]|ea|ca]], b as [tb [[]|eb|cb]], c as [tc [[]|ec|cc]],
    k as [tk rk]; simpl; rewrite <- ?app_assoc; reflexivity.
Qed.

(** A rendering block between its two lines. *)
Lemma wrapped_rendering (r : prog unit) (before after : str) :
  phases (trace (print before ;; r ;; print after ;; ret 0%Z))
  = phases (trace r) /\
  snd (print before ;; r ;; print after ;; ret 0%Z) = after_rendering (snd r).
Proof.
  destruct r as [t [[]|e|c]]; simpl; rewrite ?phases_app, ?app_nil_r;
    split; reflexivity.
Qed.

Lemma plain_main_phases (w : World) (args : Plain.Args) :
  let argv :=
    flatcc_argv (Plain.flatcc args) (Plain.output args) (Plain.schema args) in
  let t := trace (Plain.main w args) in
  match w_read w (Plain.schema args) with
  | None =>
      phases t = [EvRead (Plain.schema args)] /\
      snd (Plain.main w args) = Raised (FileNotFoundError (Plain.schema args))
  | Some content =>
      match w_run w argv with
      | None =>
          phases t = [EvRead (Plain.schema args); EvRun argv] /\
          snd (Plain.main w args)
          = Raised (FileNotFoundError (Plain.flatcc args))
      | Some (returncode, _) =>
          if (returncode =? 0)%Z then
            let rendering :=
              plain_rendering w args
                (parsed_schema (Plain.RPCParser_init w (Plain.schema args))
                   content) in
            phases t
            = EvRead (Plain.schema args) :: EvRun argv
              :: phases (trace rendering) /\
            snd (Plain.main w args) = after_rendering (snd rendering)
          else
            phases t = [EvRead (Plain.schema args); EvRun argv] /\
            snd (Plain.main w args) = Returned 1%Z
      end
  end.
Proof.
  intros argv t. subst argv t. unfold flatcc_argv, Plain.main.
  run_steps.
  rewrite plain_parse_eq. cbn [snd trace fst Plain.RPCParser_init p_schema_file].
  destruct (w_read w (Plain.schema args)) as [content|].
  2:{ split; reflexivity. }
  run_steps. rewrite for_each_prints. run_steps.
  rewrite subprocess_run_eq. run_steps.
  repeat rewrite phases_app. rewrite phases_prints.
  match goal with
  | |- context [w_run w ?a] => destruct (w_run w a) as [[returncode err]|]
  end.
  2:{ split; reflexivity. }
  destruct (returncode =? 0)%Z; cbn [negb].
  - rewrite three_steps.
    cbn [phases filter is_phase is_read is_run is_artifact orb app].
    destruct (wrapped_rendering
                (plain_rendering w args
                   (parsed_schema (Plain.RPCParser_init w (Plain.schema args))
                      content))
                (nl :: $"Generating RPC code with Jinja2...")
                (nl :: $"Code generation complete!")) as [H1 H2].
    split; [do 2 f_equal; exact H1 | exact H2].
  - split; reflexivity.
Qed.

Lemma resolve_flatcc_quiet (w : World) (args : Bundled.Args) :
  phases (trace (Bundled.resolve_flatcc w args)) = [] /\
  (snd (Bundled.resolve_flatcc w args) = Exited 1%Z \/
   exists path, snd (Bundled.resolve_flatcc w args) = Returned path).
Proof.
  unfold Bundled.resolve_flatcc.
  destruct (Bundled.find_bundled_flatcc w) as [[|c p]|];
    destruct (Bundled.flatcc args) as [[|c' p']|];
    destruct (w_which w $"flatcc") as [[|c'' p'']|];
    cbn [Bundled.truthy negb bind ret prog_monad print emit sys_exit app
         trace fst snd phases filter is_phase is_read is_run is_artifact orb];
    split; first [reflexivity | left; reflexivity | right; eexists; reflexivity].
Qed.

Lemma renders_only_mode (w : World) (generator : RPCGenerator)
  (rpc_data : RpcData) (service : Service) :
  renders_only
    (if Bundled.is_broadcast service then
       Bundled.generate_broadcast_api w generator rpc_data ;;
       Bundled.generate_broadcast_publisher w generator rpc_data ;;
       Bundled.generate_broadcast_subscriber w generator rpc_data
     else
       Bundled.generate_header w generator rpc_data ;;
       Bundled.generate_common_header w generator rpc_data ;;
       Bundled.generate_server_stub w generator rpc_data ;;
       Bundled.generate_client_code w generator rpc_data ;;
       Bundled.generate_common_code w generator rpc_data).
Proof.
  destruct (Bundled.is_broadcast service);
    repeat (apply renders_only_bind;
            [apply renders_only_generate_all | intros _]);
    apply renders_only_generate_all.
Qed.

Lemma bundled_main_phases (w : World) (args : Bundled.Args) :
  let t := trace (Bundled.main w args) in
  match w_read w (Bundled.schema args) with
  | None =>
      phases t = [EvRead (Bundled.schema args)] /\
      snd (Bundled.main w args)
      = Raised (FileNotFoundError (Bundled.schema args))
  | Some content =>
      match snd (Bundled.resolve_flatcc w args) with
      | Returned flatcc_path =>
          let argv :=
            flatcc_argv flatcc_path (Bundled.output args)
              (Bundled.schema args) in
          match w_run w argv with
          | None =>
              phases t = [EvRead (Bundled.schema args); EvRun argv] /\
              snd (Bundled.main w args)
              = Raised (FileNotFoundError flatcc_path)
          | Some (returncode, _) =>
              if (returncode =? 0)%Z then
                let rendering :=
                  bundled_rendering w args
                    (parsed_schema
                       (Plain.RPCParser_init w (Bundled.schema args))
                       content) in
                phases t
                = EvRead (Bundled.schema args) :: EvRun argv
                  :: phases (trace rendering) /\
                snd (Bundled.main w args) = after_rendering (snd rendering)
              else
                phases t = [EvRead (Bundled.schema args); EvRun argv] /\
                snd (Bundled.main w args) = Returned 1%Z
          end
      | Raised e =>
          phases t = [EvRead (Bundled.schema args)] /\
          snd (Bundled.main w args) = Raised e
      | Exited code =>
          phases t = [EvRead (Bundled.schema args)] /\
          snd (Bundled.main w args) = Exited code
      end
  end.
Proof.
  intros t. subst t. unfold flatcc_argv, Bundled.main.
  run_steps.
  change (Bundled.parse w (Bundled.RPCParser_init w (Bundled.schema args)))
    with (Plain.parse w (Plain.RPCParser_init w (Bundled.schema args))).
  rewrite plain_parse_eq. cbn [snd trace fst Plain.RPCParser_init p_schema_file].
  destruct (w_read w (Bundled.schema args)) as [content|].
  2:{ split; reflexivity. }
  run_steps. rewrite for_each_prints. run_steps.
  repeat rewrite phases_app. rewrite phases_prints.
  destruct (resolve_flatcc_quiet w args) as [Hquiet _]. rewrite Hquiet.
  destruct (snd (Bundled.resolve_flatcc w args)) as [flatcc_path|e|code].
  2,3: split; reflexivity.
  run_steps. rewrite subprocess_run_eq. run_steps.
  repeat rewrite phases_app.
  match goal with
  | |- context [w_run w ?a] => destruct (w_run w a) as [[returncode err]|]
  end.
  2:{ split; reflexivity. }
  destruct (returncode =? 0)%Z; cbn [negb].
  - cbn [phases filter is_phase is_read is_run is_artifact orb app].
    destruct (wrapped_rendering
                (bundled_rendering w args
                   (parsed_schema (Plain.RPCParser_init w (Bundled.schema args))
                      content))
                (nl :: $"Generating RPC code with Jinja2...")
                (nl :: $"Code generation complete!")) as [H1 H2].
    split; [do 2 f_equal; exact H1 | exact H2].
  - split; reflexivity.
Qed.

Lemma renders_only_plain (w : World) (args : Plain.Args) (rpc_data : RpcData) :
  renders_only (plain_rendering w args rpc_data).
Proof.
  unfold plain_rendering.
  repeat (apply renders_only_bind;
          [apply renders_only_generate_all | intros _]).
  apply renders_only_generate_all.
Qed.

Lemma renders_only_bundled (w : World) (args : Bundled.Args)
  (rpc_data : RpcData) :
  renders_only (bundled_rendering w args rpc_data).
Proof.
  unfold bundled_rendering. apply renders_only_for_each.
  intros service. apply renders_only_mode.
Qed.

Lemma plain_run_shape (w : World) (args : Plain.Args) :
  run_shape w (Plain.main w args).
Proof.
  pose proof (plain_main_phases w args) as H. cbv zeta in H.
  exists (Plain.schema args).
  destruct (w_read w (Plain.schema args)); [|left; apply H].
  right.
  exists (flatcc_argv (Plain.flatcc args) (Plain.output args)
            (Plain.schema args)).
  destruct (w_run w _) as [[returncode err]|]; [|apply H].
  destruct (returncode =? 0)%Z; [|exact H].
  eexists. split; [apply H | apply renders_only_plain].
Qed.

Lemma bundled_run_shape (w : World) (args : Bundled.Args) :
  run_shape w (Bundled.main w args).
Proof.
  pose proof (bundled_main_phases w args) as H. cbv zeta in H.
  exists (Bundled.schema args).
  destruct (w_read w (Bundled.schema args)); [|left; apply H].
  destruct (snd (Bundled.resolve_flatcc w args)) as [flatcc_path|e|code];
    [|left; apply H|left; apply H].
  right.
  exists (flatcc_argv flatcc_path (Bundled.output args) (Bundled.schema args)).
  destruct (w_run w _) as [[returncode err]|]; [|apply H].
  destruct (returncode =? 0)%Z; [|exact H].
  eexists. split; [apply H | apply renders_only_bundled].
Qed.

Lemma artifacts_of_phases (t : list event) :
  filter is_artifact t = filter is_artifact (phases t).
Proof.
  unfold phases. induction t as [|e t IH]; [reflexivity|].
  destruct e; simpl; rewrite IH; reflexivity.
Qed.

Lemma run_in_phases (t : list event) (argv : list str) :
  In (EvRun argv) t -> In (EvRun argv) (phases t).
Proof. intros H. apply filter_In. split; [exact H | reflexivity]. Qed.

Lemma run_not_artifact (artifacts : list event) (argv : list str) :
  forallb is_artifact artifacts = true -> ~ In (EvRun argv) artifacts.
Proof.
  intros Hall Hin. rewrite forallb_forall in Hall.
  apply Hall in Hin. discriminate.
Qed.

Lemma failed_compiler_stops (w : World) (p : prog Z) (argv : list str)
  (returncode : Z) (err : str) :
  run_shape w p ->
  In (EvRun argv) (trace p) ->
  w_run w argv = Some (returncode, err) ->
  returncode <> 0%Z ->
  filter is_artifact (trace p) = [] /\ snd p = Returned 1%Z.
Proof.
  intros [path [H|[argv0 H]]] Hin Hrun Hcode; apply run_in_phases in Hin.
  - rewrite H in Hin. destruct Hin as [Hin|[]]. discriminate.
  - destruct (w_run w argv0) as [[returncode0 err0]|] eqn:E.
    + destruct (returncode0 =? 0)%Z eqn:E0.
      * destruct H as (artifacts & H & Hall). rewrite H in Hin.
        destruct Hin as [Hin|[Hin|Hin]]; [discriminate| |].
        -- injection Hin as ->. rewrite E in Hrun. injection Hrun as <- _.
           apply Z.eqb_eq in E0. contradiction.
        -- now apply run_not_artifact in Hin.
      * destruct H as [H Hout]. split; [|exact Hout].
        now rewrite artifacts_of_phases, H.
    + rewrite H in Hin. destruct Hin as [Hin|[Hin|[]]]; [discriminate|].
      injection Hin as ->. congruence.
Qed.

(** C2: in every run of either generator in which the schema compiler is
    called and ends with a return code other than 0, no artifact is rendered
    or written and [main] returns 1, the status the process ends with. *)
Theorem failed_compiler_writes_nothing (w : World) (argv : list str)
  (returncode : Z) (err : str) :
  w_run w argv = Some (returncode, err) ->
  returncode <> 0%Z ->
  (forall args,
     In (EvRun argv) (trace (Plain.main w args)) ->
     filter is_artifact (trace (Plain.main w args)) = [] /\
     snd (Plain.main w args) = Returned 1%Z /\
     exit_status (Plain.main w args) = 1%Z) /\
  (forall args,
     In (EvRun argv) (trace (Bundled.main w args)) ->
     filter is_artifact (trace (Bundled.main w args)) = [] /\
     snd (Bundled.main w args) = Returned 1%Z /\
     exit_status (Bundled.main w args) = 1%Z).
Proof.
  intros Hrun Hcode. split; intros args Hin.
  - destruct (@failed_compiler_stops w (Plain.main w args) argv returncode err
                (plain_run_shape w args) Hin Hrun Hcode) as [H1 H2].
    repeat split; auto. unfold exit_status. now rewrite H2.
  - destruct (@failed_compiler_stops w (Bundled.main w args) argv returncode
                err (bundled_run_shape w args) Hin Hrun Hcode) as [H1 H2].
    repeat split; auto. unfold exit_status. now rewrite H2.
Qed.

(** With a compiler that ends with 2, both generators call it on the
    calculator schema, write nothing and end with 1. *)
Lemma failed_compiler_writes_nothing_witness :
  (filter is_artifact
     (trace (Plain.main (example_world calculator_schema 2) plain_args)) = [] /\
   exit_status (Plain.main (example_world calculator_schema 2) plain_args)
   = 1%Z) /\
  (filter is_artifact
     (trace (Bundled.main (example_world calculator_schema 2) bundled_args))
   = [] /\
   exit_status (Bundled.main (example_world calculator_schema 2) bundled_args)
   = 1%Z).
Proof.
  pose proof (@failed_compiler_writes_nothing
                (example_world calculator_schema 2)
                (flatcc_argv $"flatcc" $"generated" $"calc.fbs") 2%Z []
                eq_refl ltac:(discriminate)) as [Hplain Hbundled].
  split.
  - destruct (Hplain plain_args) as (H1 & _ & H3).
    + vm_compute. tauto.
    + split; [exact H1 | exact H3].
  - destruct (Hbundled bundled_args) as (H1 & _ & H3).
    + vm_compute. tauto.
    + split; [exact H1 | exact H3].
Defined.

(** ** The order of a run *)




(** ** The artifacts of a service *)

Lemma startswith_spec (prefix s : str) :
  startswith prefix s = true <-> exists rest, s = prefix ++ rest.
Proof.
  revert s; induction prefix as [|p prefix IH]; intros s; simpl.
  - split; [intros _; now exists s | reflexivity].
  - destruct s as [|c s].
    + split; [discriminate | intros [rest H]; discriminate].
    + rewrite andb_true_iff, ascii_eqb_true, IH. split.
      * intros [-> [rest ->]]. now exists rest.
      * intros [rest [= -> ->]]. split; [reflexivity | now exists rest].
Qed.

Lemma str_in_spec (sub s : str) :
  str_in sub s = true <-> exists before after, s = before ++ sub ++ after.
Proof.
  induction s as [|c s IH]; simpl.
  - rewrite orb_false_r, startswith_spec. split.
    + intros [rest H]. now exists [], rest.
    + intros (before & after & H). symmetry in H.
      apply app_eq_nil in H. destruct H as [-> H]. now exists after.
  - rewrite orb_true_iff, startswith_spec, IH. split.
    + intros [[rest H]|(before & after & ->)].
      * now exists [], rest.
      * now exists (c :: before), after.
    + intros (before & after & H). destruct before as [|b before].
      * left. now exists after.
      * right. injection H as -> ->. now exists before, after.
Qed.

Lemma written_for_app (t1 t2 : list event) (service : Service)
  (template filename : str) :
  written_for (t1 ++ t2) service template filename
  <-> written_for t1 service template filename \/
      written_for t2 service template filename.
Proof.
  unfold written_for. split.
  - intros (ctx & dir & out & Hin & Hs). apply in_app_or in Hin.
    destruct Hin; [left | right]; now exists ctx, dir, out.
  - intros [(ctx & dir & out & Hin & Hs)|(ctx & dir & out & Hin & Hs)];
      exists ctx, dir, out; (split; [apply in_or_app; auto | exact Hs]).
Qed.

Lemma written_for_nil (service : Service) (template filename : str) :
  ~ written_for [] service template filename.
Proof. intros (ctx & dir & out & [] & _). Qed.

Lemma written_for_artifacts (t : list event) (service : Service)
  (template filename : str) :
  written_for t service template filename
  <-> written_for (filter is_artifact t) service template filename.
Proof.
  unfold written_for. split; intros (ctx & dir & out & Hin & Hs);
    exists ctx, dir, out; (split; [|exact Hs]).
  - apply filter_In. now split.
  - now apply filter_In in Hin.
Qed.

Lemma bound_returns {A B} (m : prog A) (k : A -> prog B) (b : B) :
  snd (bind m k) = Returned b ->
  exists a,
    snd m = Returned a /\ snd (k a) = Returned b /\
    trace (bind m k) = trace m ++ trace (k a).
Proof.
  rewrite outcome_bind, trace_bind.
  destruct (snd m) as [a|e|c]; [|discriminate|discriminate].
  intros H. now exists a.
Qed.

Lemma writes_one_template (w : World) (self : RPCGenerator)
  (rpc_data : RpcData) (template suffix : str) (ss : list Service) :
  snd (for_each ss (generate_one w self rpc_data template suffix))
  = Returned tt ->
  forall service template' filename,
    written_for
      (trace (for_each ss (generate_one w self rpc_data template suffix)))
      service template' filename
    <-> In service ss /\ template' = template /\
        filename = artifact_name (namespace rpc_data) (s_name service) suffix.
Proof.
  induction ss as [|s ss IH]; intros Hok service template' filename.
  - simpl. split; [intros H; now apply written_for_nil in H | tauto].
  - cbn [for_each] in *. apply bound_returns in Hok.
    destruct Hok as ([] & Hone & Hrest & ->).
    rewrite written_for_app, (IH Hrest). clear IH Hrest.
    rewrite generate_one_eq in *. cbv zeta in *.
    destruct (w_render _ _ _ _) as [out|]; [|discriminate].
    cbn [trace fst]. unfold written_for, artifact_name. simpl. split.
    + intros [(ctx & dir & o & [H|[H|[]]] & Hs)|(Hin & -> & ->)].
      * injection H as <- <- <- <- <-. simpl in Hs. subst s. auto.
      * discriminate.
      * auto.
    + intros ([<-|Hin] & -> & ->).
      * left. do 3 eexists. split; [left; reflexivity | reflexivity].
      * right. auto.
Qed.

Lemma writes_generate_all (w : World) (self : RPCGenerator)
  (rpc_data : RpcData) (template suffix : str) :
  writes (generate_all w self rpc_data template suffix) rpc_data
    [(template, suffix)].
Proof.
  unfold writes, generate_all. intros Hok service template' filename.
  rewrite (writes_one_template _ _ _ _ _ _ Hok). unfold artifacts_of. simpl.
  split.
  - intros (Hin & -> & ->). auto.
  - intros (Hin & [[= <- <-]|[]]). auto.
Qed.

Lemma writes_then (m k : prog unit) (rpc_data : RpcData)
  (l1 l2 : list (str * str)) :
  writes m rpc_data l1 -> writes k rpc_data l2 ->
  writes (m ;; k) rpc_data (l1 ++ l2).
Proof.
  unfold writes. intros Hm Hk Hok service template filename.
  apply bound_returns in Hok. destruct Hok as ([] & Hm' & Hk' & ->).
  rewrite written_for_app, (Hm Hm'), (Hk Hk').
  unfold artifacts_of. rewrite map_app, in_app_iff. tauto.
Qed.

Lemma writes_same_set (p : prog unit) (rpc_data : RpcData)
  (l1 l2 : list (str * str)) :
  (forall x, In x l1 <-> In x l2) -> writes p rpc_data l1 ->
  writes p rpc_data l2.
Proof.
  unfold writes, artifacts_of. intros Hset Hp Hok service template filename.
  rewrite (Hp Hok). rewrite !in_map_iff.
  split; intros (Hin & x & Hx & Hl); (split; [exact Hin|]); exists x;
    (split; [exact Hx | now apply Hset]).
Qed.

Lemma writes_plain_rendering (w : World) (args : Plain.Args)
  (rpc_data : RpcData) :
  writes (plain_rendering w args rpc_data) rpc_data plain_templates.
Proof.
  unfold plain_rendering, plain_templates.
  apply (@writes_then _ _ rpc_data [_] [_; _]);
    [apply writes_generate_all|].
  apply (@writes_then _ _ rpc_data [_] [_]); apply writes_generate_all.
Qed.

Lemma writes_broadcast (w : World) (generator : RPCGenerator)
  (rpc_data : RpcData) :
  writes
    (Bundled.generate_broadcast_api w generator rpc_data ;;
     Bundled.generate_broadcast_publisher w generator rpc_data ;;
     Bundled.generate_broadcast_subscriber w generator rpc_data)
    rpc_data broadcast_templates.
Proof.
  unfold broadcast_templates.
  apply (@writes_then _ _ rpc_data [_] [_; _]);
    [apply writes_generate_all|].
  apply (@writes_then _ _ rpc_data [_] [_]); apply writes_generate_all.
Qed.

Lemma writes_request_response (w : World) (generator : RPCGenerator)
  (rpc_data : RpcData) :
  writes
    (Bundled.generate_header w generator rpc_data ;;
     Bundled.generate_common_header w generator rpc_data ;;
     Bundled.generate_server_stub w generator rpc_data ;;
     Bundled.generate_client_code w generator rpc_data ;;
     Bundled.generate_common_code w generator rpc_data)
    rpc_data request_response_templates.
Proof.
  apply writes_same_set with
    (l1 := [ ($"api.h.j2", $"_api.h");
             ($"rpc_common.h.j2", $"_rpc_common.h");
             ($"server_stub.c.j2", $"_server_stub.c");
             ($"client.c.j2", $"_client.c");
             ($"rpc_common.c.j2", $"_rpc_common.c") ]).
  { intros x. unfold request_response_templates. simpl. tauto. }
  apply (@writes_then _ _ rpc_data [_] [_; _; _; _]);
    [apply writes_generate_all|].
  apply (@writes_then _ _ rpc_data [_] [_; _; _]);
    [apply writes_generate_all|].
  apply (@writes_then _ _ rpc_data [_] [_; _]);
    [apply writes_generate_all|].
  apply (@writes_then _ _ rpc_data [_] [_]); apply writes_generate_all.
Qed.

Lemma for_each_same_body {A} (xs : list A) (body : A -> prog unit)
  (p : prog unit) :
  xs <> [] ->
  (forall x, In x xs -> body x = p) ->
  snd (for_each xs body) = Returned tt ->
  snd p = Returned tt /\
  forall service template filename,
    written_for (trace (for_each xs body)) service template filename
    <-> written_for (trace p) service template filename.
Proof.
  induction xs as [|x xs IH]; [congruence|]. intros _ Hsame Hok.
  cbn [for_each] in *. apply bound_returns in Hok.
  destruct Hok as ([] & Hx & Hrest & ->).
  rewrite (Hsame x (or_introl eq_refl)) in *.
  split; [exact Hx|]. intros service template filename.
  rewrite written_for_app.
  destruct xs as [|y xs].
  - simpl. split; [intros [H|H]; [exact H | now apply written_for_nil in H]
                  | auto].
  - destruct IH as [_ IH]; [discriminate | intros; apply Hsame; now right
                            | exact Hrest |].
    rewrite IH. tauto.
Qed.

Lemma writes_bundled_rendering (w : World) (args : Bundled.Args)
  (rpc_data : RpcData) (service : Service) :
  In service (services rpc_data) ->
  same_mode rpc_data service ->
  writes (bundled_rendering w args rpc_data) rpc_data
    (if Bundled.is_broadcast service then broadcast_templates
     else request_response_templates).
Proof.
  intros Hin Hmode Hok. unfold bundled_rendering in *. cbv zeta in *.
  set (generator := Bundled.RPCGenerator_init _ _) in *.
  destruct (Bundled.is_broadcast service) eqn:E.
  - apply for_each_same_body with
      (p := (Bundled.generate_broadcast_api w generator rpc_data ;;
             Bundled.generate_broadcast_publisher w generator rpc_data ;;
             Bundled.generate_broadcast_subscriber w generator rpc_data))
      in Hok.
    + destruct Hok as [Hp Hsame]. intros s template filename.
      rewrite Hsame. now apply writes_broadcast.
    + intros H. now rewrite H in Hin.
    + intros x Hx. now rewrite (Hmode x Hx), E.
  - apply for_each_same_body with
      (p := (Bundled.generate_header w generator rpc_data ;;
             Bundled.generate_common_header w generator rpc_data ;;
             Bundled.generate_server_stub w generator rpc_data ;;
             Bundled.generate_client_code w generator rpc_data ;;
             Bundled.generate_common_code w generator rpc_data))
      in Hok.
    + destruct Hok as [Hp Hsame]. intros s template filename.
      rewrite Hsame. now apply writes_request_response.
    + intros H. now rewrite H in Hin.
    + intros x Hx. now rewrite (Hmode x Hx), E.
Qed.

Lemma after_rendering_ok (r : outcome unit) :
  after_rendering r = Returned 0%Z -> r = Returned tt.
Proof. destruct r as [[]|e|c]; simpl; congruence. Qed.

Lemma written_after_phases (t r : list event) (read run : event)
  (service : Service) (template filename : str) :
  is_artifact read = false -> is_artifact run = false ->
  phases t = read :: run :: phases r ->
  written_for t service template filename
  <-> written_for r service template filename.
Proof.
  intros Hread Hrun H.
  rewrite (written_for_artifacts t), (written_for_artifacts r).
  rewrite (artifacts_of_phases t), (artifacts_of_phases r), H.
  simpl. now rewrite Hread, Hrun.
Qed.

Lemma plain_main_written (w : World) (args : Plain.Args) (content : str) :
  w_read w (Plain.schema args) = Some content ->
  snd (Plain.main w args) = Returned 0%Z ->
  let rendering :=
    plain_rendering w args
      (parsed_schema (Plain.RPCParser_init w (Plain.schema args)) content) in
  snd rendering = Returned tt /\
  forall service template filename,
    written_for (trace (Plain.main w args)) service template filename
    <-> written_for (trace rendering) service template filename.
Proof.
  intros Hread Hok. pose proof (plain_main_phases w args) as H.
  cbv zeta in H. rewrite Hread in H.
  destruct (w_run w _) as [[returncode err]|]; [|destruct H; congruence].
  destruct (returncode =? 0)%Z; [|destruct H; congruence].
  destruct H as [Hphases Hout]. rewrite Hok in Hout.
  split; [now apply after_rendering_ok|].
  intros service template filename.
  eapply written_after_phases; [| |exact Hphases]; reflexivity.
Qed.

Lemma bundled_main_written (w : World) (args : Bundled.Args) (content : str) :
  w_read w (Bundled.schema args) = Some content ->
  snd (Bundled.main w args) = Returned 0%Z ->
  let rendering :=
    bundled_rendering w args
      (parsed_schema (Plain.RPCParser_init w (Bundled.schema args)) content) in
  snd rendering = Returned tt /\
  forall service template filename,
    written_for (trace (Bundled.main w args)) service template filename
    <-> written_for (trace rendering) service template filename.
Proof.
  intros Hread Hok. pose proof (bundled_main_phases w args) as H.
  cbv zeta in H. rewrite Hread in H.
  destruct (snd (Bundled.resolve_flatcc w args)) as [flatcc_path|e|code];
    [|destruct H; congruence|destruct H; congruence].
  destruct (w_run w _) as [[returncode err]|]; [|destruct H; congruence].
  destruct (returncode =? 0)%Z; [|destruct H; congruence].
  destruct H as [Hphases Hout]. rewrite Hok in Hout.
  split; [now apply after_rendering_ok|].
  intros service template filename.
  eapply written_after_phases; [| |exact Hphases]; reflexivity.
Qed.

Lemma plain_artifacts (w : World) (args : Plain.Args) (content : str)
  (data : RpcData) (service : Service) :
  w_read w (Plain.schema args) = Some content ->
  Plain.parse_content (Plain.RPCParser_init w (Plain.schema args)) content
  = Returned data ->
  snd (Plain.main w args) = Returned 0%Z ->
  In service (services data) ->
  forall template filename,
    written_for (trace (Plain.main w args)) service template filename
    <-> In (template, filename)
          (artifacts_of plain_templates (namespace data) (s_name service)).
Proof.
  intros Hread Hparse Hok Hin template filename.
  rewrite parse_content_eq in Hparse. injection Hparse as <-.
  destruct (plain_main_written w args Hread Hok) as [Hr Hsame].
  rewrite Hsame, (writes_plain_rendering w args _ Hr). tauto.
Qed.

Lemma bundled_artifacts (w : World) (args : Bundled.Args) (content : str)
  (data : RpcData) (service : Service) :
  w_read w (Bundled.schema args) = Some content ->
  Bundled.parse_content (Bundled.RPCParser_init w (Bundled.schema args)) content
  = Returned data ->
  snd (Bundled.main w args) = Returned 0%Z ->
  In service (services data) ->
  same_mode data service ->
  forall template filename,
    written_for (trace (Bundled.main w args)) service template filename
    <-> In (template, filename)
          (artifacts_of
             (if Bundled.is_broadcast service then broadcast_templates
              else request_response_templates)
             (namespace data) (s_name service)).
Proof.
  intros Hread Hparse Hok Hin Hmode template filename.
  change (Plain.parse_content
            (Plain.RPCParser_init w (Bundled.schema args)) content
          = Returned data) in Hparse.
  rewrite parse_content_eq in Hparse. injection Hparse as <-.
  destruct (bundled_main_written w args Hread Hok) as [Hr Hsame].
  rewrite Hsame, (writes_bundled_rendering w args Hin Hmode Hr). tauto.
Qed.

Lemma artifact_names_distinct (templates : list (str * str)) (ns svc : str) :
  NoDup (map snd templates) ->
  NoDup (map snd (artifacts_of templates ns svc)).
Proof.
  unfold artifacts_of. rewrite map_map. simpl.
  induction templates as [|[t s] l IH]; simpl; intros H; [constructor|].
  inversion H as [|? ? Hnot Hrest]; subst. constructor; [|now apply IH].
  intros Hin. apply Hnot. apply in_map_iff in Hin.
  destruct Hin as ([t' s'] & Heq & Hin). simpl in Heq.
  unfold artifact_name in Heq. rewrite !app_assoc in Heq.
  apply app_inv_head in Heq. subst s'.
  apply in_map_iff. now exists (t', s).
Qed.

Lemma template_endings_distinct :
  NoDup (map snd request_response_templates) /\
  NoDup (map snd broadcast_templates) /\
  NoDup (map snd plain_templates).
Proof.
  repeat split; repeat constructor; simpl; intuition discriminate.
Qed.

(** C1, as the code has it.  The generator with the bundled compiler takes
    the broadcast branch for a service exactly when [Broadcast] occurs in its
    name.  In a run of it that ends with 0, on a schema whose services all
    take the same branch, the artifacts written for a service are exactly the
    three broadcast artifacts when its name holds [Broadcast], and exactly
    the five request/response artifacts otherwise, each under its file name
    [{ns}_{svc}...] in lower case.  The plain generator selects no mode: in a
    run of it that ends with 0 the artifacts written for a service are
    exactly [{ns}_{svc}_api.h], [{ns}_{svc}_server_stub.c] and
    [{ns}_{svc}_client.c], whatever its name.  The file names of one set are
    pairwise distinct. *)
Theorem artifacts_by_mode (w : World) :
  (forall service,
     Bundled.is_broadcast service = true
     <-> exists before after,
           s_name service = before ++ $"Broadcast" ++ after) /\
  (forall args content data service,
     w_read w (Bundled.schema args) = Some content ->
     Bundled.parse_content (Bundled.RPCParser_init w (Bundled.schema args))
       content = Returned data ->
     snd (Bundled.main w args) = Returned 0%Z ->
     In service (services data) ->
     same_mode data service ->
     forall template filename,
       written_for (trace (Bundled.main w args)) service template filename
       <-> In (template, filename)
             (artifacts_of
                (if Bundled.is_broadcast service then broadcast_templates
                 else request_response_templates)
                (namespace data) (s_name service))) /\
  (forall args content data service,
     w_read w (Plain.schema args) = Some content ->
     Plain.parse_content (Plain.RPCParser_init w (Plain.schema args)) content
     = Returned data ->
     snd (Plain.main w args) = Returned 0%Z ->
     In service (services data) ->
     forall template filename,
       written_for (trace (Plain.main w args)) service template filename
       <-> In (template, filename)
             (artifacts_of plain_templates (namespace data)
                (s_name service))) /\
  (forall ns svc,
     NoDup (map snd (artifacts_of request_response_templates ns svc)) /\
     NoDup (map snd (artifacts_of broadcast_templates ns svc)) /\
     NoDup (map snd (artifacts_of plain_templates ns svc))).
Proof.
  split; [|split; [|split]].
  - intros service. apply str_in_spec.
  - intros args content data service. apply bundled_artifacts.
  - intros args content data service. apply plain_artifacts.
  - intros ns svc.
    destruct template_endings_distinct as (H1 & H2 & H3).
    repeat split; now apply artifact_names_distinct.
Qed.

(** With the bundled compiler, the service [Calculator] of the calculator
    schema gets its five request/response files, and the service
    [ChatBroadcast] of the chat schema its three broadcast files. *)
Lemma artifacts_by_mode_witness :
  (forall template filename,
     written_for
       (trace (Bundled.main (example_world calculator_schema 0) bundled_args))
       calculator_service template filename
     <-> In (template, filename)
           [ ($"api.h.j2", $"demo_calculator_api.h");
             ($"rpc_common.h.j2", $"demo_calculator_rpc_common.h");
             ($"rpc_common.c.j2", $"demo_calculator_rpc_common.c");
             ($"server_stub.c.j2", $"demo_calculator_server_stub.c");
             ($"client.c.j2", $"demo_calculator_client.c") ]) /\
  (forall template filename,
     written_for
       (trace (Bundled.main (example_world chat_schema 0) bundled_args))
       chat_service template filename
     <-> In (template, filename)
           [ ($"broadcast_api.h.j2", $"demo_chatbroadcast_api.h");
             ($"broadcast_publisher.c.j2",
              $"demo_chatbroadcast_broadcast_publisher.c");
             ($"broadcast_subscriber.c.j2",
              $"demo_chatbroadcast_broadcast_subscriber.c") ]).
Proof.
  split.
  - destruct (artifacts_by_mode (example_world calculator_schema 0))
      as (_ & Hbundled & _).
    refine (Hbundled bundled_args calculator_schema
              (example_data calculator_schema) calculator_service
              eq_refl _ _ _ _).
    + apply parse_content_eq.
    + vm_compute. reflexivity.
    + left. vm_compute. reflexivity.
    + intros other [<-|[]]. reflexivity.
  - destruct (artifacts_by_mode (example_world chat_schema 0))
      as (_ & Hbundled & _).
    refine (Hbundled bundled_args chat_schema (example_data chat_schema)
              chat_service eq_refl _ _ _ _).
    + apply parse_content_eq.
    + vm_compute. reflexivity.
    + left. vm_compute. reflexivity.
    + intros other [<-|[]]. reflexivity.
Defined.

(** C1, as it is stated, fails: on the calculator schema the plain generator
    ends with 0, the service [Calculator] is a request/response service, and
    of its five request/response artifacts the common header is not
    written. *)
Lemma plain_generator_skips_common_files :
  snd (Plain.main (example_world calculator_schema 0) plain_args)
  = Returned 0%Z /\
  Plain.parse_content
    (Plain.RPCParser_init (example_world calculator_schema 0) $"calc.fbs")
    calculator_schema
  = Returned (example_data calculator_schema) /\
  In calculator_service (services (example_data calculator_schema)) /\
  Bundled.is_broadcast calculator_service = false /\
  In ($"rpc_common.h.j2", $"demo_calculator_rpc_common.h")
    (artifacts_of request_response_templates
       (namespace (example_data calculator_schema))
       (s_name calculator_service)) /\
  ~ written_for
      (trace (Plain.main (example_world calculator_schema 0) plain_args))
      calculator_service $"rpc_common.h.j2" $"demo_calculator_rpc_common.h".
Proof.
  assert (Hok : snd (Plain.main (example_world calculator_schema 0) plain_args)
                = Returned 0%Z) by (vm_compute; reflexivity).
  assert (Hin : In calculator_service
                  (services (example_data calculator_schema)))
    by (left; vm_compute; reflexivity).
  split; [exact Hok|]. split; [apply parse_content_eq|].
  split; [exact Hin|]. split; [reflexivity|].
  split; [vm_compute; tauto|].
  intros H.
  apply (@plain_artifacts (example_world calculator_schema 0) plain_args
           calculator_schema (example_data calculator_schema)
           calculator_service eq_refl (parse_content_eq _ _) Hok Hin) in H.
  vm_compute in H.
  repeat (destruct H as [H|H]; [discriminate|]). exact H.
Qed.

(** With the bundled compiler and a schema that mixes the two modes, every
    generating method goes through all the services at every turn of the
    loop of [main]: the service [Calculator] also gets broadcast files. *)
Lemma mixed_schema_gets_both_sets :
  snd (Bundled.main (example_world mixed_schema 0) bundled_args)
  = Returned 0%Z /\
  written_for
    (trace (Bundled.main (example_world mixed_schema 0) bundled_args))
    calculator_service $"broadcast_publisher.c.j2"
    $"demo_calculator_broadcast_publisher.c" /\
  written_for
    (trace (Bundled.main (example_world mixed_schema 0) bundled_args))
    calculator_service $"rpc_common.h.j2" $"demo_calculator_rpc_common.h".
Proof.
  split; [vm_compute; reflexivity|].
  split;
    exists {| c_namespace := $"Demo"; c_schema_basename := $"calc.fbs";
              c_service := calculator_service;
              c_service_name_lower := $"calculator";
              c_service_name_upper := $"CALCULATOR" |}, $"generated", [];
    (split; [|reflexivity]); vm_compute;
    repeat (first [left; reflexivity | right]).
Qed.

(** ** Examples *)

Lemma statement_is_match (content : str) (i : nat) (id : str) :
  namespace_statement_at content i id ->
  exists rest, Plain.namespace_pattern (skipn i content) = Some (id, rest).
Proof. intros [rest H]. exists rest. now apply namespace_pattern_spec. Qed.

Lemma no_statement_by_search (content : str) :
  re_search Plain.namespace_pattern content = None ->
  forall i id, ~ namespace_statement_at content i id.
Proof.
  intros H i id Hst. apply statement_is_match in Hst.
  destruct Hst as [rest Hst].
  rewrite (proj1 (re_search_None _ _) H i) in Hst. discriminate.
Qed.

Lemma no_table_by_search (content : str) :
  re_finditer Plain.table_pattern content = [] ->
  forall i, ~ block_at $"table" content i.
Proof.
  intros H i (name & body & rest & Hb). apply table_pattern_spec in Hb.
  rewrite (proj1 (finditer_nil _ _) H i) in Hb. discriminate.
Qed.

Lemma no_service_by_search (content : str) :
  re_finditer Plain.service_pattern content = [] ->
  forall i, ~ block_at $"rpc_service" content i.
Proof.
  intros H i (name & body & rest & Hb). apply service_pattern_spec in Hb.
  rewrite (proj1 (finditer_nil _ _) H i) in Hb. discriminate.
Qed.

(** Of the two namespace statements of [two_namespaces] the first, at offset
    5, gives the namespace. *)
Lemma namespace_first_match_wins_witness :
  exists data,
    Plain.parse_content
      (Plain.RPCParser_init (example_world two_namespaces 0) $"calc.fbs")
      two_namespaces
    = Returned data /\
    namespace data = $"Foo".
Proof.
  destruct (namespace_first_match_wins (example_world two_namespaces 0)
              $"calc.fbs" two_namespaces) as (data & Hparse & Hfirst & _).
  exists data. split; [exact Hparse|].
  apply (Hfirst 5).
  - exists ([nl] ++ $"namespace Bar;"), $" ". repeat split; discriminate.
  - intros j id' Hj Hst. apply statement_is_match in Hst.
    destruct Hst as [rest Hst].
    do 5 (destruct j as [|j]; [vm_compute in Hst; discriminate|]). lia.
Defined.

(** The text [no_construct] is parsed to the empty schema. *)
Lemma parse_never_raises_witness :
  exists data,
    Plain.parse_content
      (Plain.RPCParser_init (example_world no_construct 0) $"calc.fbs")
      no_construct
    = Returned data /\
    namespace data = [] /\ tables data = [] /\ services data = [].
Proof.
  destruct (parse_never_raises (example_world no_construct 0) $"calc.fbs"
              no_construct) as (data & Hparse & Hns & Htables & Hservices).
  exists data. split; [exact Hparse|]. split; [|split].
  - apply Hns. apply no_statement_by_search. reflexivity.
  - apply Htables. apply no_table_by_search. reflexivity.
  - apply Hservices. apply no_service_by_search. reflexivity.
Defined.


(** * Further properties *)

(** ** Finding the schema compiler *)

Lemma path_join_not_empty (a b : str) : b <> [] -> Bundled.path_join a b <> [].
Proof.
  intros Hb. unfold Bundled.path_join.
  destruct (startswith $"/" b); [exact Hb|].
  destruct (str_eqb a [] || endswith $"/" a); intros H;
    apply app_eq_nil in H; destruct H as [_ H].
  - contradiction.
  - discriminate.
Qed.

Lemma bundled_places_not_empty (bundle_dir path : str) :
  In path (bundled_places bundle_dir) -> path <> [].
Proof.
  intros [<-|[<-|[<-|[]]]]; apply path_join_not_empty; discriminate.
Qed.

Lemma found_bundled_not_empty (w : World) (path : str) :
  Bundled.find_bundled_flatcc w = Some path -> path <> [].
Proof.
  unfold Bundled.find_bundled_flatcc.
  destruct (w_meipass w) as [bundle_dir|]; [|discriminate].
  intros H. apply find_some in H. destruct H as [H _].
  now apply (@bundled_places_not_empty bundle_dir).
Qed.

(** X1: [find_bundled_flatcc] finds nothing outside a frozen bundle.  What
    it finds is one of the three places of the bundle directory, is an
    executable file and is never the empty path; it finds nothing in a bundle
    exactly when none of the three places is executable, and the first place,
    [bundle_dir/flatcc], wins when it is. *)
Theorem bundled_flatcc_is_an_executable_place (w : World) :
  (w_meipass w = None -> Bundled.find_bundled_flatcc w = None) /\
  (forall path,
     Bundled.find_bundled_flatcc w = Some path ->
     exists bundle_dir,
       w_meipass w = Some bundle_dir /\
       In path (bundled_places bundle_dir) /\
       w_executable w path = true /\ path <> []) /\
  (forall bundle_dir,
     w_meipass w = Some bundle_dir ->
     (Bundled.find_bundled_flatcc w = None
      <-> forall path,
            In path (bundled_places bundle_dir) ->
            w_executable w path = false)) /\
  (forall bundle_dir,
     w_meipass w = Some bundle_dir ->
     w_executable w (Bundled.path_join bundle_dir $"flatcc") = true ->
     Bundled.find_bundled_flatcc w
     = Some (Bundled.path_join bundle_dir $"flatcc")).
Proof.
  unfold Bundled.find_bundled_flatcc. split; [|split; [|split]].
  - intros ->. reflexivity.
  - intros path H. destruct (w_meipass w) as [bundle_dir|]; [|discriminate].
    exists bundle_dir. pose proof (find_some _ _ H) as [Hin Hex].
    repeat split; auto. now apply (@bundled_places_not_empty bundle_dir).
  - intros bundle_dir ->. split.
    + intros H path Hin. now apply (find_none _ _ H).
    + intros H.
      destruct (find _ _) as [path|] eqn:E; [|reflexivity].
      apply find_some in E. destruct E as [Hin Hex].
      rewrite (H path Hin) in Hex. discriminate.
  - intros bundle_dir -> Hex. cbn [find]. now rewrite Hex.
Qed.

(** In a bundle at [/opt/app] whose only executable is [/opt/app/bin/flatcc],
    that place is found. *)
Lemma bundled_flatcc_is_an_executable_place_witness :
  Bundled.find_bundled_flatcc
    {| w_read := fun _ => None; w_stem := fun p => p;
       w_path := fun d f => d ++ f; w_run := fun _ => None;
       w_render := fun _ _ _ => None; w_meipass := Some $"/opt/app";
       w_executable := fun p => str_eqb p $"/opt/app/bin/flatcc";
       w_which := fun _ => None |}
  = Some $"/opt/app/bin/flatcc" /\
  $"/opt/app/bin/flatcc" <> [].
Proof.
  split; [reflexivity|].
  destruct (proj1 (proj2 (bundled_flatcc_is_an_executable_place
    {| w_read := fun _ => None; w_stem := fun p => p;
       w_path := fun d f => d ++ f; w_run := fun _ => None;
       w_render := fun _ _ _ => None; w_meipass := Some $"/opt/app";
       w_executable := fun p => str_eqb p $"/opt/app/bin/flatcc";
       w_which := fun _ => None |})) $"/opt/app/bin/flatcc" eq_refl)
    as (bundle_dir & _ & _ & _ & H).
  exact H.
Defined.

Lemma resolve_bundled (w : World) (args : Bundled.Args) (path : str) :
  Bundled.find_bundled_flatcc w = Some path ->
  snd (Bundled.resolve_flatcc w args) = Returned path.
Proof.
  intros H. pose proof (found_bundled_not_empty w H) as Hne.
  unfold Bundled.resolve_flatcc. rewrite H.
  destruct path as [|c path]; [congruence|]. reflexivity.
Qed.

Lemma resolve_not_bundled (w : World) (args : Bundled.Args) :
  Bundled.find_bundled_flatcc w = None ->
  snd (Bundled.resolve_flatcc w args)
  = if Bundled.truthy (Bundled.flatcc args) then
      match Bundled.flatcc args with
      | Some path => Returned path
      | None => Exited 1%Z
      end
    else if Bundled.truthy (w_which w $"flatcc") then
      match w_which w $"flatcc" with
      | Some path => Returned path
      | None => Exited 1%Z
      end
    else Exited 1%Z.
Proof.
  intros H. unfold Bundled.resolve_flatcc. rewrite H.
  destruct (Bundled.flatcc args) as [[|c p]|];
    destruct (w_which w $"flatcc") as [[|c' p']|]; reflexivity.
Qed.

(** X2: the compiler [main] settles on.  A bundled FlatCC, when there is
    one, is taken even if [--flatcc] names another; without it a non-empty
    [--flatcc] is taken; without either, what [shutil.which] finds; and when
    all three give nothing the resolution leaves through [sys.exit(1)].
    Settling the compiler only prints. *)
Theorem flatcc_resolution_order (w : World) (args : Bundled.Args) :
  (forall path,
     Bundled.find_bundled_flatcc w = Some path ->
     snd (Bundled.resolve_flatcc w args) = Returned path) /\
  (forall path,
     Bundled.find_bundled_flatcc w = None ->
     Bundled.flatcc args = Some path -> path <> [] ->
     snd (Bundled.resolve_flatcc w args) = Returned path) /\
  (forall path,
     Bundled.find_bundled_flatcc w = None ->
     Bundled.truthy (Bundled.flatcc args) = false ->
     w_which w $"flatcc" = Some path -> path <> [] ->
     snd (Bundled.resolve_flatcc w args) = Returned path) /\
  (Bundled.find_bundled_flatcc w = None ->
   Bundled.truthy (Bundled.flatcc args) = false ->
   Bundled.truthy (w_which w $"flatcc") = false ->
   snd (Bundled.resolve_flatcc w args) = Exited 1%Z) /\
  phases (trace (Bundled.resolve_flatcc w args)) = [].
Proof.
  split; [|split; [|split; [|split]]].
  - intros path. apply resolve_bundled.
  - intros path Hb Harg Hne. rewrite (resolve_not_bundled w args Hb), Harg.
    destruct path; [congruence | reflexivity].
  - intros path Hb Harg Hwhich Hne.
    rewrite (resolve_not_bundled w args Hb), Harg, Hwhich.
    destruct path; [congruence | reflexivity].
  - intros Hb Harg Hwhich.
    now rewrite (resolve_not_bundled w args Hb), Harg, Hwhich.
  - apply resolve_flatcc_quiet.
Qed.

(** ** The calls of the compiler and the status of a run *)

Lemma runs_of_phases (t : list event) :
  filter is_run t = filter is_run (phases t).
Proof.
  unfold phases. induction t as [|e t IH]; [reflexivity|].
  destruct e; simpl; rewrite IH; reflexivity.
Qed.

Lemma artifacts_are_no_runs (l : list event) :
  forallb is_artifact l = true -> filter is_run l = [].
Proof.
  induction l as [|e l IH]; [reflexivity|]. simpl.
  intros H. apply andb_true_iff in H. destruct H as [He Hl].
  destruct e; try discriminate. simpl. now apply IH.
Qed.

Lemma all_artifacts_filter (l : list event) :
  forallb is_artifact l = true -> filter is_artifact l = l.
Proof.
  induction l as [|e l IH]; [reflexivity|]. simpl.
  intros H. apply andb_true_iff in H. destruct H as [He Hl].
  rewrite He. now rewrite IH.
Qed.

(** X3: a run of either generator calls the schema compiler at most once,
    and the call is [<compiler> -c -w -o <output> <schema>]: the compiler is
    [--flatcc] for the plain generator, and what the resolution settled on
    for the other. *)
Theorem compiler_called_once_with_fixed_flags (w : World) :
  (forall args,
     filter is_run (trace (Plain.main w args)) = [] \/
     filter is_run (trace (Plain.main w args))
     = [ EvRun [ Plain.flatcc args; $"-c"; $"-w"; $"-o"; Plain.output args;
                 Plain.schema args ] ]) /\
  (forall args,
     filter is_run (trace (Bundled.main w args)) = [] \/
     exists flatcc_path,
       snd (Bundled.resolve_flatcc w args) = Returned flatcc_path /\
       filter is_run (trace (Bundled.main w args))
       = [ EvRun [ flatcc_path; $"-c"; $"-w"; $"-o"; Bundled.output args;
                   Bundled.schema args ] ]).
Proof.
  split; intros args.
  - pose proof (plain_main_phases w args) as H. cbv zeta in H.
    rewrite runs_of_phases.
    destruct (w_read w (Plain.schema args)).
    2:{ left. destruct H as [-> _]. reflexivity. }
    right. destruct (w_run w _) as [[returncode err]|].
    2:{ destruct H as [-> _]. reflexivity. }
    destruct (returncode =? 0)%Z; destruct H as [-> _]; [|reflexivity].
    simpl. now rewrite (artifacts_are_no_runs _ (renders_only_plain w args _)).
  - pose proof (bundled_main_phases w args) as H. cbv zeta in H.
    rewrite runs_of_phases.
    destruct (w_read w (Bundled.schema args)).
    2:{ left. destruct H as [-> _]. reflexivity. }
    destruct (snd (Bundled.resolve_flatcc w args)) as [flatcc_path|e|code].
    2,3: left; destruct H as [-> _]; reflexivity.
    right. exists flatcc_path. split; [reflexivity|].
    destruct (w_run w _) as [[returncode err]|].
    2:{ destruct H as [-> _]. reflexivity. }
    destruct (returncode =? 0)%Z; destruct H as [-> _]; [|reflexivity].
    simpl.
    now rewrite (artifacts_are_no_runs _ (renders_only_bundled w args _)).
Qed.

Lemma never_exits_bind {A B} (m : prog A) (k : A -> prog B) :
  never_exits m -> (forall a, never_exits (k a)) -> never_exits (bind m k).
Proof.
  unfold never_exits. intros Hm Hk code. rewrite outcome_bind.
  destruct (snd m) as [a|e|c] eqn:E; [apply Hk | discriminate |].
  exfalso. apply (Hm c). first [reflexivity | exact E].
Qed.

Lemma never_exits_for_each {A} (xs : list A) (body : A -> prog unit) :
  (forall x, never_exits (body x)) -> never_exits (for_each xs body).
Proof.
  intros Hbody. induction xs as [|x xs IH]; [discriminate|].
  cbn [for_each]. apply never_exits_bind; auto.
Qed.

Lemma never_exits_generate_all (w : World) (self : RPCGenerator)
  (rpc_data : RpcData) (template suffix : str) :
  never_exits (generate_all w self rpc_data template suffix).
Proof.
  apply never_exits_for_each. intros service code.
  rewrite generate_one_eq. cbv zeta.
  destruct (w_render _ _ _ _); discriminate.
Qed.

Lemma never_exits_plain (w : World) (args : Plain.Args) (rpc_data : RpcData) :
  never_exits (plain_rendering w args rpc_data).
Proof.
  unfold plain_rendering.
  repeat (apply never_exits_bind;
          [apply never_exits_generate_all | intros _]).
  apply never_exits_generate_all.
Qed.

Lemma never_exits_bundled (w : World) (args : Bundled.Args)
  (rpc_data : RpcData) :
  never_exits (bundled_rendering w args rpc_data).
Proof.
  unfold bundled_rendering. apply never_exits_for_each. intros service.
  destruct (Bundled.is_broadcast service);
    repeat (apply never_exits_bind;
            [apply never_exits_generate_all | intros _]);
    apply never_exits_generate_all.
Qed.

Lemma status_after_rendering (p : prog Z) (r : prog unit) :
  never_exits r -> snd p = after_rendering (snd r) ->
  exit_status p = 0%Z \/ exit_status p = 1%Z.
Proof.
  unfold exit_status. intros Hr ->.
  destruct (snd r) as [[]|e|code] eqn:E; simpl; auto.
  exfalso. apply (Hr code). first [reflexivity | exact E].
Qed.

(** X4: once [parse_args] has accepted the command line, a run of either
    generator ends with status 0 or with status 1, whatever its world
    answers: [main] returns 0 or 1, leaves through [sys.exit] with 1 only,
    and an exception nobody catches ends the process with 1. *)
Theorem exit_status_is_zero_or_one (w : World) :
  (forall args,
     exit_status (Plain.main w args) = 0%Z \/
     exit_status (Plain.main w args) = 1%Z) /\
  (forall args,
     exit_status (Bundled.main w args) = 0%Z \/
     exit_status (Bundled.main w args) = 1%Z).
Proof.
  split; intros args.
  - pose proof (plain_main_phases w args) as H. cbv zeta in H.
    destruct (w_read w (Plain.schema args)).
    2:{ right. unfold exit_status. now destruct H as [_ ->]. }
    destruct (w_run w _) as [[returncode err]|].
    2:{ right. unfold exit_status. now destruct H as [_ ->]. }
    destruct (returncode =? 0)%Z; destruct H as [_ H].
    + eapply status_after_rendering; [apply never_exits_plain | exact H].
    + right. unfold exit_status. now rewrite H.
  - pose proof (bundled_main_phases w args) as H. cbv zeta in H.
    destruct (w_read w (Bundled.schema args)).
    2:{ right. unfold exit_status. now destruct H as [_ ->]. }
    destruct (resolve_flatcc_quiet w args) as [_ Hres].
    destruct (snd (Bundled.resolve_flatcc w args)) as [flatcc_path|e|code].
    2:{ right. unfold exit_status. now destruct H as [_ ->]. }
    2:{ right. unfold exit_status. destruct H as [_ ->].
        destruct Hres as [Hres|[path Hres]]; congruence. }
    destruct (w_run w _) as [[returncode err]|].
    2:{ right. unfold exit_status. now destruct H as [_ ->]. }
    destruct (returncode =? 0)%Z; destruct H as [_ H].
    + eapply status_after_rendering; [apply never_exits_bundled | exact H].
    + right. unfold exit_status. now rewrite H.
Qed.

Lemma filter_split {A} (f : A -> bool) (t l1 l2 : list A) (x : A) :
  filter f t = l1 ++ x :: l2 ->
  exists t1 t2,
    t = t1 ++ x :: t2 /\ filter f t1 = l1 /\ filter f t2 = l2.
Proof.
  revert l1; induction t as [|y t IH]; intros l1; simpl.
  - destruct l1; discriminate.
  - destruct (f y) eqn:E.
    + destruct l1 as [|z l1]; simpl.
      * intros [= -> H]. exists [], t. auto.
      * intros [= -> H]. destruct (IH l1 H) as (t1 & t2 & -> & H1 & H2).
        exists (z :: t1), t2. simpl. rewrite E, H1. auto.
    + intros H. destruct (IH l1 H) as (t1 & t2 & -> & H1 & H2).
      exists (y :: t1), t2. simpl. rewrite E. auto.
Qed.

Lemma artifacts_after_good_compiler (w : World) (p : prog Z) (e : event) :
  run_shape w p ->
  In e (trace p) -> is_artifact e = true ->
  exists before after argv err,
    trace p = before ++ EvRun argv :: after /\
    filter is_artifact before = [] /\
    In e after /\
    w_run w argv = Some (0%Z, err).
Proof.
  intros [path [H|[argv H]]] Hin He.
  - assert (Hf : In e (filter is_artifact (trace p)))
      by (apply filter_In; auto).
    rewrite artifacts_of_phases, H in Hf. destruct Hf.
  - assert (Hf : In e (filter is_artifact (trace p)))
      by (apply filter_In; auto).
    rewrite artifacts_of_phases in Hf.
    destruct (w_run w argv) as [[returncode err]|] eqn:E.
    + destruct (returncode =? 0)%Z eqn:E0.
      * destruct H as (artifacts & H & _). apply Z.eqb_eq in E0. subst.
        destruct (@filter_split _ is_phase (trace p) [EvRead path] artifacts
                    (EvRun argv) H) as (before & after & Ht & Hb & _).
        exists before, after, argv, err.
        assert (Hnone : filter is_artifact before = []).
        { rewrite artifacts_of_phases. unfold phases. rewrite Hb.
          reflexivity. }
        split; [exact Ht|]. split; [exact Hnone|]. split; [|exact E].
        rewrite Ht in Hin. apply in_app_or in Hin.
        destruct Hin as [Hin|[Hin|Hin]].
        -- assert (Hx : In e (filter is_artifact before))
             by (apply filter_In; auto).
           rewrite Hnone in Hx. destruct Hx.
        -- subst e. discriminate.
        -- exact Hin.
      * destruct H as [H _]. rewrite H in Hf. destruct Hf.
    + rewrite H in Hf. destruct Hf.
Qed.

(** X5: whatever is written in a run of either generator is written after
    the call of the schema compiler, and that call ended with 0: the run
    splits at a call of the compiler that ended with 0, no artifact stands
    before the call and every artifact stands after it.  So a run without
    such a call (no compiler, a compiler that could not be started or that
    failed, an unreadable schema) writes no artifact. *)
Theorem artifacts_need_a_compiled_schema (w : World) (e : event) :
  is_artifact e = true ->
  (forall args,
     In e (trace (Plain.main w args)) ->
     exists before after argv err,
       trace (Plain.main w args) = before ++ EvRun argv :: after /\
       filter is_artifact before = [] /\
       In e after /\
       w_run w argv = Some (0%Z, err)) /\
  (forall args,
     In e (trace (Bundled.main w args)) ->
     exists before after argv err,
       trace (Bundled.main w args) = before ++ EvRun argv :: after /\
       filter is_artifact before = [] /\
       In e after /\
       w_run w argv = Some (0%Z, err)).
Proof.
  intros He. split; intros args Hin.
  - exact (@artifacts_after_good_compiler w _ e (plain_run_shape w args)
             Hin He).
  - exact (@artifacts_after_good_compiler w _ e (bundled_run_shape w args)
             Hin He).
Qed.

(** The header of the calculator service is written after the call of a
    compiler that ended with 0, and nothing is written before the call. *)
Lemma artifacts_need_a_compiled_schema_witness :
  exists before after argv err,
    trace (Plain.main (example_world calculator_schema 0) plain_args)
    = before ++ EvRun argv :: after /\
    filter is_artifact before = [] /\
    In (EvArtifact $"api.h.j2"
          (render_context (example_data calculator_schema) calculator_service)
          $"generated" $"demo_calculator_api.h" []) after /\
    w_run (example_world calculator_schema 0) argv = Some (0%Z, err).
Proof.
  refine (proj1 (@artifacts_need_a_compiled_schema
                   (example_world calculator_schema 0)
                   (EvArtifact $"api.h.j2"
                      (render_context (example_data calculator_schema)
                         calculator_service)
                      $"generated" $"demo_calculator_api.h" [])
                   eq_refl) plain_args _).
  vm_compute. repeat (first [left; reflexivity | right]).
Defined.

(** ** Runs that stop early *)

(** X6: when the schema file cannot be read, a run of either generator has
    made the output directory, announced the parse and tried to read the
    file, and nothing more: the error of [open] is not caught and the status
    is 1. *)
Theorem unreadable_schema_stops_the_run (w : World) :
  (forall args,
     w_read w (Plain.schema args) = None ->
     Plain.main w args
     = ([ EvMkdir (Plain.output args);
          EvPrint ($"Parsing schema: " ++ Plain.schema args);
          EvRead (Plain.schema args) ],
        Raised (FileNotFoundError (Plain.schema args))) /\
     exit_status (Plain.main w args) = 1%Z) /\
  (forall args,
     w_read w (Bundled.schema args) = None ->
     Bundled.main w args
     = ([ EvMkdir (Bundled.output args);
          EvPrint ($"Parsing schema: " ++ Bundled.schema args);
          EvRead (Bundled.schema args) ],
        Raised (FileNotFoundError (Bundled.schema args))) /\
     exit_status (Bundled.main w args) = 1%Z).
Proof.
  split; intros args Hread.
  - assert (E : Plain.main w args
                = ([ EvMkdir (Plain.output args);
                     EvPrint ($"Parsing schema: " ++ Plain.schema args);
                     EvRead (Plain.schema args) ],
                   Raised (FileNotFoundError (Plain.schema args)))).
    { unfold Plain.main. rewrite plain_parse_eq.
      cbn [Plain.RPCParser_init p_schema_file]. rewrite Hread. reflexivity. }
    split; [exact E | now rewrite E].
  - assert (E : Bundled.main w args
                = ([ EvMkdir (Bundled.output args);
                     EvPrint ($"Parsing schema: " ++ Bundled.schema args);
                     EvRead (Bundled.schema args) ],
                   Raised (FileNotFoundError (Bundled.schema args)))).
    { unfold Bundled.main.
      change (Bundled.parse w (Bundled.RPCParser_init w (Bundled.schema args)))
        with (Plain.parse w (Plain.RPCParser_init w (Bundled.schema args))).
      rewrite plain_parse_eq.
      cbn [Plain.RPCParser_init p_schema_file]. rewrite Hread. reflexivity. }
    split; [exact E | now rewrite E].
Qed.

(** In a world without files both generators stop after the read. *)
Lemma unreadable_schema_stops_the_run_witness :
  exit_status (Plain.main bare_world plain_args) = 1%Z /\
  exit_status (Bundled.main bare_world bundled_args) = 1%Z.
Proof.
  split.
  - apply (proj1 (unreadable_schema_stops_the_run bare_world) plain_args
             eq_refl).
  - apply (proj2 (unreadable_schema_stops_the_run bare_world) bundled_args
             eq_refl).
Defined.



(** ** Runs that succeed *)

Lemma generate_one_returns (w : World) (self : RPCGenerator)
  (rpc_data : RpcData) (template suffix : str) (service : Service) :
  snd (generate_one w self rpc_data template suffix service) = Returned tt
  <-> w_render w (g_template_dir self) template
        (render_context rpc_data service) <> None.
Proof.
  rewrite generate_one_eq. cbv zeta. fold (render_context rpc_data service).
  destruct (w_render _ _ _ _); simpl; split; congruence.
Qed.

Lemma for_each_returns {A} (xs : list A) (body : A -> prog unit) :
  snd (for_each xs body) = Returned tt
  <-> forall x, In x xs -> snd (body x) = Returned tt.
Proof.
  induction xs as [|x xs IH]; cbn [for_each].
  - split; [intros _ x [] | reflexivity].
  - rewrite outcome_bind. split.
    + intros H y [<-|Hy].
      * destruct (snd (body x)) as [[]|e|c]; [reflexivity|discriminate..].
      * destruct (snd (body x)) as [[]|e|c]; [|discriminate..].
        now apply IH.
    + intros H. rewrite (H x (or_introl eq_refl)). apply IH.
      intros y Hy. apply H. now right.
Qed.

Lemma seq_returns (m k : prog unit) :
  snd (m ;; k) = Returned tt <-> snd m = Returned tt /\ snd k = Returned tt.
Proof.
  rewrite outcome_bind. destruct (snd m) as [[]|e|c]; split;
    try tauto; intros H; try discriminate; destruct H; discriminate.
Qed.

Lemma returns_when_generate_all (w : World) (self : RPCGenerator)
  (rpc_data : RpcData) (template suffix : str) :
  returns_when w (g_template_dir self)
    (generate_all w self rpc_data template suffix) rpc_data
    [(template, suffix)].
Proof.
  unfold returns_when, generate_all, renders. rewrite for_each_returns.
  split.
  - intros H service Hin t s [[= <- <-]|[]].
    apply (proj1 (generate_one_returns w self rpc_data template suffix
                    service)).
    now apply H.
  - intros H service Hin.
    apply (proj2 (generate_one_returns w self rpc_data template suffix
                    service)).
    apply (H service Hin template suffix). now left.
Qed.

Lemma returns_when_then (w : World) (dir : str) (m k : prog unit)
  (rpc_data : RpcData) (l1 l2 : list (str * str)) :
  returns_when w dir m rpc_data l1 -> returns_when w dir k rpc_data l2 ->
  returns_when w dir (m ;; k) rpc_data (l1 ++ l2).
Proof.
  unfold returns_when, renders. intros Hm Hk.
  rewrite seq_returns, Hm, Hk. split.
  - intros [H1 H2] service Hin t s Hl. apply in_app_or in Hl.
    destruct Hl; [now apply (H1 service Hin t s)
                 | now apply (H2 service Hin t s)].
  - intros H. split; intros service Hin t s Hl;
      apply (H service Hin t s); apply in_or_app; auto.
Qed.

Lemma returns_when_same_set (w : World) (dir : str) (p : prog unit)
  (rpc_data : RpcData) (l1 l2 : list (str * str)) :
  (forall x, In x l1 <-> In x l2) ->
  returns_when w dir p rpc_data l1 -> returns_when w dir p rpc_data l2.
Proof.
  unfold returns_when, renders. intros Hset ->.
  split; intros H service Hin t s Hl; apply (H service Hin t s);
    now apply Hset.
Qed.

Lemma plain_rendering_returns (w : World) (args : Plain.Args)
  (rpc_data : RpcData) :
  returns_when w (Plain.templates args) (plain_rendering w args rpc_data)
    rpc_data plain_templates.
Proof.
  unfold plain_rendering, plain_templates. cbv zeta.
  set (generator := Plain.RPCGenerator_init _ _).
  change (Plain.templates args) with (g_template_dir generator).
  apply (@returns_when_then w _ _ _ rpc_data [_] [_; _]);
    [apply returns_when_generate_all|].
  apply (@returns_when_then w _ _ _ rpc_data [_] [_]);
    apply returns_when_generate_all.
Qed.

Lemma broadcast_block_returns (w : World) (generator : RPCGenerator)
  (rpc_data : RpcData) :
  returns_when w (g_template_dir generator)
    (Bundled.generate_broadcast_api w generator rpc_data ;;
     Bundled.generate_broadcast_publisher w generator rpc_data ;;
     Bundled.generate_broadcast_subscriber w generator rpc_data)
    rpc_data broadcast_templates.
Proof.
  unfold broadcast_templates.
  apply (@returns_when_then w _ _ _ rpc_data [_] [_; _]);
    [apply returns_when_generate_all|].
  apply (@returns_when_then w _ _ _ rpc_data [_] [_]);
    apply returns_when_generate_all.
Qed.

Lemma request_response_block_returns (w : World) (generator : RPCGenerator)
  (rpc_data : RpcData) :
  returns_when w (g_template_dir generator)
    (Bundled.generate_header w generator rpc_data ;;
     Bundled.generate_common_header w generator rpc_data ;;
     Bundled.generate_server_stub w generator rpc_data ;;
     Bundled.generate_client_code w generator rpc_data ;;
     Bundled.generate_common_code w generator rpc_data)
    rpc_data request_response_templates.
Proof.
  apply returns_when_same_set with
    (l1 := [ ($"api.h.j2", $"_api.h");
             ($"rpc_common.h.j2", $"_rpc_common.h");
             ($"server_stub.c.j2", $"_server_stub.c");
             ($"client.c.j2", $"_client.c");
             ($"rpc_common.c.j2", $"_rpc_common.c") ]).
  { intros x. unfold request_response_templates. simpl. tauto. }
  apply (@returns_when_then w _ _ _ rpc_data [_] [_; _; _; _]);
    [apply returns_when_generate_all|].
  apply (@returns_when_then w _ _ _ rpc_data [_] [_; _; _]);
    [apply returns_when_generate_all|].
  apply (@returns_when_then w _ _ _ rpc_data [_] [_; _]);
    [apply returns_when_generate_all|].
  apply (@returns_when_then w _ _ _ rpc_data [_] [_]);
    apply returns_when_generate_all.
Qed.

Lemma bundled_rendering_returns (w : World) (args : Bundled.Args)
  (rpc_data : RpcData) :
  snd (bundled_rendering w args rpc_data) = Returned tt
  <-> forall chooser service,
        In chooser (services rpc_data) -> In service (services rpc_data) ->
        renders w (Bundled.templates args) rpc_data (mode_templates chooser)
          service.
Proof.
  unfold bundled_rendering. cbv zeta.
  set (generator := Bundled.RPCGenerator_init _ _).
  change (Bundled.templates args) with (g_template_dir generator).
  rewrite for_each_returns. unfold mode_templates.
  split; intros H chooser.
  - intros service Hc. specialize (H chooser Hc). revert service.
    destruct (Bundled.is_broadcast chooser).
    + now apply broadcast_block_returns.
    + now apply request_response_block_returns.
  - intros Hc. specialize (fun service => H chooser service Hc).
    destruct (Bundled.is_broadcast chooser).
    + now apply broadcast_block_returns.
    + now apply request_response_block_returns.
Qed.

(** X8: when a run can end with status 0.  The plain generator returns 0
    only when the schema file was read, the compiler called on it ended with
    0 and each of its three templates rendered for every service of the
    schema.  The other generator returns 0 only when the schema file was
    read, a compiler was found, it ended with 0, and for every service of the
    schema the templates of its branch rendered for all the services of the
    schema. *)
Theorem run_succeeds_only_when (w : World) :
  (forall args,
     snd (Plain.main w args) = Returned 0%Z ->
     exists content data err,
       w_read w (Plain.schema args) = Some content /\
       Plain.parse_content (Plain.RPCParser_init w (Plain.schema args))
         content = Returned data /\
       w_run w [ Plain.flatcc args; $"-c"; $"-w"; $"-o";
                 Plain.output args; Plain.schema args ]
       = Some (0%Z, err) /\
       forall service,
         In service (services data) ->
         renders w (Plain.templates args) data plain_templates service) /\
  (forall args,
     snd (Bundled.main w args) = Returned 0%Z ->
     exists content data flatcc_path err,
       w_read w (Bundled.schema args) = Some content /\
       Bundled.parse_content
         (Bundled.RPCParser_init w (Bundled.schema args)) content
       = Returned data /\
       snd (Bundled.resolve_flatcc w args) = Returned flatcc_path /\
       w_run w [ flatcc_path; $"-c"; $"-w"; $"-o"; Bundled.output args;
                 Bundled.schema args ]
       = Some (0%Z, err) /\
       forall chooser service,
         In chooser (services data) -> In service (services data) ->
         renders w (Bundled.templates args) data (mode_templates chooser)
           service).
Proof.
  split; intros args Hok.
  - pose proof (plain_main_phases w args) as H. cbv zeta in H.
    unfold flatcc_argv in H.
    destruct (w_read w (Plain.schema args)) as [content|];
      [|destruct H; congruence].
    destruct (w_run w _) as [[returncode err]|]; [|destruct H; congruence].
    destruct (returncode =? 0)%Z eqn:E0; [|destruct H; congruence].
    apply Z.eqb_eq in E0. subst returncode.
    destruct H as [_ H]. rewrite Hok in H. symmetry in H.
    apply after_rendering_ok in H.
    exists content, (parsed_schema (Plain.RPCParser_init w (Plain.schema args))
                       content), err.
    split; [reflexivity|]. split; [apply parse_content_eq|].
    split; [reflexivity|].
    now apply plain_rendering_returns.
  - pose proof (bundled_main_phases w args) as H. cbv zeta in H.
    unfold flatcc_argv in H.
    destruct (w_read w (Bundled.schema args)) as [content|];
      [|destruct H; congruence].
    destruct (snd (Bundled.resolve_flatcc w args)) as [flatcc_path|e|code];
      [|destruct H; congruence|destruct H; congruence].
    destruct (w_run w _) as [[returncode err]|] eqn:Erun;
      [|destruct H; congruence].
    destruct (returncode =? 0)%Z eqn:E0; [|destruct H; congruence].
    apply Z.eqb_eq in E0. subst returncode.
    destruct H as [_ H]. rewrite Hok in H. symmetry in H.
    apply after_rendering_ok in H.
    exists content,
      (parsed_schema (Plain.RPCParser_init w (Bundled.schema args)) content),
      flatcc_path, err.
    split; [reflexivity|]. split; [apply parse_content_eq|].
    split; [reflexivity|]. split; [exact Erun|].
    now apply bundled_rendering_returns.
Qed.

(** ** What is written *)

Lemma artifacts_satisfy_bind {A B} (P : event -> Prop) (m : prog A)
  (k : A -> prog B) :
  artifacts_satisfy P m -> (forall a, artifacts_satisfy P (k a)) ->
  artifacts_satisfy P (bind m k).
Proof.
  unfold artifacts_satisfy. intros Hm Hk e. rewrite trace_bind.
  intros Hin He. apply in_app_or in Hin. destruct Hin as [Hin|Hin].
  - now apply Hm.
  - destruct (snd m) as [a|x|c]; [now apply (Hk a) | destruct Hin..].
Qed.

Lemma artifacts_satisfy_for_each {A} (P : event -> Prop) (xs : list A)
  (body : A -> prog unit) :
  (forall x, In x xs -> artifacts_satisfy P (body x)) ->
  artifacts_satisfy P (for_each xs body).
Proof.
  induction xs as [|x xs IH]; intros Hbody.
  - intros e [].
  - cbn [for_each]. apply artifacts_satisfy_bind.
    + apply Hbody. now left.
    + intros _. apply IH. intros y Hy. apply Hbody. now right.
Qed.

Lemma artifacts_satisfy_weaken {A} (P Q : event -> Prop) (p : prog A) :
  (forall e, P e -> Q e) -> artifacts_satisfy P p -> artifacts_satisfy Q p.
Proof. unfold artifacts_satisfy. auto. Qed.

Lemma artifact_from_more (w : World) (tdir odir : str) (rpc_data : RpcData)
  (l1 l2 : list (str * str)) (e : event) :
  (forall x, In x l1 -> In x l2) ->
  artifact_from w tdir odir rpc_data l1 e ->
  artifact_from w tdir odir rpc_data l2 e.
Proof.
  intros Hsub (service & template & suffix & out & H1 & H2 & H3 & H4).
  exists service, template, suffix, out. auto.
Qed.

Lemma generate_all_artifacts (w : World) (self : RPCGenerator)
  (rpc_data : RpcData) (template suffix : str) :
  artifacts_satisfy
    (artifact_from w (g_template_dir self) (g_output_dir self) rpc_data
       [(template, suffix)])
    (generate_all w self rpc_data template suffix).
Proof.
  unfold generate_all. apply artifacts_satisfy_for_each.
  intros service Hin e. rewrite generate_one_eq. cbv zeta.
  fold (render_context rpc_data service).
  destruct (w_render _ _ _ _) as [out|] eqn:E; [|intros []].
  intros [<-|[<-|[]]] He; [|discriminate].
  exists service, template, suffix, out. repeat split; auto. now left.
Qed.

Lemma generate_all_artifacts_in (w : World) (self : RPCGenerator)
  (rpc_data : RpcData) (template suffix : str) (templates : list (str * str)) :
  In (template, suffix) templates ->
  artifacts_satisfy
    (artifact_from w (g_template_dir self) (g_output_dir self) rpc_data
       templates)
    (generate_all w self rpc_data template suffix).
Proof.
  intros Hin. eapply artifacts_satisfy_weaken;
    [|apply generate_all_artifacts].
  intros e. apply artifact_from_more. intros x [<-|[]]. exact Hin.
Qed.

Lemma plain_rendering_artifacts (w : World) (args : Plain.Args)
  (rpc_data : RpcData) :
  artifacts_satisfy
    (artifact_from w (Plain.templates args) (Plain.output args) rpc_data
       plain_templates)
    (plain_rendering w args rpc_data).
Proof.
  unfold plain_rendering. cbv zeta.
  set (generator := Plain.RPCGenerator_init _ _).
  change (Plain.templates args) with (g_template_dir generator).
  change (Plain.output args) with (g_output_dir generator).
  repeat (apply artifacts_satisfy_bind; [|intros _]);
    apply generate_all_artifacts_in; unfold plain_templates; simpl; tauto.
Qed.

Lemma bundled_rendering_artifacts (w : World) (args : Bundled.Args)
  (rpc_data : RpcData) :
  artifacts_satisfy
    (fun e =>
       exists chooser,
         In chooser (services rpc_data) /\
         artifact_from w (Bundled.templates args) (Bundled.output args)
           rpc_data (mode_templates chooser) e)
    (bundled_rendering w args rpc_data).
Proof.
  unfold bundled_rendering. cbv zeta.
  set (generator := Bundled.RPCGenerator_init _ _).
  change (Bundled.templates args) with (g_template_dir generator).
  change (Bundled.output args) with (g_output_dir generator).
  apply artifacts_satisfy_for_each. intros chooser Hc.
  apply artifacts_satisfy_weaken with
    (P := artifact_from w (g_template_dir generator) (g_output_dir generator)
            rpc_data (mode_templates chooser)).
  { intros e He. now exists chooser. }
  unfold mode_templates.
  destruct (Bundled.is_broadcast chooser);
    repeat (apply artifacts_satisfy_bind; [|intros _]);
    apply generate_all_artifacts_in;
    unfold broadcast_templates, request_response_templates; simpl; tauto.
Qed.

Lemma in_artifacts_of_phases (t r : list event) (read run e : event) :
  is_artifact read = false -> is_artifact run = false ->
  phases t = read :: run :: phases r ->
  In e t -> is_artifact e = true -> In e r.
Proof.
  intros Hread Hrun H Hin He.
  assert (Hf : In e (filter is_artifact t)) by (apply filter_In; auto).
  rewrite artifacts_of_phases, H in Hf. simpl in Hf.
  rewrite Hread, Hrun, <- artifacts_of_phases in Hf.
  now apply filter_In in Hf.
Qed.

Lemma no_artifact_in (t : list event) (l : list event) (e : event) :
  phases t = l -> filter is_artifact l = [] ->
  In e t -> is_artifact e = true -> False.
Proof.
  intros H Hl Hin He.
  assert (Hf : In e (filter is_artifact t)) by (apply filter_In; auto).
  rewrite artifacts_of_phases, H, Hl in Hf. destruct Hf.
Qed.

Lemma plain_main_artifacts (w : World) (args : Plain.Args) (e : event) :
  In e (trace (Plain.main w args)) -> is_artifact e = true ->
  exists content,
    w_read w (Plain.schema args) = Some content /\
    In e (trace (plain_rendering w args
                   (parsed_schema (Plain.RPCParser_init w (Plain.schema args))
                      content))).
Proof.
  intros Hin He. pose proof (plain_main_phases w args) as H. cbv zeta in H.
  destruct (w_read w (Plain.schema args)) as [content|].
  2:{ destruct H as [H _]. exfalso; eapply no_artifact_in; [exact H|reflexivity|exact Hin|exact He]. }
  exists content. split; [reflexivity|].
  destruct (w_run w _) as [[returncode err]|].
  2:{ destruct H as [H _]. exfalso; eapply no_artifact_in; [exact H|reflexivity|exact Hin|exact He]. }
  destruct (returncode =? 0)%Z; destruct H as [H _].
  - eapply in_artifacts_of_phases; [| |exact H|exact Hin|exact He];
      reflexivity.
  - exfalso; eapply no_artifact_in; [exact H|reflexivity|exact Hin|exact He].
Qed.

Lemma bundled_main_artifacts (w : World) (args : Bundled.Args) (e : event) :
  In e (trace (Bundled.main w args)) -> is_artifact e = true ->
  exists content,
    w_read w (Bundled.schema args) = Some content /\
    In e (trace (bundled_rendering w args
                   (parsed_schema
                      (Plain.RPCParser_init w (Bundled.schema args))
                      content))).
Proof.
  intros Hin He. pose proof (bundled_main_phases w args) as H. cbv zeta in H.
  destruct (w_read w (Bundled.schema args)) as [content|].
  2:{ destruct H as [H _]. exfalso; eapply no_artifact_in; [exact H|reflexivity|exact Hin|exact He]. }
  exists content. split; [reflexivity|].
  destruct (snd (Bundled.resolve_flatcc w args)) as [flatcc_path|x|code].
  2,3: destruct H as [H _];
       exfalso; eapply no_artifact_in; [exact H|reflexivity|exact Hin|exact He].
  destruct (w_run w _) as [[returncode err]|].
  2:{ destruct H as [H _]. exfalso; eapply no_artifact_in; [exact H|reflexivity|exact Hin|exact He]. }
  destruct (returncode =? 0)%Z; destruct H as [H _].
  - eapply in_artifacts_of_phases; [| |exact H|exact Hin|exact He];
      reflexivity.
  - exfalso; eapply no_artifact_in; [exact H|reflexivity|exact Hin|exact He].
Qed.

(** X9: every artifact a run of either generator writes is the artifact of
    a service of the parsed schema: it is rendered from one of the templates
    of the generator (for the generator with the bundled compiler, of the
    mode of some service of the schema), with a context that holds the
    namespace, the stem of the schema path, the service and its name in lower
    and upper case, and written in the output directory of the command line
    as [{namespace}_{service}{ending}] in lower case. *)
Theorem every_artifact_belongs_to_a_service (w : World) (template : str)
  (ctx : RenderContext) (dir filename output_text : str) :
  (forall args,
     In (EvArtifact template ctx dir filename output_text)
       (trace (Plain.main w args)) ->
     exists content data service suffix,
       w_read w (Plain.schema args) = Some content /\
       Plain.parse_content (Plain.RPCParser_init w (Plain.schema args))
         content = Returned data /\
       In service (services data) /\
       In (template, suffix) plain_templates /\
       ctx = {| c_namespace := namespace data;
                c_schema_basename := w_stem w (Plain.schema args);
                c_service := service;
                c_service_name_lower := lower (s_name service);
                c_service_name_upper := upper (s_name service) |} /\
       dir = Plain.output args /\
       filename
       = lower (namespace data) ++ $"_" ++ lower (s_name service) ++ suffix /\
       w_render w (Plain.templates args) template ctx = Some output_text) /\
  (forall args,
     In (EvArtifact template ctx dir filename output_text)
       (trace (Bundled.main w args)) ->
     exists content data chooser service suffix,
       w_read w (Bundled.schema args) = Some content /\
       Bundled.parse_content
         (Bundled.RPCParser_init w (Bundled.schema args)) content
       = Returned data /\
       In chooser (services data) /\
       In service (services data) /\
       In (template, suffix) (mode_templates chooser) /\
       ctx = {| c_namespace := namespace data;
                c_schema_basename := w_stem w (Bundled.schema args);
                c_service := service;
                c_service_name_lower := lower (s_name service);
                c_service_name_upper := upper (s_name service) |} /\
       dir = Bundled.output args /\
       filename
       = lower (namespace data) ++ $"_" ++ lower (s_name service) ++ suffix /\
       w_render w (Bundled.templates args) template ctx = Some output_text).
Proof.
  split; intros args Hin.
  - destruct (plain_main_artifacts w args _ Hin eq_refl)
      as (content & Hread & Hr).
    pose proof (plain_rendering_artifacts w args _ _ Hr eq_refl) as Hart.
    destruct Hart as (service & t & suffix & out & Hs & Ht & Hrender & He).
    injection He as -> -> -> -> ->.
    exists content,
      (parsed_schema (Plain.RPCParser_init w (Plain.schema args)) content),
      service, suffix.
    split; [exact Hread|]. split; [apply parse_content_eq|].
    repeat split; auto.
  - destruct (bundled_main_artifacts w args _ Hin eq_refl)
      as (content & Hread & Hr).
    pose proof (bundled_rendering_artifacts w args _ _ Hr eq_refl) as Hart.
    destruct Hart as (chooser & Hc & service & t & suffix & out & Hs & Ht
                    & Hrender & He).
    injection He as -> -> -> -> ->.
    exists content,
      (parsed_schema (Plain.RPCParser_init w (Bundled.schema args)) content),
      chooser, service, suffix.
    split; [exact Hread|]. split; [apply parse_content_eq|].
    repeat split; auto.
Qed.

Lemma lower_char_not_upper (c : ascii) : isupper (lower_char c) = false.
Proof. destruct c as [[] [] [] [] [] [] [] []]; reflexivity. Qed.

Lemma lower_is_lower_case (s : str) : lower_case (lower s).
Proof.
  unfold lower_case, lower. induction s as [|c s IH]; [reflexivity|].
  simpl. now rewrite lower_char_not_upper, IH.
Qed.

Lemma lower_case_app (a b : str) :
  lower_case a -> lower_case b -> lower_case (a ++ b).
Proof.
  unfold lower_case. intros Ha Hb. now rewrite forallb_app, Ha, Hb.
Qed.

Lemma artifact_name_lower_case (ns svc suffix : str) :
  lower_case suffix -> lower_case (artifact_name ns svc suffix).
Proof.
  intros H. unfold artifact_name.
  repeat apply lower_case_app; auto using lower_is_lower_case. reflexivity.
Qed.

Lemma endings_lower_case (template suffix : str) :
  In (template, suffix)
    (plain_templates ++ broadcast_templates ++ request_response_templates) ->
  lower_case suffix.
Proof.
  simpl. intros H.
  repeat (destruct H as [[= <- <-]|H]; [reflexivity|]). destruct H.
Qed.

(** X10: no file a run of either generator writes has one of the capital
    letters [A] to [Z] in its name, whatever the case of the namespace and of
    the service names. *)
Theorem artifact_names_are_lower_case (w : World) (template : str)
  (ctx : RenderContext) (dir filename output_text : str) :
  (forall args,
     In (EvArtifact template ctx dir filename output_text)
       (trace (Plain.main w args)) ->
     lower_case filename) /\
  (forall args,
     In (EvArtifact template ctx dir filename output_text)
       (trace (Bundled.main w args)) ->
     lower_case filename).
Proof.
  split; intros args Hin.
  - destruct (plain_main_artifacts w args _ Hin eq_refl)
      as (content & Hread & Hr).
    pose proof (plain_rendering_artifacts w args _ _ Hr eq_refl) as Hart.
    destruct Hart as (service & t & suffix & out & Hs & Ht & Hrender & He).
    injection He as -> -> -> -> ->.
    apply artifact_name_lower_case.
    apply (@endings_lower_case t). apply in_or_app. now left.
  - destruct (bundled_main_artifacts w args _ Hin eq_refl)
      as (content & Hread & Hr).
    pose proof (bundled_rendering_artifacts w args _ _ Hr eq_refl) as Hart.
    destruct Hart as (chooser & Hc & service & t & suffix & out & Hs & Ht
                    & Hrender & He).
    injection He as -> -> -> -> ->.
    apply artifact_name_lower_case.
    apply (@endings_lower_case t). apply in_or_app. right.
    unfold mode_templates in Ht. apply in_or_app.
    destruct (Bundled.is_broadcast chooser); auto.
Qed.

(** ** Templates that fail *)

Lemma written_files_app (t1 t2 : list event) :
  written_files (t1 ++ t2) = written_files t1 ++ written_files t2.
Proof. apply flat_map_app. Qed.

Lemma written_files_artifacts (t : list event) :
  written_files t = written_files (filter is_artifact t).
Proof.
  induction t as [|e t IH]; [reflexivity|].
  destruct e; simpl; rewrite IH; reflexivity.
Qed.

Lemma generate_stops_at_failure (w : World) (self : RPCGenerator)
  (rpc_data : RpcData) (template suffix : str)
  (before after : list Service) (failing : Service) :
  (forall service,
     In service before ->
     w_render w (g_template_dir self) template
       (render_context rpc_data service) <> None) ->
  w_render w (g_template_dir self) template (render_context rpc_data failing)
  = None ->
  snd (for_each (before ++ failing :: after)
         (generate_one w self rpc_data template suffix))
  = Raised (TemplateError template) /\
  written_files
    (trace (for_each (before ++ failing :: after)
              (generate_one w self rpc_data template suffix)))
  = map (fun service =>
           artifact_name (namespace rpc_data) (s_name service) suffix)
      before.
Proof.
  intros Hbefore Hfail. induction before as [|s before IH];
    cbn [app for_each]; rewrite outcome_bind, trace_bind, generate_one_eq;
    cbv zeta.
  - fold (render_context rpc_data failing). rewrite Hfail.
    split; reflexivity.
  - fold (render_context rpc_data s).
    destruct (w_render w (g_template_dir self) template
                (render_context rpc_data s)) as [out|] eqn:E.
    + destruct IH as [IH1 IH2]; [intros x Hx; apply Hbefore; now right|].
      cbn [snd trace fst]. split; [exact IH1|].
      rewrite written_files_app, IH2. reflexivity.
    + exfalso. now apply (Hbefore s (or_introl eq_refl)).
Qed.

(** X11: a generating method goes through the services in the order of the
    schema and stops at the first one its template fails for: it raises the
    error of the template, the files of the services before that one are
    written and stay, and no file of a later service is written. *)
Theorem failed_template_stops_the_method (w : World) (self : RPCGenerator)
  (rpc_data : RpcData) (template suffix : str)
  (before after : list Service) (failing : Service) :
  services rpc_data = before ++ failing :: after ->
  (forall service,
     In service before ->
     w_render w (g_template_dir self) template
       {| c_namespace := namespace rpc_data;
          c_schema_basename := schema_basename rpc_data;
          c_service := service;
          c_service_name_lower := lower (s_name service);
          c_service_name_upper := upper (s_name service) |} <> None) ->
  w_render w (g_template_dir self) template
    {| c_namespace := namespace rpc_data;
       c_schema_basename := schema_basename rpc_data;
       c_service := failing;
       c_service_name_lower := lower (s_name failing);
       c_service_name_upper := upper (s_name failing) |} = None ->
  snd (generate_all w self rpc_data template suffix)
  = Raised (TemplateError template) /\
  written_files (trace (generate_all w self rpc_data template suffix))
  = map (fun service =>
           lower (namespace rpc_data) ++ $"_" ++ lower (s_name service)
           ++ suffix)
      before.
Proof.
  intros Hservices Hbefore Hfail. unfold generate_all. rewrite Hservices.
  now apply generate_stops_at_failure.
Qed.

(** With the services [A], [B], [C] and templates that fail for [B], the
    header method of the plain generator writes the header of [A] alone. *)
Lemma failed_template_stops_the_method_witness :
  snd (Plain.generate_header world_failing_for_b
         (Plain.RPCGenerator_init $"generated" $"tools/templates")
         three_services)
  = Raised (TemplateError $"api.h.j2") /\
  written_files
    (trace (Plain.generate_header world_failing_for_b
              (Plain.RPCGenerator_init $"generated" $"tools/templates")
              three_services))
  = [ $"demo_a_api.h" ].
Proof.
  apply (@failed_template_stops_the_method world_failing_for_b
           (Plain.RPCGenerator_init $"generated" $"tools/templates")
           three_services $"api.h.j2" $"_api.h"
           [ {| s_name := $"A"; s_methods := [] |} ]
           [ {| s_name := $"C"; s_methods := [] |} ]
           {| s_name := $"B"; s_methods := [] |} eq_refl).
  - intros service [<-|[]]. discriminate.
  - reflexivity.
Defined.

Lemma generate_all_files (w : World) (self : RPCGenerator)
  (rpc_data : RpcData) (template suffix : str) :
  snd (generate_all w self rpc_data template suffix) = Returned tt ->
  written_files (trace (generate_all w self rpc_data template suffix))
  = map (fun service =>
           artifact_name (namespace rpc_data) (s_name service) suffix)
      (services rpc_data).
Proof.
  unfold generate_all. induction (services rpc_data) as [|s ss IH];
    [reflexivity|].
  cbn [for_each]. intros Hok. apply bound_returns in Hok.
  destruct Hok as ([] & Hone & Hrest & ->).
  rewrite written_files_app, (IH Hrest). clear IH Hrest.
  rewrite generate_one_eq in *. cbv zeta in *.
  destruct (w_render _ _ _ _); [reflexivity | discriminate].
Qed.

Lemma artifacts_after_the_compiler (t r : list event) (read run : event) :
  is_artifact read = false -> is_artifact run = false ->
  phases t = read :: run :: phases r ->
  filter is_artifact t = filter is_artifact r.
Proof.
  intros Hread Hrun H.
  rewrite (artifacts_of_phases t), H. simpl.
  now rewrite Hread, Hrun, <- artifacts_of_phases.
Qed.

(** X12: nothing is cleaned up after a template fails.  When the schema is
    read and compiled and the header template renders for every service,
    but the server template fails for the first service, the plain generator
    raises the error of that template, ends with status 1, and the headers
    of all the services are what it has written. *)
Theorem partial_artifacts_are_kept (w : World) (args : Plain.Args)
  (content err : str) (data : RpcData) (first : Service)
  (others : list Service) :
  w_read w (Plain.schema args) = Some content ->
  Plain.parse_content (Plain.RPCParser_init w (Plain.schema args)) content
  = Returned data ->
  w_run w [ Plain.flatcc args; $"-c"; $"-w"; $"-o"; Plain.output args;
            Plain.schema args ] = Some (0%Z, err) ->
  services data = first :: others ->
  (forall service,
     In service (services data) ->
     w_render w (Plain.templates args) $"api.h.j2"
       (render_context data service) <> None) ->
  w_render w (Plain.templates args) $"server_stub.c.j2"
    (render_context data first) = None ->
  snd (Plain.main w args) = Raised (TemplateError $"server_stub.c.j2") /\
  exit_status (Plain.main w args) = 1%Z /\
  written_files (trace (Plain.main w args))
  = map (fun service =>
           lower (namespace data) ++ $"_" ++ lower (s_name service)
           ++ $"_api.h")
      (services data).
Proof.
  intros Hread Hparse Hrun Hservices Hheader Hstub.
  rewrite parse_content_eq in Hparse. injection Hparse as Hdata.
  pose proof (plain_main_phases w args) as H. cbv zeta in H.
  unfold flatcc_argv in H. rewrite Hread, Hrun in H. simpl in H.
  rewrite Hdata in H. destruct H as [Hphases Hout].
  set (generator :=
         Plain.RPCGenerator_init (Plain.output args) (Plain.templates args)).
  assert (Hh : snd (Plain.generate_header w generator data) = Returned tt).
  { apply (returns_when_generate_all w generator data $"api.h.j2" $"_api.h").
    intros service Hin t s [[= <- <-]|[]]. now apply Hheader. }
  destruct (@generate_stops_at_failure w generator data $"server_stub.c.j2"
              $"_server_stub.c" [] others first) as [Hs1 Hs2];
    [intros x [] | exact Hstub |].
  cbn [app] in Hs1, Hs2. rewrite <- Hservices in Hs1, Hs2.
  assert (Hr : snd (plain_rendering w args data)
               = Raised (TemplateError $"server_stub.c.j2")).
  { unfold plain_rendering. cbv zeta. fold generator.
    rewrite outcome_bind, Hh, outcome_bind.
    unfold Plain.generate_server_stub, generate_all. now rewrite Hs1. }
  assert (Hf : written_files (trace (plain_rendering w args data))
               = map (fun service =>
                        artifact_name (namespace data) (s_name service)
                          $"_api.h") (services data)).
  { unfold plain_rendering. cbv zeta. fold generator.
    rewrite trace_bind, Hh, trace_bind, written_files_app, written_files_app.
    unfold Plain.generate_header.
    rewrite (generate_all_files w generator data _ _ Hh).
    unfold Plain.generate_server_stub, generate_all at 1 2.
    rewrite Hs1, Hs2. simpl. now rewrite app_nil_r. }
  rewrite Hr in Hout. simpl in Hout.
  split; [exact Hout|]. split; [unfold exit_status; now rewrite Hout|].
  rewrite written_files_artifacts.
  assert (Ha : filter is_artifact (trace (Plain.main w args))
               = filter is_artifact (trace (plain_rendering w args data)))
    by (eapply artifacts_after_the_compiler; [| |exact Hphases];
        reflexivity).
  rewrite Ha, <- written_files_artifacts. exact Hf.
Qed.

(** Without the server template, the run on the calculator schema ends with
    1 and leaves the header of the service. *)
Lemma partial_artifacts_are_kept_witness :
  exit_status
    (Plain.main (world_without_server_template calculator_schema) plain_args)
  = 1%Z /\
  written_files
    (trace (Plain.main (world_without_server_template calculator_schema)
              plain_args))
  = [ $"demo_calculator_api.h" ].
Proof.
  destruct (@partial_artifacts_are_kept
              (world_without_server_template calculator_schema) plain_args
              calculator_schema []
              (parsed_schema
                 (Plain.RPCParser_init
                    (world_without_server_template calculator_schema)
                    $"calc.fbs") calculator_schema)
              calculator_service [] eq_refl (parse_content_eq _ _) eq_refl)
    as (_ & Hstatus & Hfiles).
  - vm_compute. reflexivity.
  - intros service _. vm_compute. discriminate.
  - reflexivity.
  - split; [exact Hstatus|]. rewrite Hfiles. vm_compute. reflexivity.
Defined.

(** ** Schemas that mix the modes *)

Lemma for_each_written {A} (xs : list A) (body : A -> prog unit)
  (service : Service) (template filename : str) :
  snd (for_each xs body) = Returned tt ->
  (written_for (trace (for_each xs body)) service template filename
   <-> exists x,
         In x xs /\ written_for (trace (body x)) service template filename).
Proof.
  induction xs as [|x xs IH]; cbn [for_each]; intros Hok.
  - split; [intros H; now apply written_for_nil in H | intros (x & [] & _)].
  - apply bound_returns in Hok. destruct Hok as ([] & Hx & Hrest & ->).
    rewrite written_for_app, (IH Hrest). split.
    + intros [H|(y & Hy & H)].
      * exists x. split; [now left | exact H].
      * exists y. split; [now right | exact H].
    + intros (y & [<-|Hy] & H); [now left | right; now exists y].
Qed.

Lemma mode_block_writes (w : World) (generator : RPCGenerator)
  (rpc_data : RpcData) (chooser : Service) :
  writes
    (if Bundled.is_broadcast chooser then
       Bundled.generate_broadcast_api w generator rpc_data ;;
       Bundled.generate_broadcast_publisher w generator rpc_data ;;
       Bundled.generate_broadcast_subscriber w generator rpc_data
     else
       Bundled.generate_header w generator rpc_data ;;
       Bundled.generate_common_header w generator rpc_data ;;
       Bundled.generate_server_stub w generator rpc_data ;;
       Bundled.generate_client_code w generator rpc_data ;;
       Bundled.generate_common_code w generator rpc_data)
    rpc_data (mode_templates chooser).
Proof.
  unfold mode_templates. destruct (Bundled.is_broadcast chooser).
  - apply writes_broadcast.
  - apply writes_request_response.
Qed.

(** X13: what the generator with the bundled compiler writes on any schema,
    mixed or not.  In a run that ends with 0 the artifacts written for a
    service of the schema are those of the mode of every service of the
    schema: each turn of the loop of [main] renders the templates of the mode
    of its service for all the services.  So in a schema that holds a
    broadcast service and another one, every service gets the three broadcast
    files and the five request/response files. *)
Theorem every_service_gets_every_mode (w : World) (args : Bundled.Args)
  (content : str) (data : RpcData) (service : Service)
  (template filename : str) :
  w_read w (Bundled.schema args) = Some content ->
  Bundled.parse_content (Bundled.RPCParser_init w (Bundled.schema args))
    content = Returned data ->
  snd (Bundled.main w args) = Returned 0%Z ->
  (written_for (trace (Bundled.main w args)) service template filename
   <-> In service (services data) /\
       exists chooser,
         In chooser (services data) /\
         In (template, filename)
           (artifacts_of
              (if Bundled.is_broadcast chooser then broadcast_templates
               else request_response_templates)
              (namespace data) (s_name service))).
Proof.
  intros Hread Hparse Hok.
  change (Plain.parse_content
            (Plain.RPCParser_init w (Bundled.schema args)) content
          = Returned data) in Hparse.
  rewrite parse_content_eq in Hparse. injection Hparse as <-.
  destruct (bundled_main_written w args Hread Hok) as [Hr Hsame].
  rewrite Hsame. unfold bundled_rendering in *. cbv zeta in *.
  rewrite (for_each_written _ _ _ _ _ Hr).
  pose proof (proj1 (for_each_returns _ _) Hr) as Hall.
  split.
  - intros (chooser & Hc & Hw).
    apply (mode_block_writes w _ _ chooser (Hall chooser Hc)) in Hw.
    destruct Hw as [Hs Hin]. split; [exact Hs|]. now exists chooser.
  - intros (Hs & chooser & Hc & Hin). exists chooser. split; [exact Hc|].
    apply (mode_block_writes w _ _ chooser (Hall chooser Hc)). auto.
Qed.

(** On the mixed schema the broadcast service also gets a client file. *)
Lemma every_service_gets_every_mode_witness :
  written_for
    (trace (Bundled.main (example_world mixed_schema 0) bundled_args))
    chat_service $"client.c.j2" $"demo_chatbroadcast_client.c".
Proof.
  refine (proj2 (@every_service_gets_every_mode
                   (example_world mixed_schema 0) bundled_args mixed_schema
                   (example_data mixed_schema) chat_service
                   $"client.c.j2" $"demo_chatbroadcast_client.c"
                   eq_refl _ _) _).
  - apply parse_content_eq.
  - vm_compute. reflexivity.
  - split.
    + vm_compute. left. reflexivity.
    + exists calculator_service. split.
      * vm_compute. right. left. reflexivity.
      * vm_compute. tauto.
Defined.

(** ** Where the matches are *)

Lemma finditer_from_in {G} (pat : pattern G) (s : str) (skip : nat) (g : G) :
  In g (finditer_from pat skip s) ->
  exists i rest, pat (skipn i s) = Some (g, rest).
Proof.
  revert skip; induction s as [|c s IH]; intros skip.
  - destruct skip; simpl; [|contradiction].
    destruct (pat []) as [[g' r]|] eqn:E; [|contradiction].
    intros [<-|[]]. exists 0, r. exact E.
  - destruct skip as [|skip]; simpl.
    + destruct (pat (c :: s)) as [[g' r]|] eqn:E.
      * intros [<-|H]; [exists 0, r; exact E|].
        apply IH in H. destruct H as (i & rest & H).
        exists (S i), rest. exact H.
      * intros H. apply IH in H. destruct H as (i & rest & H).
        exists (S i), rest. exact H.
    + intros H. apply IH in H. destruct H as (i & rest & H).
      exists (S i), rest. exact H.
Qed.

Lemma re_search_Some {G} (pat : pattern G) (s : str) (g : G) :
  re_search pat s = Some g ->
  exists i rest, pat (skipn i s) = Some (g, rest).
Proof.
  induction s as [|c s IH]; simpl.
  - destruct (pat []) as [[g' r]|] eqn:E; [|discriminate].
    intros [= <-]. exists 0, r. exact E.
  - destruct (pat (c :: s)) as [[g' r]|] eqn:E.
    + intros [= <-]. exists 0, r. exact E.
    + intros H. apply IH in H. destruct H as (i & rest & H).
      exists (S i), rest. exact H.
Qed.

Lemma table_block_found (content name body : str) :
  In (name, body) (table_blocks content) ->
  exists i rest, block $"table" (skipn i content) name body rest.
Proof.
  intros H. apply finditer_from_in in H. destruct H as (i & rest & H).
  exists i, rest. now apply table_pattern_spec.
Qed.

Lemma service_block_found (content name body : str) :
  In (name, body) (service_blocks content) ->
  exists i rest, block $"rpc_service" (skipn i content) name body rest.
Proof.
  intros H. apply finditer_from_in in H. destruct H as (i & rest & H).
  exists i, rest. now apply service_pattern_spec.
Qed.

(** ** The keys of the table map *)

Lemma dict_set_in {V} (d : dict V) (k q : str) (v x : V) :
  In (q, x) (dict_set d k v) -> (q = k /\ x = v) \/ In (q, x) d.
Proof.
  induction d as [|[k' v'] d IH]; simpl.
  - intros [[= <- <-]|[]]. auto.
  - destruct (str_eqb k' k) eqn:E.
    + apply str_eqb_true in E. subst k'.
      intros [[= <- <-]|H]; auto.
    + intros [H|H]; [auto|]. apply IH in H. tauto.
Qed.

Lemma dict_set_keys {V} (d : dict V) (k q : str) (v : V) :
  In q (map fst (dict_set d k v)) <-> q = k \/ In q (map fst d).
Proof.
  induction d as [|[k' v'] d IH]; simpl.
  - intuition congruence.
  - destruct (str_eqb k' k) eqn:E; simpl.
    + apply str_eqb_true in E. subst k'. intuition congruence.
    + rewrite IH. tauto.
Qed.

Lemma dict_set_NoDup {V} (d : dict V) (k : str) (v : V) :
  NoDup (map fst d) -> NoDup (map fst (dict_set d k v)).
Proof.
  induction d as [|[k' v'] d IH]; simpl; intros Hd.
  - constructor; [tauto | constructor].
  - inversion Hd as [|? ? Hk' Hd']; subst.
    destruct (str_eqb k' k) eqn:E; simpl.
    + exact Hd.
    + constructor; [|now apply IH].
      rewrite dict_set_keys. apply str_eqb_false in E.
      intros [H|H]; [congruence | tauto].
Qed.

Lemma collect_tables_in (blocks : list (str * str)) (d : dict (list Field))
  (name : str) (fields : list Field) :
  In (name, fields) (collect_tables blocks d) ->
  In (name, fields) d \/
  exists body, In (name, body) blocks /\ fields = body_fields body.
Proof.
  revert d; induction blocks as [|[n b] blocks IH]; intros d; simpl.
  - auto.
  - intros H. apply IH in H. destruct H as [H|(body & H & E)].
    + apply dict_set_in in H. simpl in H.
      destruct H as [[-> ->]|H]; [|auto].
      right. exists b. auto.
    + right. exists body. auto.
Qed.

Lemma collect_tables_keys (blocks : list (str * str)) (d : dict (list Field))
  (name : str) :
  In name (map fst (collect_tables blocks d))
  <-> In name (map fst blocks) \/ In name (map fst d).
Proof.
  revert d; induction blocks as [|[n b] blocks IH]; intros d; simpl.
  - tauto.
  - unfold collect_tables in IH. rewrite IH, dict_set_keys. simpl.
    intuition congruence.
Qed.

Lemma collect_tables_NoDup (blocks : list (str * str)) (d : dict (list Field)) :
  NoDup (map fst d) -> NoDup (map fst (collect_tables blocks d)).
Proof.
  revert d; induction blocks as [|[n b] blocks IH]; intros d Hd; simpl.
  - exact Hd.
  - apply IH. now apply dict_set_NoDup.
Qed.

Lemma collect_services_names (tables : dict (list Field))
  (blocks : list (str * str)) :
  map s_name (collect_services tables blocks) = map fst blocks.
Proof.
  unfold collect_services. rewrite map_map. reflexivity.
Qed.

(** X14: the table map holds every table name once, however often the
    text declares it, and holds exactly the names of the table blocks; the
    service list has one service for each service block, in the order of the
    text, a repeated name included. *)
Theorem tables_once_services_each (w : World) (schema_file content : str) :
  exists data,
    Plain.parse_content (Plain.RPCParser_init w schema_file) content
    = Returned data /\
    NoDup (map fst (tables data)) /\
    (forall name,
       In name (map fst (tables data))
       <-> In name (map fst (table_blocks content))) /\
    map s_name (services data) = map fst (service_blocks content).
Proof.
  eexists. split; [apply parse_content_eq|]. simpl. split; [|split].
  - apply collect_tables_NoDup. constructor.
  - intros name. rewrite collect_tables_keys. simpl. tauto.
  - apply collect_services_names.
Qed.

(** X15: nothing of the schema is invented.  Every entry of the table map
    is a [table] block that stands at some offset of the text, with the
    fields of its body; every service is an [rpc_service] block of the text,
    with the methods of its body looked up in the finished table map. *)
Theorem schema_comes_from_blocks (w : World) (schema_file content : str) :
  exists data,
    Plain.parse_content (Plain.RPCParser_init w schema_file) content
    = Returned data /\
    (forall name fields,
       In (name, fields) (tables data) ->
       exists i body rest,
         block $"table" (skipn i content) name body rest /\
         fields = body_fields body) /\
    (forall service,
       In service (services data) ->
       exists i body rest,
         block $"rpc_service" (skipn i content) (s_name service) body rest /\
         s_methods service = body_methods (tables data) body).
Proof.
  eexists. split; [apply parse_content_eq|]. simpl. split.
  - intros name fields H. apply collect_tables_in in H.
    destruct H as [[]|(body & H & ->)].
    apply table_block_found in H. destruct H as (i & rest & H).
    exists i, body, rest. auto.
  - intros service H. unfold collect_services in H. apply in_map_iff in H.
    destruct H as ([name body] & <- & H). simpl.
    apply service_block_found in H. destruct H as (i & rest & H).
    exists i, body, rest. auto.
Qed.

(** ** Names *)

Lemma block_identifier (keyword text name body rest : str) :
  block keyword text name body rest -> identifier name.
Proof.
  intros (ws1 & ws2 & _ & _ & _ & H1 & H2 & _). split; assumption.
Qed.

Lemma line_methods_identifiers (tables : dict (list Field)) (line : str)
  (method : Method) :
  In method (line_methods tables line) ->
  identifier (m_name method) /\ identifier (m_request method) /\
  identifier (m_return method).
Proof.
  unfold line_methods. destruct (skipped line); [contradiction|].
  destruct (Plain.method_pattern _) as [[[[n rq] rt] rest]|] eqn:E;
    [|contradiction].
  apply method_pattern_spec in E.
  destruct E as [(ws1 & ws2 & ws3 & ws4 & ws5 & _ & _ & _ & _ & _ & _
                  & Hn & Hnw & Hq & Hqw & Hr & Hrw) _].
  intros [<-|[]]. simpl. repeat split; assumption.
Qed.

(** X16: the names of the schema are identifiers.  The namespace is empty
    or a non-empty text of letters, digits and underscores; so are, without
    the empty case, the name of every table, of every service and of every
    method, and the request and return types of every method. *)
Theorem parsed_names_are_identifiers (w : World) (schema_file content : str) :
  exists data,
    Plain.parse_content (Plain.RPCParser_init w schema_file) content
    = Returned data /\
    (namespace data = [] \/ identifier (namespace data)) /\
    (forall name, In name (map fst (tables data)) -> identifier name) /\
    (forall service,
       In service (services data) ->
       identifier (s_name service) /\
       forall method,
         In method (s_methods service) ->
         identifier (m_name method) /\ identifier (m_request method) /\
         identifier (m_return method)).
Proof.
  eexists. split; [apply parse_content_eq|]. simpl. split; [|split].
  - destruct (re_search Plain.namespace_pattern content) as [id|] eqn:E;
      [|left; reflexivity].
    right. apply re_search_Some in E. destruct E as (i & rest & E).
    apply namespace_pattern_spec in E.
    destruct E as (ws & _ & _ & _ & H1 & H2). split; assumption.
  - intros name H. apply collect_tables_keys in H. simpl in H.
    destruct H as [H|[]]. apply in_map_iff in H.
    destruct H as ([n body] & <- & H). simpl.
    apply table_block_found in H. destruct H as (i & rest & H).
    now apply block_identifier in H.
  - intros service H. unfold collect_services in H. apply in_map_iff in H.
    destruct H as ([name body] & <- & H). simpl.
    apply service_block_found in H. destruct H as (i & rest & H).
    split; [now apply block_identifier in H|].
    intros method Hm. unfold body_methods in Hm. apply in_flat_map in Hm.
    destruct Hm as (line & _ & Hm).
    now apply line_methods_identifiers in Hm.
Qed.

(** ** Trimming *)

Lemma dropwhile_stops (p : ascii -> bool) (s : str) : stops p (dropwhile p s).
Proof.
  induction s as [|c s IH]; simpl; [exact I|].
  destruct (p c) eqn:E; [exact IH | exact E].
Qed.

Lemma dropwhile_fix (p : ascii -> bool) (s : str) :
  stops p s -> dropwhile p s = s.
Proof. destruct s as [|c s]; simpl; [reflexivity|]. now intros ->. Qed.

Lemma dropwhile_suffix (p : ascii -> bool) (s : str) :
  exists r, s = r ++ dropwhile p s.
Proof.
  induction s as [|c s [r IH]]; simpl; [now exists []|].
  destruct (p c); [|now exists []].
  exists (c :: r). simpl. now rewrite <- IH.
Qed.

Lemma rstrip_prefix (p : ascii -> bool) (s : str) :
  exists r, s = rev (dropwhile p (rev s)) ++ r.
Proof.
  destruct (dropwhile_suffix p (rev s)) as [r H].
  exists (rev r). rewrite <- rev_app_distr, <- H. now rewrite rev_involutive.
Qed.

Lemma stops_prefix (p : ascii -> bool) (a r : str) :
  stops p (a ++ r) -> stops p a.
Proof. destruct a; simpl; auto. Qed.

Lemma rstrip_stops (p q : ascii -> bool) (s : str) :
  stops p s -> stops p (rev (dropwhile q (rev s))).
Proof.
  intros H. destruct (rstrip_prefix q s) as [r E].
  rewrite E in H. now apply stops_prefix in H.
Qed.

Lemma rstrip_in (q : ascii -> bool) (s : str) (c : ascii) :
  In c (rev (dropwhile q (rev s))) -> In c s.
Proof.
  intros H. destruct (rstrip_prefix q s) as [r E]. rewrite E.
  apply in_or_app. now left.
Qed.

Lemma lstrip_in (s : str) (c : ascii) : In c (lstrip s) -> In c s.
Proof.
  intros H. destruct (dropwhile_suffix isspace s) as [r E]. rewrite E.
  apply in_or_app. now right.
Qed.

Lemma strip_in (s : str) (c : ascii) : In c (strip s) -> In c s.
Proof. intros H. apply lstrip_in. now apply rstrip_in in H. Qed.

Lemma strip_stops (s : str) : stops isspace (strip s).
Proof. apply rstrip_stops. apply dropwhile_stops. Qed.

(** Trimming twice is trimming once. *)
Lemma strip_strip (s : str) : strip (strip s) = strip s.
Proof.
  unfold strip at 1. unfold lstrip. rewrite (dropwhile_fix _ _ (strip_stops s)).
  unfold rstrip, strip, rstrip. rewrite rev_involutive.
  rewrite (dropwhile_fix _ _ (dropwhile_stops _ _)). reflexivity.
Qed.

Lemma rstrip_char_ends (ch : ascii) (s : str) :
  endswith [ch] (rstrip_char ch s) = false.
Proof.
  unfold endswith, rstrip_char. rewrite rev_involutive. simpl.
  pose proof (dropwhile_stops (ascii_eqb ch) (rev s)) as H.
  destruct (dropwhile (ascii_eqb ch) (rev s)) as [|c d]; [reflexivity|].
  simpl in *. now rewrite H.
Qed.

Lemma split_pieces (sep : ascii) (s piece : str) :
  In piece (split sep s) -> ~ In sep piece.
Proof.
  revert piece; induction s as [|c s IH]; intros piece; simpl.
  - intros [<-|[]]. auto.
  - destruct (ascii_eqb c sep) eqn:E.
    + intros [<-|H]; [auto | now apply IH].
    + apply ascii_eqb_false in E.
      destruct (split sep s) as [|p ps].
      * intros [<-|[]]. simpl. intuition congruence.
      * intros [<-|H].
        -- simpl. intros [H|H]; [congruence|]. apply (IH p); simpl; auto.
        -- apply IH. simpl. auto.
Qed.

Lemma all_in (p : ascii -> bool) (s : str) (c : ascii) :
  all p s -> In c s -> p c = true.
Proof. unfold all. rewrite forallb_forall. auto. Qed.

Lemma colons_in (s : str) : colons s = 0 -> ~ In ":"%char s.
Proof. unfold colons. now rewrite <- count_occ_not_In. Qed.

Lemma all_colons (s : str) : all (not_char ":") s -> colons s = 0.
Proof.
  unfold colons. induction s as [|c s IH]; [reflexivity|].
  intros H. apply all_cons in H. destruct H as [Hc Hs]. simpl.
  destruct (ascii_dec c ":") as [->|N]; [discriminate | auto].
Qed.

Lemma one_colon_parts (s : str) :
  colons s = 1 ->
  (forall c, In c (before_first ":" s) -> c <> ":"%char /\ In c s) /\
  (forall c, In c (after_first ":" s) -> c <> ":"%char /\ In c s).
Proof.
  intros H. unfold before_first, after_first.
  destruct (span (not_char ":") s) as [a r] eqn:E.
  apply span_spec in E. destruct E as (-> & Ha & Hr). simpl.
  rewrite colons_app, (all_colons Ha) in H. simpl in H.
  destruct r as [|x r]; [discriminate|].
  simpl in Hr. unfold not_char in Hr. apply negb_false_iff in Hr.
  apply ascii_eqb_true in Hr. subst x.
  unfold colons in H. simpl in H. injection H as H.
  split; intros c Hc.
  - split; [|apply in_or_app; now left].
    intros ->. apply (all_in _ Ha) in Hc. discriminate.
  - split; [|apply in_or_app; right; now right].
    intros ->. now apply (colons_in _ H).
Qed.

Lemma line_fields_tidy (line : str) (field : Field) :
  ~ In nl line -> In field (line_fields line) -> tidy_field field.
Proof.
  intros Hnl. unfold line_fields. destruct (skipped line); [contradiction|].
  destruct (colons (strip line) =? 1) eqn:E; [|contradiction].
  apply Nat.eqb_eq in E. destruct (one_colon_parts _ E) as [Hb Ha].
  intros [<-|[]]. unfold tidy_field, make_field. cbn [f_name f_type
    f_original_type f_is_array].
  split; [apply strip_strip|]. split; [|split; [|split]].
  - unfold lstrip. apply dropwhile_fix. apply rstrip_stops, strip_stops.
  - apply rstrip_char_ends.
  - intros c [Hc|Hc].
    + apply strip_in, Hb in Hc. destruct Hc as [Hc Hin]. split; [exact Hc|].
      apply strip_in in Hin. congruence.
    + apply rstrip_in, strip_in, Ha in Hc. destruct Hc as [Hc Hin].
      split; [exact Hc|]. apply strip_in in Hin. congruence.
  - now destruct (Plain.map_type _).
Qed.

Lemma body_fields_tidy (body : str) (field : Field) :
  In field (body_fields body) -> tidy_field field.
Proof.
  unfold body_fields. rewrite in_flat_map. intros (line & Hl & Hf).
  apply split_pieces in Hl. now apply line_fields_tidy in Hf.
Qed.

Lemma dict_get_in {V} (d : dict V) (k : str) (default : V) :
  dict_get d k default = default \/ In (k, dict_get d k default) d.
Proof.
  induction d as [|[k' v'] d IH]; simpl; [now left|].
  destruct (str_eqb k' k) eqn:E.
  - apply str_eqb_true in E. subst k'. right. now left.
  - destruct IH as [IH|IH]; [now left | right; now right].
Qed.

Lemma tables_tidy (blocks : list (str * str)) (name : str)
  (fields : list Field) (field : Field) :
  In (name, fields) (collect_tables blocks []) -> In field fields ->
  tidy_field field.
Proof.
  intros H Hf. apply collect_tables_in in H.
  destruct H as [[]|(body & _ & ->)]. now apply body_fields_tidy in Hf.
Qed.

(** X17: the fields of the schema are trimmed.  For every field of every
    table, and every request field of every method: trimming the name again
    changes nothing, the declared type starts with no white space and ends
    with no semicolon, neither of them holds a colon or a line feed, and the
    C type and the array flag are those the type mapping gives the declared
    type. *)
Theorem parsed_fields_are_tidy (w : World) (schema_file content : str) :
  exists data,
    Plain.parse_content (Plain.RPCParser_init w schema_file) content
    = Returned data /\
    (forall name fields field,
       In (name, fields) (tables data) -> In field fields ->
       tidy_field field) /\
    (forall service method field,
       In service (services data) -> In method (s_methods service) ->
       In field (m_request_fields method) ->
       tidy_field field).
Proof.
  eexists. split; [apply parse_content_eq|]. simpl. split.
  - intros name fields field. apply tables_tidy.
  - intros service method field Hs Hm Hf.
    unfold collect_services in Hs. apply in_map_iff in Hs.
    destruct Hs as ([n body] & <- & _). simpl in Hm.
    unfold body_methods in Hm. apply in_flat_map in Hm.
    destruct Hm as (line & _ & Hm).
    apply line_methods_fields in Hm. destruct Hm as [Hm _].
    rewrite Hm in Hf.
    destruct (dict_get_in
                (collect_tables (re_finditer Plain.table_pattern content) [])
                (m_request method) []) as [E|E].
    + rewrite E in Hf. destruct Hf.
    + eapply tables_tidy; [exact E | exact Hf].
Qed.

(** ** The names of the files *)

Lemma lower_word (c : ascii) : isword c = true -> name_char (lower_char c) = true.
Proof. destruct c as [[] [] [] [] [] [] [] []]; vm_compute; congruence. Qed.

Lemma lower_identifier (s : str) : all isword s -> all name_char (lower s).
Proof.
  unfold lower. induction s as [|c s IH]; [reflexivity|].
  intros H. apply all_cons in H. destruct H as [Hc Hs].
  simpl. apply all_cons. split; [now apply lower_word | auto].
Qed.

Lemma endings_name_chars (template suffix : str) :
  In (template, suffix)
    (plain_templates ++ broadcast_templates ++ request_response_templates) ->
  all name_char suffix.
Proof.
  simpl. intros H.
  repeat (destruct H as [[= <- <-]|H]; [reflexivity|]). destruct H.
Qed.

Lemma schema_names (w : World) (schema_file content : str) (service : Service) :
  let data := parsed_schema (Plain.RPCParser_init w schema_file) content in
  In service (services data) ->
  all isword (namespace data) /\ all isword (s_name service).
Proof.
  simpl. intros Hs. split.
  - destruct (re_search Plain.namespace_pattern content) as [id|] eqn:E;
      [|reflexivity].
    apply re_search_Some in E. destruct E as (i & rest & E).
    apply namespace_pattern_spec in E.
    now destruct E as (ws & _ & _ & _ & _ & H).
  - unfold collect_services in Hs. apply in_map_iff in Hs.
    destruct Hs as ([name body] & <- & H). simpl.
    apply service_block_found in H. destruct H as (i & rest & H).
    apply block_identifier in H. now destruct H.
Qed.

Lemma artifact_name_chars (ns svc suffix : str) :
  all isword ns -> all isword svc -> all name_char suffix ->
  all name_char (artifact_name ns svc suffix).
Proof.
  intros Hn Hs Hx. unfold artifact_name.
  repeat (apply all_app; split); auto using lower_identifier. reflexivity.
Qed.

Lemma name_char_no_separator (c : ascii) :
  name_char c = true -> path_separator c = false.
Proof. destruct c as [[] [] [] [] [] [] [] []]; vm_compute; congruence. Qed.

(** X18: whatever the schema text holds, no file a run of either generator
    writes has a path separator, slash or backslash, in its name: the
    namespace and the service names, which come out of the schema text, can
    not lead a write out of the output directory. *)
Theorem generated_names_are_plain (w : World) (template : str)
  (ctx : RenderContext) (dir filename output_text : str) :
  (forall args,
     In (EvArtifact template ctx dir filename output_text)
       (trace (Plain.main w args)) ->
     forall c, In c filename -> path_separator c = false) /\
  (forall args,
     In (EvArtifact template ctx dir filename output_text)
       (trace (Bundled.main w args)) ->
     forall c, In c filename -> path_separator c = false).
Proof.
  assert (Hsep : forall s, all name_char s ->
                   forall c, In c s -> path_separator c = false).
  { intros s Hs c Hin. apply (all_in _ Hs) in Hin.
    now apply name_char_no_separator. }
  split; intros args Hin.
  - destruct (plain_main_artifacts w args _ Hin eq_refl)
      as (content & Hread & Hr).
    pose proof (plain_rendering_artifacts w args _ _ Hr eq_refl) as Hart.
    destruct Hart as (service & t & suffix & out & Hs & Ht & Hrender & He).
    injection He as -> -> -> -> ->.
    apply schema_names in Hs. destruct Hs as [Hn Hs].
    apply Hsep. apply artifact_name_chars; auto.
    apply (@endings_name_chars t). apply in_or_app. now left.
  - destruct (bundled_main_artifacts w args _ Hin eq_refl)
      as (content & Hread & Hr).
    pose proof (bundled_rendering_artifacts w args _ _ Hr eq_refl) as Hart.
    destruct Hart as (chooser & Hc & service & t & suffix & out & Hs & Ht
                    & Hrender & He).
    injection He as -> -> -> -> ->.
    apply schema_names in Hs. destruct Hs as [Hn Hs].
    apply Hsep. apply artifact_name_chars; auto.
    apply (@endings_name_chars t). apply in_or_app. right.
    unfold mode_templates in Ht. apply in_or_app.
    destruct (Bundled.is_broadcast chooser); auto.
Qed.

(** ** The events of a run, in order *)

Lemma wrapped_rendering_trace (r : prog unit) (before after : str) :
  trace (print before ;; r ;; print after ;; ([], Returned 0%Z))
  = EvPrint before
    :: trace r ++ match snd r with
                  | Returned _ => [EvPrint after]
                  | _ => []
                  end.
Proof. destruct r as [t [[]|e|c]]; simpl; rewrite ?app_nil_r; reflexivity. Qed.

Lemma plain_main_trace (w : World) (args : Plain.Args) :
  trace (Plain.main w args)
  = EvMkdir (Plain.output args)
    :: EvPrint ($"Parsing schema: " ++ Plain.schema args)
    :: EvRead (Plain.schema args)
    :: match w_read w (Plain.schema args) with
       | None => []
       | Some content =>
           let data :=
             parsed_schema (Plain.RPCParser_init w (Plain.schema args))
               content in
           service_report data
           ++ compile_and_render w (Plain.flatcc args) (Plain.output args)
                (Plain.schema args) (plain_rendering w args data)
       end.
Proof.
  unfold compile_and_render, after_compiler, service_report, flatcc_argv,
    Plain.main.
  run_steps.
  rewrite plain_parse_eq. cbn [snd trace fst Plain.RPCParser_init p_schema_file].
  destruct (w_read w (Plain.schema args)) as [content|]; [|reflexivity].
  run_steps. rewrite for_each_prints. run_steps.
  rewrite subprocess_run_eq. run_steps.
  match goal with
  | |- context [w_run w ?a] => destruct (w_run w a) as [[returncode err]|]
  end.
  2:{ cbn [app]. rewrite ?app_nil_r. reflexivity. }
  destruct (returncode =? 0)%Z; cbn [negb].
  - rewrite three_steps.
    rewrite wrapped_rendering_trace.
    cbn [app]. reflexivity.
  - cbn [app]. reflexivity.
Qed.

Lemma bundled_main_trace (w : World) (args : Bundled.Args) :
  trace (Bundled.main w args)
  = EvMkdir (Bundled.output args)
    :: EvPrint ($"Parsing schema: " ++ Bundled.schema args)
    :: EvRead (Bundled.schema args)
    :: match w_read w (Bundled.schema args) with
       | None => []
       | Some content =>
           let data :=
             parsed_schema (Plain.RPCParser_init w (Bundled.schema args))
               content in
           service_report data
           ++ trace (Bundled.resolve_flatcc w args)
           ++ match snd (Bundled.resolve_flatcc w args) with
              | Returned flatcc_path =>
                  compile_and_render w flatcc_path (Bundled.output args)
                    (Bundled.schema args) (bundled_rendering w args data)
              | _ => []
              end
       end.
Proof.
  unfold compile_and_render, after_compiler, service_report, flatcc_argv,
    Bundled.main.
  run_steps.
  change (Bundled.parse w (Bundled.RPCParser_init w (Bundled.schema args)))
    with (Plain.parse w (Plain.RPCParser_init w (Bundled.schema args))).
  rewrite plain_parse_eq. cbn [snd trace fst Plain.RPCParser_init p_schema_file].
  destruct (w_read w (Bundled.schema args)) as [content|]; [|reflexivity].
  run_steps. rewrite for_each_prints. run_steps.
  destruct (snd (Bundled.resolve_flatcc w args)) as [flatcc_path|e|code].
  2,3: cbn [app]; rewrite ?app_nil_r; reflexivity.
  run_steps. rewrite subprocess_run_eq. run_steps.
  match goal with
  | |- context [w_run w ?a] => destruct (w_run w a) as [[returncode err]|]
  end.
  2:{ cbn [app]. rewrite ?app_nil_r. reflexivity. }
  destruct (returncode =? 0)%Z; cbn [negb].
  - rewrite wrapped_rendering_trace. cbn [app]. reflexivity.
  - cbn [app]. reflexivity.
Qed.

Lemma body_only_bind {A B} (m : prog A) (k : A -> prog B) :
  body_only m -> (forall a, body_only (k a)) -> body_only (bind m k).
Proof.
  unfold body_only. intros Hm Hk.
  rewrite trace_bind, forallb_app, Hm.
  destruct (snd m); simpl; auto.
Qed.

Lemma body_only_for_each {A} (xs : list A) (body : A -> prog unit) :
  (forall x, body_only (body x)) -> body_only (for_each xs body).
Proof.
  intros Hbody. induction xs as [|x xs IH]; [reflexivity|].
  cbn [for_each]. apply body_only_bind; auto.
Qed.

Lemma body_only_generate_all (w : World) (self : RPCGenerator)
  (rpc_data : RpcData) (template suffix : str) :
  body_only (generate_all w self rpc_data template suffix).
Proof.
  unfold generate_all. apply body_only_for_each. intros service.
  unfold body_only. rewrite generate_one_eq. cbv zeta.
  destruct (w_render _ _ _ _); reflexivity.
Qed.

Lemma body_only_plain (w : World) (args : Plain.Args) (rpc_data : RpcData) :
  body_only (plain_rendering w args rpc_data).
Proof.
  unfold plain_rendering.
  repeat (apply body_only_bind; [apply body_only_generate_all | intros _]).
  apply body_only_generate_all.
Qed.

Lemma body_only_bundled (w : World) (args : Bundled.Args)
  (rpc_data : RpcData) :
  body_only (bundled_rendering w args rpc_data).
Proof.
  unfold bundled_rendering. apply body_only_for_each. intros service.
  destruct (Bundled.is_broadcast service);
    repeat (apply body_only_bind; [apply body_only_generate_all | intros _]);
    apply body_only_generate_all.
Qed.

Lemma body_only_resolve (w : World) (args : Bundled.Args) :
  body_only (Bundled.resolve_flatcc w args).
Proof.
  unfold body_only, Bundled.resolve_flatcc.
  destruct (Bundled.find_bundled_flatcc w) as [[|c p]|];
    destruct (Bundled.flatcc args) as [[|c' p']|];
    destruct (w_which w $"flatcc") as [[|c'' p'']|];
    reflexivity.
Qed.

Lemma body_only_report (rpc_data : RpcData) :
  forallb body_event (service_report rpc_data) = true.
Proof.
  unfold service_report. apply forallb_forall. intros e [<-|H]; [reflexivity|].
  apply in_map_iff in H. destruct H as (s & <- & _). reflexivity.
Qed.

Lemma ending_after_rendering (r : outcome unit) :
  (forall code, r <> Exited code) ->
  ending_of (after_rendering r)
    match r with
    | Returned _ => [EvPrint done_line]
    | _ => []
    end.
Proof.
  intros Hr. destruct r as [[]|e|c]; simpl.
  - left. auto.
  - right. right. split; [left; now exists e | reflexivity].
  - now destruct (Hr c).
Qed.

(** A run creates the output directory, goes through its body and closes
    with the line that goes with its outcome. *)
Lemma plain_main_shape (w : World) (args : Plain.Args) :
  exists body ending,
    trace (Plain.main w args) = EvMkdir (Plain.output args) :: body ++ ending /\
    forallb body_event body = true /\
    ending_of (snd (Plain.main w args)) ending.
Proof.
  pose proof (plain_main_phases w args) as H. cbv zeta in H.
  rewrite plain_main_trace. cbv zeta.
  unfold compile_and_render, after_compiler.
  destruct (w_read w (Plain.schema args)) as [content|].
  2:{ destruct H as [_ ->]. eexists [_; _], []. split; [reflexivity|].
      split; [reflexivity|]. right. right. split; [left; eexists|]; reflexivity. }
  set (data := parsed_schema _ content) in *.
  destruct (w_run w _) as [[returncode err]|].
  2:{ destruct H as [_ ->].
      exists (EvPrint ($"Parsing schema: " ++ Plain.schema args)
              :: EvRead (Plain.schema args)
              :: service_report data
                 ++ [ EvPrint (nl :: $"Generating FlatBuffers code with flatcc...");
                      EvRun (flatcc_argv (Plain.flatcc args) (Plain.output args)
                               (Plain.schema args)) ]), [].
      split; [now rewrite app_nil_r|].
      split.
      - cbn [forallb]. rewrite forallb_app, body_only_report. reflexivity.
      - right. right. split; [left; eexists|]; reflexivity. }
  destruct (returncode =? 0)%Z; destruct H as [_ ->].
  - exists (EvPrint ($"Parsing schema: " ++ Plain.schema args)
            :: EvRead (Plain.schema args)
            :: service_report data
               ++ [ EvPrint (nl :: $"Generating FlatBuffers code with flatcc...");
                    EvRun (flatcc_argv (Plain.flatcc args) (Plain.output args)
                             (Plain.schema args));
                    EvPrint (nl :: $"Generating RPC code with Jinja2...") ]
               ++ trace (plain_rendering w args data)).
    eexists. split; [|split; [|apply ending_after_rendering]].
    + cbn [app]. rewrite <- !app_assoc. reflexivity.
    + cbn [forallb]. rewrite !forallb_app, body_only_report.
      rewrite (body_only_plain w args data). reflexivity.
    + apply never_exits_plain.
  - exists (EvPrint ($"Parsing schema: " ++ Plain.schema args)
            :: EvRead (Plain.schema args)
            :: service_report data
               ++ [ EvPrint (nl :: $"Generating FlatBuffers code with flatcc...");
                    EvRun (flatcc_argv (Plain.flatcc args) (Plain.output args)
                             (Plain.schema args)) ]).
    eexists. split; [|split].
    + cbn [app]. rewrite <- !app_assoc. reflexivity.
    + cbn [forallb]. rewrite forallb_app, body_only_report. reflexivity.
    + right. left. split; [reflexivity|]. now exists err.
Qed.

Lemma bundled_main_shape (w : World) (args : Bundled.Args) :
  exists body ending,
    trace (Bundled.main w args)
    = EvMkdir (Bundled.output args) :: body ++ ending /\
    forallb body_event body = true /\
    ending_of (snd (Bundled.main w args)) ending.
Proof.
  pose proof (bundled_main_phases w args) as H. cbv zeta in H.
  rewrite bundled_main_trace. cbv zeta.
  unfold compile_and_render, after_compiler.
  destruct (w_read w (Bundled.schema args)) as [content|].
  2:{ destruct H as [_ ->]. eexists [_; _], []. split; [reflexivity|].
      split; [reflexivity|]. right. right. split; [left; eexists|]; reflexivity. }
  set (data := parsed_schema _ content) in *.
  pose proof (body_only_resolve w args) as Hbody. unfold body_only in Hbody.
  destruct (resolve_flatcc_quiet w args) as [_ Hres].
  destruct (snd (Bundled.resolve_flatcc w args)) as [flatcc_path|e|code].
  2:{ destruct H as [_ ->].
      exists (EvPrint ($"Parsing schema: " ++ Bundled.schema args)
              :: EvRead (Bundled.schema args)
              :: service_report data ++ trace (Bundled.resolve_flatcc w args)),
        [].
      split; [now rewrite !app_nil_r|]. split.
      - cbn [forallb]. rewrite forallb_app, body_only_report, Hbody.
        reflexivity.
      - right. right. split; [left; eexists|]; reflexivity. }
  2:{ destruct H as [_ ->].
      exists (EvPrint ($"Parsing schema: " ++ Bundled.schema args)
              :: EvRead (Bundled.schema args)
              :: service_report data ++ trace (Bundled.resolve_flatcc w args)),
        [].
      split; [now rewrite !app_nil_r|]. split.
      - cbn [forallb]. rewrite forallb_app, body_only_report, Hbody.
        reflexivity.
      - right. right. split; [right|reflexivity].
        destruct Hres as [Hres|[path Hres]]; congruence. }
  destruct (w_run w _) as [[returncode err]|].
  2:{ destruct H as [_ ->].
      exists (EvPrint ($"Parsing schema: " ++ Bundled.schema args)
              :: EvRead (Bundled.schema args)
              :: service_report data
                 ++ trace (Bundled.resolve_flatcc w args)
                 ++ [ EvPrint (nl :: $"Generating FlatBuffers code with flatcc...");
                      EvRun (flatcc_argv flatcc_path (Bundled.output args)
                               (Bundled.schema args)) ]), [].
      split; [now rewrite app_nil_r|].
      split.
      - cbn [forallb]. rewrite !forallb_app, body_only_report, Hbody.
        reflexivity.
      - right. right. split; [left; eexists|]; reflexivity. }
  destruct (returncode =? 0)%Z; destruct H as [_ ->].
  - exists (EvPrint ($"Parsing schema: " ++ Bundled.schema args)
            :: EvRead (Bundled.schema args)
            :: service_report data
               ++ trace (Bundled.resolve_flatcc w args)
               ++ [ EvPrint (nl :: $"Generating FlatBuffers code with flatcc...");
                    EvRun (flatcc_argv flatcc_path (Bundled.output args)
                             (Bundled.schema args));
                    EvPrint (nl :: $"Generating RPC code with Jinja2...") ]
               ++ trace (bundled_rendering w args data)).
    eexists. split; [|split; [|apply ending_after_rendering]].
    + cbn [app]. rewrite <- !app_assoc. reflexivity.
    + cbn [forallb]. rewrite !forallb_app, body_only_report, Hbody.
      rewrite (body_only_bundled w args data). reflexivity.
    + apply never_exits_bundled.
  - exists (EvPrint ($"Parsing schema: " ++ Bundled.schema args)
            :: EvRead (Bundled.schema args)
            :: service_report data
               ++ trace (Bundled.resolve_flatcc w args)
               ++ [ EvPrint (nl :: $"Generating FlatBuffers code with flatcc...");
                    EvRun (flatcc_argv flatcc_path (Bundled.output args)
                             (Bundled.schema args)) ]).
    eexists. split; [|split].
    + cbn [app]. rewrite <- !app_assoc. reflexivity.
    + cbn [forallb]. rewrite !forallb_app, body_only_report, Hbody.
      reflexivity.
    + right. left. split; [reflexivity|]. now exists err.
Qed.

Lemma body_has_no_directory (body : list event) (dir : str) :
  forallb body_event body = true -> ~ In (EvMkdir dir) body.
Proof.
  intros H Hin. rewrite forallb_forall in H. apply H in Hin. discriminate.
Qed.

Lemma body_has_no_closing_line (body : list event) (line : str) :
  forallb body_event body = true -> closing_line line = true ->
  ~ In (EvPrint line) body.
Proof.
  intros H Hl Hin. rewrite forallb_forall in H. apply H in Hin.
  simpl in Hin. now rewrite Hl in Hin.
Qed.

Lemma error_line_closes (stderr : str) :
  closing_line ($"FlatCC error: " ++ stderr) = true.
Proof. reflexivity. Qed.

Lemma error_line_not_done (stderr : str) :
  $"FlatCC error: " ++ stderr <> done_line.
Proof. discriminate. Qed.

Lemma shaped_run_directory (p : prog Z) (dir : str) (body ending : list event) :
  trace p = EvMkdir dir :: body ++ ending ->
  forallb body_event body = true ->
  ending_of (snd p) ending ->
  forall other, ~ In (EvMkdir other) (body ++ ending).
Proof.
  intros _ Hbody Hend other Hin. apply in_app_or in Hin.
  destruct Hin as [Hin|Hin]; [now apply body_has_no_directory in Hin|].
  destruct Hend as [[_ ->]|[[_ [stderr ->]]|[_ ->]]];
    simpl in Hin; intuition discriminate.
Qed.

Lemma shaped_run_lines (p : prog Z) (dir : str) (body ending : list event) :
  trace p = EvMkdir dir :: body ++ ending ->
  forallb body_event body = true ->
  ending_of (snd p) ending ->
  (In (EvPrint done_line) (trace p) <-> snd p = Returned 0%Z) /\
  ((exists stderr, In (EvPrint ($"FlatCC error: " ++ stderr)) (trace p))
   <-> snd p = Returned 1%Z) /\
  (forall line,
     closing_line line = true -> In (EvPrint line) (trace p) ->
     last (trace p) (EvMkdir dir) = EvPrint line).
Proof.
  intros Ht Hbody Hend. rewrite Ht.
  assert (Hin : forall line,
             closing_line line = true ->
             In (EvPrint line) (EvMkdir dir :: body ++ ending) ->
             ending = [EvPrint line]).
  { intros line Hl [H|H]; [discriminate|]. apply in_app_or in H.
    destruct H as [H|H]; [now apply body_has_no_closing_line in H|].
    destruct Hend as [[_ ->]|[[_ [stderr ->]]|[_ ->]]].
    - destruct H as [H|[]]. now rewrite H.
    - destruct H as [H|[]]. now rewrite H.
    - destruct H. }
  split; [|split].
  - split.
    + intros H. apply Hin in H; [|reflexivity].
      destruct Hend as [[Ho _]|[[_ [stderr E]]|[_ E]]]; [exact Ho| |];
        rewrite E in H; discriminate.
    + intros Ho.
      destruct Hend as [[_ ->]|[[Ho' _]|[[[e Ho']|Ho'] _]]];
        try congruence.
      right. apply in_or_app. right. now left.
  - split.
    + intros [stderr H]. apply Hin in H; [|reflexivity].
      destruct Hend as [[_ E]|[[Ho _]|[_ E]]]; [|exact Ho|];
        rewrite E in H; discriminate.
    + intros Ho.
      destruct Hend as [[Ho' _]|[[_ [stderr ->]]|[[[e Ho']|Ho'] _]]];
        try congruence.
      exists stderr. right. apply in_or_app. right. now left.
  - intros line Hl H. apply Hin in H; [|exact Hl]. rewrite H.
    change (EvMkdir dir :: body ++ [EvPrint line])
      with ((EvMkdir dir :: body) ++ [EvPrint line]).
    apply last_last.
Qed.

(** X19: once [parse_args] has accepted the command line, the first thing
    a run of either generator does is the call of [mkdir] on the output path
    of the command line, before the schema is looked at and so also in a run
    that fails later; [main] calls [mkdir] nowhere else. *)
Theorem output_directory_comes_first (w : World) :
  (forall args,
     exists rest,
       trace (Plain.main w args) = EvMkdir (Plain.output args) :: rest /\
       forall dir, ~ In (EvMkdir dir) rest) /\
  (forall args,
     exists rest,
       trace (Bundled.main w args) = EvMkdir (Bundled.output args) :: rest /\
       forall dir, ~ In (EvMkdir dir) rest).
Proof.
  split; intros args.
  - destruct (plain_main_shape w args) as (body & ending & Ht & Hb & He).
    exists (body ++ ending). split; [exact Ht|].
    exact (@shaped_run_directory _ _ _ _ Ht Hb He).
  - destruct (bundled_main_shape w args) as (body & ending & Ht & Hb & He).
    exists (body ++ ending). split; [exact Ht|].
    exact (@shaped_run_directory _ _ _ _ Ht Hb He).
Qed.

(** X20: the closing line of a run tells how it ended.  The line
    [Code generation complete!] is printed exactly when [main] returns 0, and
    a line [FlatCC error: ...] exactly when it returns 1; whichever is
    printed is the last event of the run. *)
Theorem closing_line_tells_the_status (w : World) :
  (forall args,
     (In (EvPrint (nl :: $"Code generation complete!"))
        (trace (Plain.main w args))
      <-> snd (Plain.main w args) = Returned 0%Z) /\
     ((exists stderr,
         In (EvPrint ($"FlatCC error: " ++ stderr))
           (trace (Plain.main w args)))
      <-> snd (Plain.main w args) = Returned 1%Z) /\
     (forall line,
        closing_line line = true ->
        In (EvPrint line) (trace (Plain.main w args)) ->
        last (trace (Plain.main w args)) (EvMkdir (Plain.output args))
        = EvPrint line)) /\
  (forall args,
     (In (EvPrint (nl :: $"Code generation complete!"))
        (trace (Bundled.main w args))
      <-> snd (Bundled.main w args) = Returned 0%Z) /\
     ((exists stderr,
         In (EvPrint ($"FlatCC error: " ++ stderr))
           (trace (Bundled.main w args)))
      <-> snd (Bundled.main w args) = Returned 1%Z) /\
     (forall line,
        closing_line line = true ->
        In (EvPrint line) (trace (Bundled.main w args)) ->
        last (trace (Bundled.main w args)) (EvMkdir (Bundled.output args))
        = EvPrint line)).
Proof.
  split; intros args.
  - destruct (plain_main_shape w args) as (body & ending & Ht & Hb & He).
    exact (@shaped_run_lines _ _ _ _ Ht Hb He).
  - destruct (bundled_main_shape w args) as (body & ending & Ht & Hb & He).
    exact (@shaped_run_lines _ _ _ _ Ht Hb He).
Qed.

(** ** The writes of a run, in order *)

Lemma writes_of_app (t1 t2 : list event) :
  writes_of (t1 ++ t2) = writes_of t1 ++ writes_of t2.
Proof. apply flat_map_app. Qed.

Lemma writes_of_artifacts (t : list event) :
  writes_of t = writes_of (filter is_artifact t).
Proof.
  induction t as [|e t IH]; [reflexivity|].
  destruct e; simpl; rewrite IH; reflexivity.
Qed.

Lemma writes_generate_all_done (w : World) (self : RPCGenerator)
  (rpc_data : RpcData) (template suffix : str) :
  writes_when_done (generate_all w self rpc_data template suffix)
    (writes_for rpc_data (template, suffix)).
Proof.
  unfold writes_when_done, writes_for, generate_all.
  induction (services rpc_data) as [|s ss IH]; [reflexivity|].
  cbn [for_each]. intros Hok. apply bound_returns in Hok.
  destruct Hok as ([] & Hone & Hrest & ->).
  rewrite writes_of_app, (IH Hrest). clear IH Hrest.
  rewrite generate_one_eq in *. cbv zeta in *.
  destruct (w_render _ _ _ _); [reflexivity | discriminate].
Qed.

Lemma writes_done_then (m k : prog unit) (a b : list (str * str)) :
  writes_when_done m a -> writes_when_done k b ->
  writes_when_done (m ;; k) (a ++ b).
Proof.
  unfold writes_when_done. intros Hm Hk Hok.
  apply bound_returns in Hok. destruct Hok as ([] & H1 & H2 & ->).
  now rewrite writes_of_app, (Hm H1), (Hk H2).
Qed.

Lemma writes_done_for_each {A} (xs : list A) (body : A -> prog unit)
  (f : A -> list (str * str)) :
  (forall x, writes_when_done (body x) (f x)) ->
  writes_when_done (for_each xs body) (flat_map f xs).
Proof.
  intros Hbody. induction xs as [|x xs IH]; [intros _; reflexivity|].
  cbn [for_each flat_map]. apply writes_done_then; auto.
Qed.

Lemma plain_rendering_writes (w : World) (args : Plain.Args)
  (rpc_data : RpcData) :
  writes_when_done (plain_rendering w args rpc_data)
    (pass rpc_data plain_templates).
Proof.
  unfold plain_rendering, pass, plain_templates. cbv zeta. cbn [flat_map].
  rewrite app_nil_r.
  repeat (apply writes_done_then; [apply writes_generate_all_done|]).
  apply writes_generate_all_done.
Qed.

Lemma bundled_rendering_writes (w : World) (args : Bundled.Args)
  (rpc_data : RpcData) :
  writes_when_done (bundled_rendering w args rpc_data)
    (flat_map (fun chooser => pass rpc_data (mode_order chooser))
       (services rpc_data)).
Proof.
  unfold bundled_rendering. cbv zeta. apply writes_done_for_each.
  intros chooser. unfold mode_order, pass.
  destruct (Bundled.is_broadcast chooser);
    unfold broadcast_templates, request_response_order; cbn [flat_map];
    rewrite app_nil_r;
    repeat (apply writes_done_then; [apply writes_generate_all_done|]);
    apply writes_generate_all_done.
Qed.

Lemma plain_main_writes (w : World) (args : Plain.Args) :
  snd (Plain.main w args) = Returned 0%Z ->
  exists content,
    w_read w (Plain.schema args) = Some content /\
    writes_of (trace (Plain.main w args))
    = pass (parsed_schema (Plain.RPCParser_init w (Plain.schema args)) content)
        plain_templates.
Proof.
  intros Hok. pose proof (plain_main_phases w args) as H. cbv zeta in H.
  destruct (w_read w (Plain.schema args)) as [content|];
    [|destruct H; congruence].
  exists content. split; [reflexivity|].
  destruct (w_run w _) as [[returncode err]|]; [|destruct H; congruence].
  destruct (returncode =? 0)%Z; [|destruct H; congruence].
  destruct H as [Hphases H]. rewrite Hok in H. symmetry in H.
  apply after_rendering_ok in H.
  rewrite writes_of_artifacts.
  assert (Ha : forall t r read run,
             is_artifact read = false -> is_artifact run = false ->
             phases t = read :: run :: phases r ->
             filter is_artifact t = filter is_artifact r)
    by apply artifacts_after_the_compiler.
  rewrite (Ha _ _ (EvRead _) (EvRun _) eq_refl eq_refl Hphases).
  rewrite <- writes_of_artifacts. now apply plain_rendering_writes.
Qed.

Lemma bundled_main_writes (w : World) (args : Bundled.Args) :
  snd (Bundled.main w args) = Returned 0%Z ->
  exists content,
    w_read w (Bundled.schema args) = Some content /\
    let data :=
      parsed_schema (Plain.RPCParser_init w (Bundled.schema args)) content in
    writes_of (trace (Bundled.main w args))
    = flat_map (fun chooser => pass data (mode_order chooser)) (services data).
Proof.
  intros Hok. pose proof (bundled_main_phases w args) as H. cbv zeta in H.
  destruct (w_read w (Bundled.schema args)) as [content|];
    [|destruct H; congruence].
  exists content. split; [reflexivity|].
  destruct (snd (Bundled.resolve_flatcc w args)) as [flatcc_path|e|code];
    [|destruct H; congruence|destruct H; congruence].
  destruct (w_run w _) as [[returncode err]|]; [|destruct H; congruence].
  destruct (returncode =? 0)%Z; [|destruct H; congruence].
  destruct H as [Hphases H]. rewrite Hok in H. symmetry in H.
  apply after_rendering_ok in H. cbv zeta.
  rewrite writes_of_artifacts.
  assert (Ha : forall t r read run,
             is_artifact read = false -> is_artifact run = false ->
             phases t = read :: run :: phases r ->
             filter is_artifact t = filter is_artifact r)
    by apply artifacts_after_the_compiler.
  rewrite (Ha _ _ (EvRead _) (EvRun _) eq_refl eq_refl Hphases).
  rewrite <- writes_of_artifacts. now apply bundled_rendering_writes.
Qed.

(** X21: the writes of a run that returns 0, in order.  The plain generator
    goes through its three templates (header, server stub, client) and
    writes each for all the services of the schema in turn.  The other
    generator goes through the services and, for each, through the templates
    of the branch its name selects, writing each template for all the
    services of the schema: with n services every file of a branch is
    written once for every service that selects the branch. *)
Theorem writes_of_a_finished_run (w : World) :
  (forall args,
     snd (Plain.main w args) = Returned 0%Z ->
     exists content data,
       w_read w (Plain.schema args) = Some content /\
       Plain.parse_content (Plain.RPCParser_init w (Plain.schema args))
         content = Returned data /\
       writes_of (trace (Plain.main w args))
       = flat_map
           (fun ts =>
              map (fun service =>
                     (fst ts,
                      lower (namespace data) ++ $"_"
                      ++ lower (s_name service) ++ snd ts))
                (services data))
           [ ($"api.h.j2", $"_api.h");
             ($"server_stub.c.j2", $"_server_stub.c");
             ($"client.c.j2", $"_client.c") ]) /\
  (forall args,
     snd (Bundled.main w args) = Returned 0%Z ->
     exists content data,
       w_read w (Bundled.schema args) = Some content /\
       Bundled.parse_content
         (Bundled.RPCParser_init w (Bundled.schema args)) content
       = Returned data /\
       writes_of (trace (Bundled.main w args))
       = flat_map
           (fun chooser =>
              flat_map
                (fun ts =>
                   map (fun service =>
                          (fst ts,
                           lower (namespace data) ++ $"_"
                           ++ lower (s_name service) ++ snd ts))
                     (services data))
                (if Bundled.is_broadcast chooser then
                   [ ($"broadcast_api.h.j2", $"_api.h");
                     ($"broadcast_publisher.c.j2", $"_broadcast_publisher.c");
                     ($"broadcast_subscriber.c.j2",
                      $"_broadcast_subscriber.c") ]
                 else
                   [ ($"api.h.j2", $"_api.h");
                     ($"rpc_common.h.j2", $"_rpc_common.h");
                     ($"server_stub.c.j2", $"_server_stub.c");
                     ($"client.c.j2", $"_client.c");
                     ($"rpc_common.c.j2", $"_rpc_common.c") ]))
           (services data)).
Proof.
  split; intros args Hok.
  - destruct (plain_main_writes w args Hok) as (content & Hread & Hw).
    exists content, (parsed_schema (Plain.RPCParser_init w (Plain.schema args))
                       content).
    split; [exact Hread|]. split; [apply parse_content_eq | exact Hw].
  - destruct (bundled_main_writes w args Hok) as (content & Hread & Hw).
    exists content,
      (parsed_schema (Plain.RPCParser_init w (Bundled.schema args)) content).
    split; [exact Hread|]. split; [apply parse_content_eq | exact Hw].
Qed.

(** On the mixed schema the sixteen writes of the run: the three broadcast
    templates and then the five others, each for both services. *)
Lemma writes_of_a_finished_run_witness :
  exists content data,
    w_read (example_world mixed_schema 0) (Bundled.schema bundled_args)
    = Some content /\
    Bundled.parse_content
      (Bundled.RPCParser_init (example_world mixed_schema 0)
         (Bundled.schema bundled_args)) content
    = Returned data /\
    map snd
      (writes_of
         (trace (Bundled.main (example_world mixed_schema 0) bundled_args)))
    = [ $"demo_chatbroadcast_api.h"; $"demo_calculator_api.h";
        $"demo_chatbroadcast_broadcast_publisher.c";
        $"demo_calculator_broadcast_publisher.c";
        $"demo_chatbroadcast_broadcast_subscriber.c";
        $"demo_calculator_broadcast_subscriber.c";
        $"demo_chatbroadcast_api.h"; $"demo_calculator_api.h";
        $"demo_chatbroadcast_rpc_common.h"; $"demo_calculator_rpc_common.h";
        $"demo_chatbroadcast_server_stub.c"; $"demo_calculator_server_stub.c";
        $"demo_chatbroadcast_client.c"; $"demo_calculator_client.c";
        $"demo_chatbroadcast_rpc_common.c"; $"demo_calculator_rpc_common.c" ].
Proof.
  destruct (proj2 (@writes_of_a_finished_run (example_world mixed_schema 0))
              bundled_args) as (content & data & Hread & Hparse & Hwrites).
  - vm_compute. reflexivity.
  - exists content, data. split; [exact Hread|]. split; [exact Hparse|].
    rewrite Hwrites. injection Hread as <-.
    change (Plain.parse_content
              (Plain.RPCParser_init (example_world mixed_schema 0) $"calc.fbs")
              mixed_schema = Returned data) in Hparse.
    rewrite parse_content_eq in Hparse. injection Hparse as <-.
    vm_compute. reflexivity.
Defined.

(** ** The last writer of a file *)

Lemma last_writer_app (a b : list (str * str)) (filename : str) :
  last_writer (a ++ b) filename
  = match last_writer b filename with
    | Some template => Some template
    | None => last_writer a filename
    end.
Proof.
  unfold last_writer. rewrite rev_app_distr, find_append.
  destruct (find _ (rev b)); reflexivity.
Qed.

Lemma last_writer_none (l : list (str * str)) (filename : str) :
  (forall tf, In tf l -> snd tf <> filename) -> last_writer l filename = None.
Proof.
  intros H. unfold last_writer.
  destruct (find _ (rev l)) as [tf|] eqn:E; [|reflexivity].
  apply find_some in E. destruct E as [Hin E].
  apply in_rev in Hin. apply str_eqb_true in E. now apply H in Hin.
Qed.

Lemma last_writer_one_method (rpc_data : RpcData) (ts : str * str)
  (service : Service) :
  In service (services rpc_data) ->
  last_writer (writes_for rpc_data ts)
    (artifact_name (namespace rpc_data) (s_name service) (snd ts))
  = Some (fst ts).
Proof.
  destruct ts as [template suffix]. cbn [fst snd].
  intros Hin. unfold last_writer.
  destruct (find _ (rev (writes_for rpc_data (template, suffix))))
    as [tf|] eqn:E.
  - apply find_some in E. destruct E as [Htf _]. apply in_rev in Htf.
    unfold writes_for in Htf. apply in_map_iff in Htf.
    destruct Htf as (s & <- & _). reflexivity.
  - exfalso.
    pose proof (find_none _ _ E
                  (template,
                   artifact_name (namespace rpc_data) (s_name service) suffix))
      as H.
    cbn [snd] in H. rewrite str_eqb_refl in H.
    assert (Hx : In (template,
                     artifact_name (namespace rpc_data) (s_name service)
                       suffix)
                   (rev (writes_for rpc_data (template, suffix)))).
    { apply in_rev. rewrite rev_involutive. unfold writes_for.
      apply in_map_iff. now exists service. }
    apply H in Hx. discriminate.
Qed.

Lemma header_name_apart (ns svc other suffix : str) :
  In suffix [ $"_rpc_common.h"; $"_server_stub.c"; $"_client.c";
              $"_rpc_common.c"; $"_broadcast_publisher.c";
              $"_broadcast_subscriber.c" ] ->
  artifact_name ns other suffix <> artifact_name ns svc $"_api.h".
Proof.
  intros Hin H. unfold artifact_name in H. apply app_inv_head in H.
  injection H as H. apply (f_equal (@rev ascii)) in H.
  rewrite !rev_app_distr in H.
  repeat (destruct Hin as [<-|Hin]; [simpl in H; discriminate|]).
  destruct Hin.
Qed.

Lemma writes_for_apart (rpc_data : RpcData) (ts : str * str)
  (service : Service) :
  In (snd ts) [ $"_rpc_common.h"; $"_server_stub.c"; $"_client.c";
                $"_rpc_common.c"; $"_broadcast_publisher.c";
                $"_broadcast_subscriber.c" ] ->
  last_writer (writes_for rpc_data ts)
    (artifact_name (namespace rpc_data) (s_name service) $"_api.h")
  = None.
Proof.
  destruct ts as [template suffix]. cbn [fst snd]. intros Hs. apply last_writer_none. intros tf Htf.
  unfold writes_for in Htf. apply in_map_iff in Htf.
  destruct Htf as (s & <- & _). cbn [fst snd]. now apply header_name_apart.
Qed.

Lemma last_writer_of_a_branch (rpc_data : RpcData) (final service : Service) :
  In service (services rpc_data) ->
  last_writer (pass rpc_data (mode_order final))
    (artifact_name (namespace rpc_data) (s_name service) $"_api.h")
  = Some (if Bundled.is_broadcast final then $"broadcast_api.h.j2"
          else $"api.h.j2").
Proof.
  intros Hin. unfold mode_order, pass.
  destruct (Bundled.is_broadcast final);
    unfold broadcast_templates, request_response_order; cbn [flat_map];
    rewrite app_nil_r, !last_writer_app;
    repeat match goal with
           | |- context [last_writer (writes_for ?d ?ts) ?f] =>
               rewrite (@writes_for_apart d ts service) by (simpl; tauto)
           end;
    match goal with
    | |- last_writer (writes_for _ ?ts) _ = _ =>
        exact (@last_writer_one_method rpc_data ts service Hin)
    end.
Qed.

(** X22: the last service of the schema decides the header of all of them.
    In a run of the generator with the bundled compiler that returns 0, the
    file [{ns}_{svc}_api.h] of every service is last written from the header
    template of the branch the last service selects: from
    [broadcast_api.h.j2] when [Broadcast] occurs in the name of the last
    service, from [api.h.j2] otherwise, whatever the name of the service the
    file belongs to. *)
Theorem last_service_decides_the_header (w : World) (args : Bundled.Args)
  (content : str) (data : RpcData) (others : list Service)
  (final service : Service) :
  snd (Bundled.main w args) = Returned 0%Z ->
  w_read w (Bundled.schema args) = Some content ->
  Bundled.parse_content (Bundled.RPCParser_init w (Bundled.schema args))
    content = Returned data ->
  services data = others ++ [final] ->
  In service (services data) ->
  last_writer (writes_of (trace (Bundled.main w args)))
    (lower (namespace data) ++ $"_" ++ lower (s_name service) ++ $"_api.h")
  = Some (if Bundled.is_broadcast final then $"broadcast_api.h.j2"
          else $"api.h.j2").
Proof.
  intros Hok Hread Hparse Hservices Hin.
  destruct (bundled_main_writes w args Hok) as (content' & Hread' & Hw).
  rewrite Hread in Hread'. injection Hread' as <-.
  change (Plain.parse_content
            (Plain.RPCParser_init w (Bundled.schema args)) content
          = Returned data) in Hparse.
  rewrite parse_content_eq in Hparse. injection Hparse as Hdata.
  cbv zeta in Hw. rewrite Hdata in Hw. rewrite Hw.
  rewrite Hservices at 1. rewrite flat_map_app. cbn [flat_map].
  rewrite app_nil_r, last_writer_app.
  fold (artifact_name (namespace data) (s_name service) $"_api.h").
  now rewrite (last_writer_of_a_branch data final service Hin).
Qed.

(** On the mixed schema the last service is the calculator, so the header of
    the broadcast service is last written from the request and response
    template. *)
Lemma last_service_decides_the_header_witness :
  last_writer
    (writes_of
       (trace (Bundled.main (example_world mixed_schema 0) bundled_args)))
    $"demo_chatbroadcast_api.h"
  = Some $"api.h.j2".
Proof.
  pose proof (@last_service_decides_the_header
                (example_world mixed_schema 0) bundled_args mixed_schema
                (example_data mixed_schema) [chat_service] calculator_service
                chat_service) as H.
  assert (Hservices : services (example_data mixed_schema)
                      = [chat_service; calculator_service])
    by (vm_compute; reflexivity).
  assert (Hns : namespace (example_data mixed_schema) = $"Demo")
    by (vm_compute; reflexivity).
  rewrite Hns in H. apply H.
  - vm_compute. reflexivity.
  - reflexivity.
  - apply parse_content_eq.
  - exact Hservices.
  - rewrite Hservices. left. reflexivity.
Defined.
